(** * Call hierarchy provider (pyright, languageService/callHierarchyProvider.ts)

    A shallow embedding of [CallHierarchyProvider] and of its two parse-tree
    walkers, [FindOutgoingCallTreeWalker] and [FindIncomingCallTreeWalker],
    followed by the properties of the call-hierarchy specification.

    The collaborators the provider consumes (type evaluator, program view,
    declaration utilities, file system) are fields of the record [Host]; every
    theorem holds for an arbitrary host unless it names a concrete one. *)

From Stdlib Require Import List String Bool Arith Lia.
Import ListNotations.
Local Open Scope string_scope.
Local Open Scope bool_scope.
Local Open Scope list_scope.

Set Implicit Arguments.
Set Warnings "-register-all".

(** ** Source positions (common/textRange.ts, vscode-languageserver-types) *)

Module Position.
Record t := mk { line : nat; character : nat }.
Definition eqb (a b : t) : bool :=
  Nat.eqb (line a) (line b) && Nat.eqb (character a) (character b).
End Position.

Module Range.
Record t := mk { start : Position.t; end_ : Position.t }.
End Range.

(** Modelled from the spec: [rangesAreEqual] lives in common/textRange.ts; the
    aggregation key is compared by structural equality of the range, that is
    equal start and equal end positions. *)
Definition rangesAreEqual (a b : Range.t) : bool :=
  Position.eqb (Range.start a) (Range.start b)
  && Position.eqb (Range.end_ a) (Range.end_ b).

(** ** Parse nodes (parser/parseNodes.ts)

    Only the node shapes the provider inspects are kept apart; every other
    node is an [OtherN] with its children in walk order.  [id] stands for the
    identity of the node object, which the provider compares with [===]. *)

Module ParseNodeType.
Inductive t := Name | MemberAccess | Call | Module_ | Lambda | Function | Class | Other.
End ParseNodeType.

Module NameNode.
Record t := mk { id : nat; start : nat; length : nat; value : string }.
End NameNode.

Inductive ParseNode :=
| NameN (n : NameNode.t)
| MemberAccessN (id : nat) (leftExpression : ParseNode) (memberName : NameNode.t)
| CallN (id : nat) (leftExpression : ParseNode) (arguments : list ParseNode)
| OtherN (id : nat) (nodeType : ParseNodeType.t) (children : list ParseNode).

Definition nodeId (n : ParseNode) : nat :=
  match n with
  | NameN nn => NameNode.id nn
  | MemberAccessN i _ _ => i
  | CallN i _ _ => i
  | OtherN i _ _ => i
  end.

(** [a === b] on node objects. *)
Definition sameNode (a b : ParseNode) : bool := Nat.eqb (nodeId a) (nodeId b).

(** A JavaScript string that may be [undefined]. *)
Definition JsString := option string.

Definition jsStringEqb (a b : JsString) : bool :=
  match a, b with
  | Some x, Some y => String.eqb x y
  | None, None => true
  | _, _ => false
  end.

(** [(node as NameNode).value]: only a name node has a [value]. *)
Definition valueOfNode (n : ParseNode) : JsString :=
  match n with
  | NameN nn => Some (NameNode.value nn)
  | _ => None
  end.

(** ** Declarations (analyzer/declaration.ts) *)

(** Modelled from the spec: the enumeration [DeclarationType] is declared in
    analyzer/declaration.ts; a declaration is one of Function, Class, Alias,
    Variable, other. *)
Module DeclarationType.
Inductive t := Function | Class | Alias | Variable_ | Other.
Definition eqb (a b : t) : bool :=
  match a, b with
  | Function, Function | Class, Class | Alias, Alias
  | Variable_, Variable_ | Other, Other => true
  | _, _ => false
  end.
Lemma eqb_eq a b : eqb a b = true <-> a = b.
Proof. destruct a, b; simpl; split; congruence. Qed.
End DeclarationType.

Module Declaration.
Record t := mk {
  type : DeclarationType.t;
  node : ParseNode;
  path : string;
  range : Range.t
}.
End Declaration.

Definition isFunctionOrClass (d : Declaration.t) : bool :=
  match Declaration.type d with
  | DeclarationType.Function | DeclarationType.Class => true
  | _ => false
  end.

(** Modelled from the spec: [DeclarationUtils.areDeclarationsSame] lives in
    analyzer/declarationUtils.ts; declaration equality is structural, same
    kind, same file and same range. *)
Definition areDeclarationsSame (a b : Declaration.t) : bool :=
  DeclarationType.eqb (Declaration.type a) (Declaration.type b)
  && String.eqb (Declaration.path a) (Declaration.path b)
  && rangesAreEqual (Declaration.range a) (Declaration.range b).

(** ** Types and class members (analyzer/types.ts, analyzer/typeUtils.ts) *)

Record Symbol := mkSymbol {
  isInstanceMember : bool;
  getDeclarations : list Declaration.t
}.

Record ClassDetails := mkClassDetails {
  className : string;
  isBuiltInObject : bool;
  isPropertyClass : bool;
  fields : list (string * Symbol)
}.

(** A class type: its own details, then the rest of its method resolution
    order (the linearised base classes), and the two type flags. *)
Record ClassTypeInfo := mkClassType {
  details : ClassDetails;
  baseMro : list ClassDetails;
  instantiable : bool;
  instance : bool
}.

Inductive PyType :=
| UnknownT
| FunctionT
| ClassT (c : ClassTypeInfo)
| TypeVarT (name : string)
| UnionT (subtypes : list PyType).

Definition isFunction (t : PyType) : bool :=
  match t with FunctionT => true | _ => false end.

Definition isInstantiableClass (t : PyType) : bool :=
  match t with ClassT c => instantiable c | _ => false end.

Definition isClassInstance (t : PyType) : bool :=
  match t with ClassT c => instance c | _ => false end.

Definition isPropertyClassType (t : PyType) : bool :=
  match t with ClassT c => isPropertyClass (details c) | _ => false end.

(** [doForEachSubtype]: the callback runs on every member of a union, or on
    the type itself. *)
Definition subtypesOf (t : PyType) : list PyType :=
  match t with UnionT ts => ts | _ => [t] end.

Record ClassMember := mkClassMember {
  symbol : Symbol;
  definingClass : string
}.

Record ClassMemberLookupFlags := mkFlags {
  SkipInstanceVariables : bool;
  SkipObjectBaseClass : bool;
  SkipBaseClasses : bool
}.

Definition DefaultLookup : ClassMemberLookupFlags := mkFlags false false false.

Fixpoint lookupField (name : string) (fs : list (string * Symbol)) : option Symbol :=
  match fs with
  | [] => None
  | (k, s) :: rest => if String.eqb k name then Some s else lookupField name rest
  end.

Definition memberOfClass (flags : ClassMemberLookupFlags) (name : string)
    (c : ClassDetails) : option ClassMember :=
  if SkipObjectBaseClass flags && isBuiltInObject c then None
  else
    match lookupField name (fields c) with
    | Some s =>
        if isInstanceMember s && SkipInstanceVariables flags then None
        else Some (mkClassMember s (className c))
    | None => None
    end.

Fixpoint firstMember (flags : ClassMemberLookupFlags) (name : string)
    (classes : list ClassDetails) : option ClassMember :=
  match classes with
  | [] => None
  | c :: rest =>
      match memberOfClass flags name c with
      | Some m => Some m
      | None => firstMember flags name rest
      end
  end.

(** Modelled from the spec: [lookUpClassMember] lives in analyzer/typeUtils.ts.
    It searches the method resolution order, the class itself first; with
    [SkipBaseClasses] only the class's own (non-inherited) symbol table is
    consulted, so an inherited member is never found. *)
Definition lookUpClassMember (c : ClassTypeInfo) (name : string)
    (flags : ClassMemberLookupFlags) : option ClassMember :=
  if SkipBaseClasses flags
  then memberOfClass flags name (details c)
  else firstMember flags name (details c :: baseMro c).

(** Modelled from the spec: [lookUpObjectMember] lives in analyzer/typeUtils.ts;
    the member of an instance is looked up on its class with the default
    flags. *)
Definition lookUpObjectMember (t : PyType) (name : string) : option ClassMember :=
  match t with
  | ClassT c => if instance c then lookUpClassMember c name DefaultLookup else None
  | _ => None
  end.

(** ** Language-server items (vscode-languageserver-types) *)

Module SymbolKind.
Inductive t := Module_ | Class | Method | Property | Function | Variable_.
End SymbolKind.

Module CallHierarchyItem.
Record t := mk {
  name : JsString;
  kind : SymbolKind.t;
  uri : string;
  range : Range.t;
  selectionRange : Range.t
}.
Definition withUri (u : string) (i : t) : t :=
  mk (name i) (kind i) u (range i) (selectionRange i).
Definition withName (n : JsString) (i : t) : t :=
  mk n (kind i) (uri i) (range i) (selectionRange i).
End CallHierarchyItem.

Module CallHierarchyOutgoingCall.
Record t := mk { to : CallHierarchyItem.t; fromRanges : list Range.t }.
End CallHierarchyOutgoingCall.

Module CallHierarchyIncomingCall.
Record t := mk { from : CallHierarchyItem.t; fromRanges : list Range.t }.
End CallHierarchyIncomingCall.

(** ** The program host *)

Record ParseResults := mkParseResults {
  parseTree : ParseNode;
  tokenizerLines : list nat
}.

Record SourceFileInfo := mkSourceFileInfo {
  getFilePath : string;
  isOpenByClient : bool
}.

Record ReferencesResult := mkReferencesResult {
  nodeAtOffset : ParseNode;
  symbolNames : list string;
  declarations : list Declaration.t
}.

(** [ParseTreeUtils.getExecutionScopeNode] answers a module, a lambda or a
    function node; the provider reads the lambda's extent and the function's
    name node. *)
Inductive ExecutionScopeNode :=
| ModuleScope
| LambdaScope (start length : nat)
| FunctionScope (name : NameNode.t).

(** The collaborators of the provider, each taken by the answer it gives.
    Two things lie outside this record.  [getDeclarationForPosition] and
    [getDeclarationsForNode] receive the token; they are taken by the answer
    they give when they are not cancelled, so the reads of the token counted
    in the state are those of the provider and of its walkers.  And the
    program is taken to have its evaluator ([this._program.evaluator!]). *)
Record Host := mkHost {
  (* ProgramView *)
  getParseResults : string -> option ParseResults;
  getSourceFileInfo : string -> option SourceFileInfo;
  getSourceFileInfoList : list SourceFileInfo;
  isUserCode : SourceFileInfo -> bool;
  (* navigationUtils, pathUtils, positionUtils *)
  canNavigateToFile : string -> bool;
  convertPathToUri : string -> string;
  getFileName : string -> string;
  convertOffsetsToRange : nat -> nat -> list nat -> Range.t;
  (* TypeEvaluator *)
  resolveAliasDeclaration : Declaration.t -> bool -> option Declaration.t;
  getDeclarationsForNameNode : NameNode.t -> option (list Declaration.t);
  getType : ParseNode -> option PyType;
  makeTopLevelTypeVarsConcrete : PyType -> PyType;
  getTypeOfMember : ClassMember -> option PyType;
  getTypeForDeclaration : Declaration.t -> option PyType;
  getSymbolKind : Declaration.t -> JsString -> option SymbolKind.t;
  (* ReferencesProvider, DocumentSymbolCollector, ParseTreeUtils *)
  getDeclarationForPosition : string -> Position.t -> option ReferencesResult;
  getDeclarationsForNode : NameNode.t -> option (list Declaration.t);
  getExecutionScopeNode : NameNode.t -> option ExecutionScopeNode;
  (* DeclarationUtils *)
  hasTypeForDeclaration : Declaration.t -> bool;
  getNameFromDeclaration : Declaration.t -> JsString
}.

(** ** Effects: cooperative cancellation, host calls, JavaScript errors

    A [CancellationToken] is read afresh by every
    [throwIfCancellationRequested]; [token k] is what the [k]-th read sees.
    The state counts the reads made so far and records what the provider asks
    of the host during a multi-file scan.  An operation returns, raises the
    cancellation condition, or dies of a [TypeError] (a dereference of
    [undefined] behind a non-null assertion). *)

Definition CancellationToken := nat -> bool.

Record ProgState := mkState {
  checks : nat;
  walked : list string;
  memoryChecks : nat
}.

Definition initialState : ProgState := mkState 0 [] 0.

Inductive Outcome (A : Type) :=
| Ret (a : A) (s : ProgState)
| Cancelled
| TypeError.
Arguments Cancelled {A}.
Arguments TypeError {A}.

Definition M (A : Type) := CancellationToken -> ProgState -> Outcome A.

Definition ret {A} (a : A) : M A := fun _ s => Ret a s.

Definition bind {A B} (m : M A) (f : A -> M B) : M B :=
  fun tok s =>
    match m tok s with
    | Ret a s' => f a tok s'
    | Cancelled => Cancelled
    | TypeError => TypeError
    end.

Notation "x <- m ;; k" := (bind m (fun x => k))
  (at level 61, m at next level, right associativity).
Notation "m ;;; k" := (bind m (fun _ => k))
  (at level 61, right associativity).

(** One more read of the token has been made. *)
Definition tick (s : ProgState) : ProgState :=
  mkState (S (checks s)) (walked s) (memoryChecks s).

Definition throwIfCancellationRequested : M unit :=
  fun tok s => if tok (checks s) then Cancelled else Ret tt (tick s).

Definition throwTypeError {A} : M A := fun _ _ => TypeError.

(** Ghost event: a [FindIncomingCallTreeWalker] is run on [filePath]. *)
Definition noteWalk (filePath : string) : M unit :=
  fun _ s => Ret tt (mkState (checks s) (walked s ++ [filePath]) (memoryChecks s)).

(** [this._program.handleMemoryHighUsage()]. *)
Definition handleMemoryHighUsage : M unit :=
  fun _ s => Ret tt (mkState (checks s) (walked s) (S (memoryChecks s))).

(** [for (const x of xs) { acc = body(x, acc) }] in [M]. *)
Section ForEach.

Context {A S : Type} (body : A -> S -> M S).

Fixpoint forEachM (xs : list A) (acc : S) : M S :=
  match xs with
  | [] => ret acc
  | x :: rest => acc' <- body x acc ;; forEachM rest acc'
  end.

End ForEach.

Definition neverCancelled : CancellationToken := fun _ => false.

(** ** Array helpers

    [Array.prototype.find] hands back the record object itself, and the
    walkers then mutate that object in place: the array keeps its order and
    its first matching element changes. *)

Fixpoint mutateFirst {A} (p : A -> bool) (f : A -> A) (l : list A) : list A :=
  match l with
  | [] => []
  | x :: rest => if p x then f x :: rest else x :: mutateFirst p f rest
  end.

(** [a || b] and [a ?? b] on strings: [||] also falls through on the empty
    string. *)
Definition jsOr (a b : JsString) : JsString :=
  match a with
  | Some EmptyString => b
  | Some s => Some s
  | None => b
  end.

Definition jsNullish (a : JsString) (b : string) : JsString :=
  match a with
  | Some s => Some s
  | None => Some b
  end.

(** ** ParseTreeWalker (analyzer/parseTreeWalker.ts) *)

Record Visitor (S : Type) := mkVisitor {
  visitCall : ParseNode -> S -> M S;
  visitMemberAccess : ParseNode -> NameNode.t -> S -> M S
}.

(** Modelled from the spec: [ParseTreeWalker.walk] lives in
    analyzer/parseTreeWalker.ts; the traversal is depth-first over all syntax
    nodes under the root, a node before its children and the children in
    source order.  Both walkers answer [true] from their two visit methods, so
    no subtree is ever skipped.  [visitCall] receives the call's
    [leftExpression], [visitMemberAccess] the access's [leftExpression] and
    [memberName]; the member name is a leaf that no visit method looks at. *)
Fixpoint walk {S} (V : Visitor S) (n : ParseNode) (acc : S) : M S :=
  match n with
  | NameN _ => ret acc
  | MemberAccessN _ l m =>
      acc1 <- visitMemberAccess V l m acc ;;
      walk V l acc1
  | CallN _ l args =>
      acc1 <- visitCall V l acc ;;
      acc2 <- walk V l acc1 ;;
      forEachM (walk V) args acc2
  | OtherN _ _ cs => forEachM (walk V) cs acc
  end.

(** The name node a call is made through: a bare name, or the member name of
    a member access. *)
Definition calleeNameNode (leftExpression : ParseNode) : option NameNode.t :=
  match leftExpression with
  | NameN nn => Some nn
  | MemberAccessN _ _ m => Some m
  | _ => None
  end.

Section Provider.

Context (H : Host).

Definition rangeOfNameNode (parseResults : ParseResults) (nameNode : NameNode.t)
    : Range.t :=
  convertOffsetsToRange H (NameNode.start nameNode)
    (NameNode.start nameNode + NameNode.length nameNode)
    (tokenizerLines parseResults).

(** *** FindOutgoingCallTreeWalker *)

Definition sameDestination (callDest : CallHierarchyItem.t)
    (outgoing : CallHierarchyOutgoingCall.t) : bool :=
  String.eqb (CallHierarchyItem.uri (CallHierarchyOutgoingCall.to outgoing))
             (CallHierarchyItem.uri callDest)
  && rangesAreEqual
       (CallHierarchyItem.range (CallHierarchyOutgoingCall.to outgoing))
       (CallHierarchyItem.range callDest).

Definition symbolKindOr (d : Declaration.t) (n : JsString) : SymbolKind.t :=
  match getSymbolKind H d n with
  | Some k => k
  | None => SymbolKind.Module_
  end.

Definition outgoingCallDest (nameNode : NameNode.t) (resolvedDecl : Declaration.t)
    : CallHierarchyItem.t :=
  CallHierarchyItem.mk
    (Some (NameNode.value nameNode))
    (symbolKindOr resolvedDecl (Some (NameNode.value nameNode)))
    (Declaration.path resolvedDecl)
    (Declaration.range resolvedDecl)
    (Declaration.range resolvedDecl).

(** What the found-or-created record undergoes: the rename when its stored
    name differs from the text of the call site, then the push of the
    site's range. *)
Definition touchOutgoing (parseResults : ParseResults) (nameNode : NameNode.t)
    (resolvedDecl : Declaration.t) (outgoingCall : CallHierarchyOutgoingCall.t)
    : CallHierarchyOutgoingCall.t :=
  let to := CallHierarchyOutgoingCall.to outgoingCall in
  let to' :=
    if negb (jsStringEqb (CallHierarchyItem.name to) (Some (NameNode.value nameNode)))
    then CallHierarchyItem.withName
           (jsNullish (getNameFromDeclaration H resolvedDecl) (NameNode.value nameNode))
           to
    else to in
  CallHierarchyOutgoingCall.mk to'
    (CallHierarchyOutgoingCall.fromRanges outgoingCall
       ++ [rangeOfNameNode parseResults nameNode]).

Definition _addOutgoingCallForDeclaration (parseResults : ParseResults)
    (nameNode : NameNode.t) (declaration : Declaration.t)
    (_outgoingCalls : list CallHierarchyOutgoingCall.t)
    : list CallHierarchyOutgoingCall.t :=
  match resolveAliasDeclaration H declaration true with
  | None => _outgoingCalls
  | Some resolvedDecl =>
      if negb (isFunctionOrClass resolvedDecl) then _outgoingCalls
      else
        let callDest := outgoingCallDest nameNode resolvedDecl in
        let pushed :=
          match List.find (sameDestination callDest) _outgoingCalls with
          | Some _ => _outgoingCalls
          | None => _outgoingCalls ++ [CallHierarchyOutgoingCall.mk callDest []]
          end in
        mutateFirst (sameDestination callDest)
          (touchOutgoing parseResults nameNode resolvedDecl) pushed
  end.

(** [declarations.forEach((decl) => this._addOutgoingCallForDeclaration(nameNode, decl))] *)
Definition addOutgoingCalls (parseResults : ParseResults) (nameNode : NameNode.t)
    (decls : list Declaration.t) (calls : list CallHierarchyOutgoingCall.t)
    : list CallHierarchyOutgoingCall.t :=
  fold_left (fun acc decl => _addOutgoingCallForDeclaration parseResults nameNode decl acc)
    decls calls.

Definition outgoingVisitCall (parseResults : ParseResults) (leftExpression : ParseNode)
    (calls : list CallHierarchyOutgoingCall.t) : M (list CallHierarchyOutgoingCall.t) :=
  throwIfCancellationRequested ;;;
  ret match calleeNameNode leftExpression with
      | Some nameNode =>
          match getDeclarationsForNameNode H nameNode with
          | Some decls => addOutgoingCalls parseResults nameNode decls calls
          | None => calls
          end
      | None => calls
      end.

(** The property declarations one subtype of the left-hand type contributes
    to a member access: none unless the member is found on a class instance
    and its type is a property object. *)
Definition outgoingPropertyDecls (memberName : NameNode.t) (subtype : PyType)
    : list Declaration.t :=
  let baseType := makeTopLevelTypeVarsConcrete H subtype in
  if negb (isClassInstance baseType) then []
  else
    match lookUpObjectMember baseType (NameNode.value memberName) with
    | None => []
    | Some memberInfo =>
        match getTypeOfMember H memberInfo with
        | None => []
        | Some memberType =>
            if isClassInstance memberType && isPropertyClassType memberType
            then getDeclarations (symbol memberInfo)
            else []
        end
    end.

Definition outgoingVisitMemberAccess (parseResults : ParseResults)
    (leftExpression : ParseNode) (memberName : NameNode.t)
    (calls : list CallHierarchyOutgoingCall.t) : M (list CallHierarchyOutgoingCall.t) :=
  throwIfCancellationRequested ;;;
  ret match getType H leftExpression with
      | Some leftHandType =>
          fold_left
            (fun acc subtype =>
               addOutgoingCalls parseResults memberName
                 (outgoingPropertyDecls memberName subtype) acc)
            (subtypesOf leftHandType) calls
      | None => calls
      end.

Definition FindOutgoingCallTreeWalker (parseResults : ParseResults)
    : Visitor (list CallHierarchyOutgoingCall.t) :=
  mkVisitor (outgoingVisitCall parseResults) (outgoingVisitMemberAccess parseResults).

Definition findOutgoingCalls (parseRoot : ParseNode) (parseResults : ParseResults)
    : M (list CallHierarchyOutgoingCall.t) :=
  walk (FindOutgoingCallTreeWalker parseResults) parseRoot [].

(** *** FindIncomingCallTreeWalker *)

Definition sameSource (callSource : CallHierarchyItem.t)
    (incoming : CallHierarchyIncomingCall.t) : bool :=
  String.eqb (CallHierarchyItem.uri (CallHierarchyIncomingCall.from incoming))
             (CallHierarchyItem.uri callSource)
  && rangesAreEqual
       (CallHierarchyItem.range (CallHierarchyIncomingCall.from incoming))
       (CallHierarchyItem.range callSource).

Definition incomingCallSource (filePath : string) (parseResults : ParseResults)
    (executionNode : ExecutionScopeNode) : CallHierarchyItem.t :=
  match executionNode with
  | ModuleScope =>
      let moduleRange := convertOffsetsToRange H 0 0 (tokenizerLines parseResults) in
      CallHierarchyItem.mk
        (Some ("(module) " ++ getFileName H filePath)%string)
        SymbolKind.Module_ filePath moduleRange moduleRange
  | LambdaScope start length =>
      let lambdaRange :=
        convertOffsetsToRange H start (start + length) (tokenizerLines parseResults) in
      CallHierarchyItem.mk (Some "(lambda)") SymbolKind.Function
        filePath lambdaRange lambdaRange
  | FunctionScope name =>
      let functionRange := rangeOfNameNode parseResults name in
      CallHierarchyItem.mk (Some (NameNode.value name)) SymbolKind.Function
        filePath functionRange functionRange
  end.

Definition pushIncomingRange (r : Range.t) (incomingCall : CallHierarchyIncomingCall.t)
    : CallHierarchyIncomingCall.t :=
  CallHierarchyIncomingCall.mk
    (CallHierarchyIncomingCall.from incomingCall)
    (CallHierarchyIncomingCall.fromRanges incomingCall ++ [r]).

Definition _addIncomingCallForDeclaration (filePath : string)
    (parseResults : ParseResults) (nameNode : NameNode.t)
    (_incomingCalls : list CallHierarchyIncomingCall.t)
    : list CallHierarchyIncomingCall.t :=
  match getExecutionScopeNode H nameNode with
  | None => _incomingCalls
  | Some executionNode =>
      let callSource := incomingCallSource filePath parseResults executionNode in
      let pushed :=
        match List.find (sameSource callSource) _incomingCalls with
        | Some _ => _incomingCalls
        | None => _incomingCalls ++ [CallHierarchyIncomingCall.mk callSource []]
        end in
      mutateFirst (sameSource callSource)
        (pushIncomingRange (rangeOfNameNode parseResults nameNode)) pushed
  end.

Definition isAlias (d : Declaration.t) : bool :=
  DeclarationType.eqb (Declaration.type d) DeclarationType.Alias.

Definition incomingVisitCall (filePath : string) (_symbolName : JsString)
    (_declaration : Declaration.t) (parseResults : ParseResults)
    (leftExpression : ParseNode) (calls : list CallHierarchyIncomingCall.t)
    : M (list CallHierarchyIncomingCall.t) :=
  throwIfCancellationRequested ;;;
  ret match calleeNameNode leftExpression with
      | Some nameNode =>
          if jsStringEqb (Some (NameNode.value nameNode)) _symbolName then
            match getDeclarationsForNode H nameNode with
            | Some decls =>
                if isAlias _declaration then
                  match resolveAliasDeclaration H _declaration true with
                  | Some resolvedCurDecls =>
                      if existsb (fun decl => areDeclarationsSame decl resolvedCurDecls) decls
                      then _addIncomingCallForDeclaration filePath parseResults nameNode calls
                      else calls
                  | None => calls
                  end
                else if existsb (fun decl => areDeclarationsSame decl _declaration) decls
                then _addIncomingCallForDeclaration filePath parseResults nameNode calls
                else calls
            | None => calls
            end
          else calls
      | None => calls
      end.

Definition incomingSubtypeMatches (_declaration : Declaration.t)
    (memberName : NameNode.t) (subtype : PyType) : bool :=
  let baseType := makeTopLevelTypeVarsConcrete H subtype in
  if negb (isClassInstance baseType) then false
  else
    match lookUpObjectMember baseType (NameNode.value memberName) with
    | None => false
    | Some memberInfo =>
        match getTypeOfMember H memberInfo with
        | None => false
        | Some _ =>
            existsb (fun decl => areDeclarationsSame decl _declaration)
              (getDeclarations (symbol memberInfo))
        end
    end.

Definition incomingVisitMemberAccess (filePath : string) (_symbolName : JsString)
    (_declaration : Declaration.t) (parseResults : ParseResults)
    (leftExpression : ParseNode) (memberName : NameNode.t)
    (calls : list CallHierarchyIncomingCall.t)
    : M (list CallHierarchyIncomingCall.t) :=
  throwIfCancellationRequested ;;;
  ret (if jsStringEqb (Some (NameNode.value memberName)) _symbolName then
         match getType H leftExpression with
         | Some leftHandType =>
             fold_left
               (fun acc subtype =>
                  if incomingSubtypeMatches _declaration memberName subtype
                  then _addIncomingCallForDeclaration filePath parseResults memberName acc
                  else acc)
               (subtypesOf leftHandType) calls
         | None => calls
         end
       else calls).

Definition FindIncomingCallTreeWalker (filePath : string) (_symbolName : JsString)
    (_declaration : Declaration.t) (parseResults : ParseResults)
    : Visitor (list CallHierarchyIncomingCall.t) :=
  mkVisitor
    (incomingVisitCall filePath _symbolName _declaration parseResults)
    (incomingVisitMemberAccess filePath _symbolName _declaration parseResults).

Definition findIncomingCalls (filePath : string) (_symbolName : JsString)
    (_declaration : Declaration.t) (parseResults : ParseResults)
    : M (list CallHierarchyIncomingCall.t) :=
  walk (FindIncomingCallTreeWalker filePath _symbolName _declaration parseResults)
    (parseTree parseResults) [].

(** *** CallHierarchyProvider *)

Context (_filePath : string) (_position : Position.t).

Definition _parseResults : option ParseResults := getParseResults H _filePath.

Definition _getDeclaration : option ReferencesResult :=
  getDeclarationForPosition H _filePath _position.

Record TargetDeclaration := mkTarget {
  targetDecl : Declaration.t;
  callItemUri : string;
  symbolName : JsString
}.

(** The [for ... of] loop of [_getTargetDeclaration], with its [break]. *)
Fixpoint pickTarget (node : ParseNode) (targetDecl : Declaration.t)
    (decls : list Declaration.t) : Declaration.t :=
  match decls with
  | [] => targetDecl
  | decl :: rest =>
      if hasTypeForDeclaration H decl || negb (hasTypeForDeclaration H targetDecl) then
        if isFunctionOrClass decl then
          if sameNode (Declaration.node decl) node then decl
          else pickTarget node decl rest
        else pickTarget node targetDecl rest
      else pickTarget node targetDecl rest
  end.

(** [declarations[0]] of an empty array is [undefined] and the read of its
    [type] a [TypeError]: that is the [None] here.  The three callers return
    before they reach it. *)
Definition _getTargetDeclaration (referencesResult : ReferencesResult)
    : option TargetDeclaration :=
  match declarations referencesResult with
  | [] => None
  | first :: _ =>
      let targetDecl :=
        pickTarget (nodeAtOffset referencesResult) first
          (declarations referencesResult) in
      if isAlias targetDecl then
        Some (mkTarget targetDecl _filePath
                (valueOfNode (nodeAtOffset referencesResult)))
      else
        Some (mkTarget targetDecl (Declaration.path targetDecl)
                (jsOr (getNameFromDeclaration H targetDecl)
                      (hd_error (symbolNames referencesResult))))
  end.

(** The prologue the three operations share: the cancellation check, the
    parse results of the querying file, the declarations at the cursor. *)
Definition withTarget {A} (k : ParseResults -> TargetDeclaration -> M (option A))
    : M (option A) :=
  throwIfCancellationRequested ;;;
  match _parseResults with
  | None => ret None
  | Some parseResults =>
      match _getDeclaration with
      | None => ret None
      | Some referencesResult =>
          if Nat.eqb (List.length (declarations referencesResult)) 0 then ret None
          else
            match _getTargetDeclaration referencesResult with
            | None => throwTypeError
            | Some target => k parseResults target
            end
      end
  end.

Definition eligibleKind (d : Declaration.t) : bool :=
  match Declaration.type d with
  | DeclarationType.Function | DeclarationType.Class | DeclarationType.Alias => true
  | _ => false
  end.

Definition onPrepare : M (option (list CallHierarchyItem.t)) :=
  withTarget (fun _ target =>
    let targetDecl := targetDecl target in
    if negb (eligibleKind targetDecl) then ret None
    else
      let aliasResolves :=
        if isAlias targetDecl then
          match resolveAliasDeclaration H targetDecl true with
          | None => false
          | Some resolvedDecl => isFunctionOrClass resolvedDecl
          end
        else true in
      if negb aliasResolves then ret None
      else
        let callItem :=
          CallHierarchyItem.mk (symbolName target)
            (symbolKindOr targetDecl (symbolName target))
            (callItemUri target)
            (Declaration.range targetDecl) (Declaration.range targetDecl) in
        if negb (canNavigateToFile H (CallHierarchyItem.uri callItem)) then ret None
        else
          ret (Some [CallHierarchyItem.withUri
                       (convertPathToUri H (CallHierarchyItem.uri callItem)) callItem])).

Definition _getIncomingCallsForDeclaration (parseResults : option ParseResults)
    (filePath : string) (symbolName : JsString) (declaration : Declaration.t)
    : M (option (list CallHierarchyIncomingCall.t)) :=
  throwIfCancellationRequested ;;;
  noteWalk filePath ;;;
  match parseResults with
  | None => throwTypeError
  | Some parseResults =>
      incomingCalls <- findIncomingCalls filePath symbolName declaration parseResults ;;
      ret (if Nat.ltb 0 (List.length incomingCalls) then Some incomingCalls else None)
  end.

(** The body of the loop over [sourceFiles].  An entry is [None] when
    [getSourceFileInfo(this._filePath)!] was [undefined]; reading its
    properties is a [TypeError]. *)
Definition scanSourceFile (symbolName : JsString) (targetDecl : Declaration.t)
    (curSourceFileInfo : option SourceFileInfo)
    (items : list CallHierarchyIncomingCall.t)
    : M (list CallHierarchyIncomingCall.t) :=
  match curSourceFileInfo with
  | None => throwTypeError
  | Some info =>
      if isUserCode H info || isOpenByClient info then
        let filePath := getFilePath info in
        itemsToAdd <- _getIncomingCallsForDeclaration
                        (getParseResults H filePath) filePath symbolName targetDecl ;;
        let items' := match itemsToAdd with
                      | Some more => items ++ more
                      | None => items
                      end in
        handleMemoryHighUsage ;;;
        ret items'
      else ret items
  end.

Definition incomingSourceFiles (targetDecl : Declaration.t)
    : list (option SourceFileInfo) :=
  if isAlias targetDecl
  then [getSourceFileInfo H _filePath]
  else map Some (getSourceFileInfoList H).

Definition incomingToUri (item : CallHierarchyIncomingCall.t)
    : CallHierarchyIncomingCall.t :=
  CallHierarchyIncomingCall.mk
    (CallHierarchyItem.withUri
       (convertPathToUri H (CallHierarchyItem.uri (CallHierarchyIncomingCall.from item)))
       (CallHierarchyIncomingCall.from item))
    (CallHierarchyIncomingCall.fromRanges item).

Definition getIncomingCalls : M (option (list CallHierarchyIncomingCall.t)) :=
  withTarget (fun _ target =>
    items <- forEachM (scanSourceFile (symbolName target) (targetDecl target))
               (incomingSourceFiles (targetDecl target)) [] ;;
    if Nat.eqb (List.length items) 0 then ret None
    else
      let callItems :=
        filter (fun item =>
                  canNavigateToFile H
                    (CallHierarchyItem.uri (CallHierarchyIncomingCall.from item)))
          items in
      ret (Some (map incomingToUri callItems))).

Definition initLookupFlags : ClassMemberLookupFlags :=
  mkFlags true true true.

(** The parse node root of the class case: the node of the first declaration
    of the class's own [__init__], when that declaration is a function. *)
Definition initMethodRoot (resolvedDecl : Declaration.t) : option ParseNode :=
  match getTypeForDeclaration H resolvedDecl with
  | Some (ClassT classType) =>
      if instantiable classType then
        match lookUpClassMember classType "__init__" initLookupFlags with
        | Some initMethodMember =>
            match getTypeOfMember H initMethodMember with
            | Some initMethodType =>
                if isFunction initMethodType then
                  match getDeclarations (symbol initMethodMember) with
                  | primaryInitDecl :: _ =>
                      match Declaration.type primaryInitDecl with
                      | DeclarationType.Function => Some (Declaration.node primaryInitDecl)
                      | _ => None
                      end
                  | [] => None
                  end
                else None
            | None => None
            end
        | None => None
        end
      else None
  | _ => None
  end.

Definition outgoingParseRoot (resolvedDecl : Declaration.t) : option ParseNode :=
  match Declaration.type resolvedDecl with
  | DeclarationType.Function => Some (Declaration.node resolvedDecl)
  | DeclarationType.Class => initMethodRoot resolvedDecl
  | _ => None
  end.

Definition outgoingToUri (item : CallHierarchyOutgoingCall.t)
    : CallHierarchyOutgoingCall.t :=
  CallHierarchyOutgoingCall.mk
    (CallHierarchyItem.withUri
       (convertPathToUri H (CallHierarchyItem.uri (CallHierarchyOutgoingCall.to item)))
       (CallHierarchyOutgoingCall.to item))
    (CallHierarchyOutgoingCall.fromRanges item).

Definition getOutgoingCalls : M (option (list CallHierarchyOutgoingCall.t)) :=
  withTarget (fun parseResults target =>
    match resolveAliasDeclaration H (targetDecl target) true with
    | None => ret None
    | Some resolvedDecl =>
        match outgoingParseRoot resolvedDecl with
        | None => ret None
        | Some parseRoot =>
            outgoingCalls <- findOutgoingCalls parseRoot parseResults ;;
            if Nat.eqb (List.length outgoingCalls) 0 then ret None
            else
              let callItems :=
                filter (fun item =>
                          canNavigateToFile H
                            (CallHierarchyItem.uri (CallHierarchyOutgoingCall.to item)))
                  outgoingCalls in
              ret (Some (map outgoingToUri callItems))
        end
    end).

End Provider.


(** ** Worked programs

    Small concrete hosts on which the operations are run. *)

Module Examples.

Definition pos (l c : nat) : Position.t := Position.mk l c.
Definition span (l c1 c2 : nat) : Range.t := Range.mk (pos l c1) (pos l c2).

Definition nameNode (id start : nat) (text : string) : NameNode.t :=
  NameNode.mk id start (String.length text) text.

Definition functionNode (id : nat) (name : NameNode.t) (body : list ParseNode) : ParseNode :=
  OtherN id ParseNodeType.Function (NameN name :: body).

Definition moduleNode (id : nat) (statements : list ParseNode) : ParseNode :=
  OtherN id ParseNodeType.Module_ statements.

Definition callTo (id : nat) (callee : NameNode.t) : ParseNode :=
  CallN id (NameN callee) [].

Definition kindOfDeclaration (d : Declaration.t) : option SymbolKind.t :=
  match Declaration.type d with
  | DeclarationType.Function => Some SymbolKind.Function
  | DeclarationType.Class => Some SymbolKind.Class
  | DeclarationType.Variable_ => Some SymbolKind.Variable_
  | _ => None
  end.

Definition infoOf (files : list SourceFileInfo) (path : string) : option SourceFileInfo :=
  List.find (fun i => String.eqb (getFilePath i) path) files.

Definition resolvedDeclarations (resolve : Declaration.t -> option Declaration.t)
    (decls : list Declaration.t) : list Declaration.t :=
  flat_map (fun d => match resolve d with Some r => [r] | None => [] end) decls.

(** A host over single-line files: an offset is a column of line 0, every
    tracked file is user code unless it lies under [/lib/], and the
    reference lookup of the incoming walker answers resolved declarations. *)
Definition host
    (parse : string -> option ParseResults)
    (files : list SourceFileInfo)
    (navigable : string -> bool)
    (resolve : Declaration.t -> option Declaration.t)
    (declsFor : NameNode.t -> option (list Declaration.t))
    (typeOf : ParseNode -> option PyType)
    (typeOfDecl : Declaration.t -> option PyType)
    (atCursor : string -> Position.t -> option ReferencesResult)
    (scope : NameNode.t -> option ExecutionScopeNode)
    (hasType : Declaration.t -> bool)
    (nameOf : Declaration.t -> JsString) : Host :=
  mkHost parse (infoOf files) files
    (fun i => negb (String.prefix "/lib/" (getFilePath i)))
    navigable
    (fun p => ("file://" ++ p)%string)
    (fun p => p)
    (fun s e _ => Range.mk (pos 0 s) (pos 0 e))
    (fun d _ => resolve d)
    declsFor typeOf (fun t => t) (fun _ => Some FunctionT) typeOfDecl
    (fun d _ => kindOfDeclaration d)
    atCursor
    (fun n => option_map (resolvedDeclarations resolve) (declsFor n))
    scope hasType nameOf.

(** Pyright's [hasTypeForDeclaration] on the kinds kept here: functions and
    classes carry their type, an unannotated variable and an alias do not. *)
Definition declaredTypeByKind (d : Declaration.t) : bool := isFunctionOrClass d.

(** *** Anchor selection: [def f(): ...] followed by [f = 3], cursor on the
    second [f].  The variable declaration's node is the name node under the
    cursor. *)

Definition fName : NameNode.t := nameNode 2 4 "f".
Definition fNode : ParseNode := functionNode 1 fName [].
Definition fRebound : NameNode.t := nameNode 3 12 "f".

Definition fFunctionDecl : Declaration.t :=
  Declaration.mk DeclarationType.Function fNode "/src/a.py" (span 0 4 5).
Definition fVariableDecl : Declaration.t :=
  Declaration.mk DeclarationType.Variable_ (NameN fRebound) "/src/a.py" (span 0 12 13).

Definition reboundRefs : ReferencesResult :=
  mkReferencesResult (NameN fRebound) ["f"] [fFunctionDecl; fVariableDecl].

Definition anchorHost : Host :=
  host (fun _ => None) [] (fun _ => true) Some (fun _ => None) (fun _ => None)
    (fun _ => None) (fun _ _ => Some reboundRefs) (fun _ => None)
    declaredTypeByKind (fun _ => Some "f").

(** Three definitions of [g]; the cursor node is the node of the second. *)
Definition gNode (id : nat) : ParseNode := functionNode id (nameNode (S id) 4 "g") [].
Definition gDecl (id line : nat) : Declaration.t :=
  Declaration.mk DeclarationType.Function (gNode id) "/src/g.py" (span line 4 5).

Definition redefinedRefs : ReferencesResult :=
  mkReferencesResult (gNode 20) ["g"] [gDecl 10 0; gDecl 20 3; gDecl 30 6].

(** *** One file, [/src/app.py]: [def real(): ...], the import alias [nick]
    of [real], the variable [cb], and [def main(): real(); nick(); cb()].
    [realPath] is the file the declaration of [real] is reported in. *)

Definition realName : NameNode.t := nameNode 11 4 "real".
Definition realNode : ParseNode := functionNode 10 realName [].
Definition mainName : NameNode.t := nameNode 21 60 "main".
Definition callsReal : NameNode.t := nameNode 23 70 "real".
Definition callsNick : NameNode.t := nameNode 25 80 "nick".
Definition callsCb : NameNode.t := nameNode 27 90 "cb".
Definition cbName : NameNode.t := nameNode 31 50 "cb".
Definition mainNode : ParseNode :=
  functionNode 20 mainName [callTo 22 callsReal; callTo 24 callsNick; callTo 26 callsCb].
Definition appTree : ParseNode := moduleNode 1 [realNode; NameN cbName; mainNode].
Definition appResults : ParseResults := mkParseResults appTree [0].

Definition realDecl (realPath : string) : Declaration.t :=
  Declaration.mk DeclarationType.Function realNode realPath (span 0 4 8).
Definition nickDecl : Declaration.t :=
  Declaration.mk DeclarationType.Alias (NameN callsNick) "/src/app.py" (span 0 40 44).
Definition cbDecl : Declaration.t :=
  Declaration.mk DeclarationType.Variable_ (NameN cbName) "/src/app.py" (span 0 50 52).
Definition mainDecl : Declaration.t :=
  Declaration.mk DeclarationType.Function mainNode "/src/app.py" (span 0 60 64).

Definition appResolve (realPath : string) (d : Declaration.t) : option Declaration.t :=
  if isAlias d then Some (realDecl realPath) else Some d.

Definition appDeclsFor (realPath : string) (n : NameNode.t) : option (list Declaration.t) :=
  if String.eqb (NameNode.value n) "real" then Some [realDecl realPath]
  else if String.eqb (NameNode.value n) "nick" then Some [nickDecl]
  else if String.eqb (NameNode.value n) "cb" then Some [cbDecl]
  else if String.eqb (NameNode.value n) "main" then Some [mainDecl]
  else Some [].

Definition appScope (n : NameNode.t) : option ExecutionScopeNode :=
  if Nat.leb 60 (NameNode.start n) then Some (FunctionScope mainName) else Some ModuleScope.

Definition appName (d : Declaration.t) : JsString :=
  match Declaration.type d with
  | DeclarationType.Function =>
      if Nat.eqb (Position.character (Range.start (Declaration.range d))) 4
      then Some "real" else Some "main"
  | DeclarationType.Variable_ => Some "cb"
  | _ => None
  end.

(** The cursor is on the name in column [character] of line 0. *)
Definition appCursor (realPath : string) (file : string) (p : Position.t)
    : option ReferencesResult :=
  if negb (String.eqb file "/src/app.py") then None
  else if Nat.eqb (Position.character p) 60
  then Some (mkReferencesResult (NameN mainName) ["main"] [mainDecl])
  else if Nat.eqb (Position.character p) 4
  then Some (mkReferencesResult (NameN realName) ["real"] [realDecl realPath])
  else if Nat.eqb (Position.character p) 50
  then Some (mkReferencesResult (NameN cbName) ["cb"] [cbDecl])
  else if Nat.eqb (Position.character p) 80
  then Some (mkReferencesResult (NameN callsNick) ["nick"] [nickDecl])
  else None.

Definition appFiles : list SourceFileInfo := [mkSourceFileInfo "/src/app.py" true].

Definition appHost (realPath : string) (navigable : string -> bool) : Host :=
  host (fun p => if String.eqb p "/src/app.py" then Some appResults else None)
    appFiles navigable (appResolve realPath) (appDeclsFor realPath)
    (fun _ => None) (fun _ => None) (appCursor realPath) appScope
    declaredTypeByKind appName.

Definition everywhere : string -> bool := fun _ => true.
Definition outsideArchives (p : string) : bool := negb (String.prefix "/zip/" p).

(** *** [/src/shapes.py]: [class Base] defines [__init__], which calls
    [setup]; [class Derived(Base)] defines its own [__init__], calling
    [real], only when [own] is set. *)

Definition setupCall : NameNode.t := nameNode 43 30 "setup".
Definition baseInitNode : ParseNode :=
  functionNode 40 (nameNode 41 20 "__init__") [callTo 42 setupCall].
Definition ownInitNode : ParseNode :=
  functionNode 50 (nameNode 51 120 "__init__") [callTo 52 (nameNode 53 130 "real")].

Definition baseInitDecl : Declaration.t :=
  Declaration.mk DeclarationType.Function baseInitNode "/lib/base.py" (span 0 20 28).
Definition ownInitDecl : Declaration.t :=
  Declaration.mk DeclarationType.Function ownInitNode "/src/shapes.py" (span 0 120 128).
Definition setupDecl : Declaration.t :=
  Declaration.mk DeclarationType.Function (functionNode 60 (nameNode 61 4 "setup") [])
    "/lib/base.py" (span 0 4 9).

Definition derivedName : NameNode.t := nameNode 71 106 "Derived".
Definition derivedNode (own : bool) : ParseNode :=
  OtherN 70 ParseNodeType.Class (NameN derivedName :: if own then [ownInitNode] else []).
Definition derivedDecl (own : bool) : Declaration.t :=
  Declaration.mk DeclarationType.Class (derivedNode own) "/src/shapes.py" (span 0 106 113).

Definition baseDetails : ClassDetails :=
  mkClassDetails "Base" false false [("__init__", mkSymbol false [baseInitDecl])].
Definition objectDetails : ClassDetails :=
  mkClassDetails "object" true false [("__init__", mkSymbol false [])].
Definition derivedType (own : bool) : ClassTypeInfo :=
  mkClassType
    (mkClassDetails "Derived" false false
       (if own then [("__init__", mkSymbol false [ownInitDecl])] else []))
    [baseDetails; objectDetails] true false.

Definition shapesDeclsFor (n : NameNode.t) : option (list Declaration.t) :=
  if String.eqb (NameNode.value n) "setup" then Some [setupDecl]
  else if String.eqb (NameNode.value n) "real" then Some [realDecl "/src/app.py"]
  else None.

Definition shapesHost (own : bool) : Host :=
  host (fun p => if String.eqb p "/src/shapes.py"
                 then Some (mkParseResults (moduleNode 2 [derivedNode own]) [0])
                 else None)
    [mkSourceFileInfo "/src/shapes.py" true] everywhere Some shapesDeclsFor
    (fun _ => None)
    (fun d => if DeclarationType.eqb (Declaration.type d) DeclarationType.Class
              then Some (ClassT (derivedType own)) else None)
    (fun _ _ => Some (mkReferencesResult (NameN derivedName) ["Derived"] [derivedDecl own]))
    (fun _ => Some ModuleScope) declaredTypeByKind (fun _ => Some "Derived").

(** *** A workspace: [/src/app.py] as above, the third-party file
    [/lib/dep.py], closed, and the third-party file [/lib/open.py], open in
    the client; each of the two calls [real] at module level. *)

Definition libTree (id : nat) : ParseNode :=
  moduleNode id [callTo (S id) (nameNode (S (S id)) 0 "real")].

Definition workspaceFiles : list SourceFileInfo :=
  [mkSourceFileInfo "/src/app.py" false;
   mkSourceFileInfo "/lib/dep.py" false;
   mkSourceFileInfo "/lib/open.py" true].

Definition workspaceParse (p : string) : option ParseResults :=
  if String.eqb p "/src/app.py" then Some appResults
  else if String.eqb p "/lib/dep.py" then Some (mkParseResults (libTree 200) [0])
  else if String.eqb p "/lib/open.py" then Some (mkParseResults (libTree 300) [0])
  else None.

Definition workspaceHost : Host :=
  host workspaceParse workspaceFiles everywhere (appResolve "/src/app.py")
    (appDeclsFor "/src/app.py") (fun _ => None) (fun _ => None)
    (appCursor "/src/app.py") appScope declaredTypeByKind appName.

(** *** [main] with its two calls the other way round: [nick()] first, then
    [real()]. *)

Definition swappedMainNode : ParseNode :=
  functionNode 20 mainName [callTo 24 callsNick; callTo 22 callsReal].
Definition swappedMainDecl : Declaration.t :=
  Declaration.mk DeclarationType.Function swappedMainNode "/src/app.py" (span 0 60 64).
Definition swappedResults : ParseResults :=
  mkParseResults (moduleNode 1 [realNode; swappedMainNode]) [0].

Definition swappedHost : Host :=
  host (fun p => if String.eqb p "/src/app.py" then Some swappedResults else None)
    appFiles everywhere (appResolve "/src/app.py") (appDeclsFor "/src/app.py")
    (fun _ => None) (fun _ => None)
    (fun _ _ => Some (mkReferencesResult (NameN mainName) ["main"] [swappedMainDecl]))
    appScope declaredTypeByKind appName.

End Examples.

(** * Specification-level definitions

    The notions the properties below are stated with: the replacement test
    of the anchor scan, the visits and call sites of a walk, the keys of the
    call records, the candidate files of an incoming query, and the reading
    of the cancellation token. *)

Section AnchorDefinitions.

Context (H : Host) (node : ParseNode).

(** The replacement test of the scan and the step it induces when the scan
    does not stop. *)
Definition replaces (targetDecl decl : Declaration.t) : bool :=
  (hasTypeForDeclaration H decl || negb (hasTypeForDeclaration H targetDecl))
  && isFunctionOrClass decl.

Definition advance (targetDecl decl : Declaration.t) : Declaration.t :=
  if replaces targetDecl decl then decl else targetDecl.

(** The candidate [decl], met after the candidates [seen], ends the scan:
    it replaces the target of that moment and its node is the cursor node. *)
Definition stopsAfter (first : Declaration.t) (seen : list Declaration.t)
    (decl : Declaration.t) : Prop :=
  replaces (fold_left advance seen first) decl = true
  /\ sameNode (Declaration.node decl) node = true.

End AnchorDefinitions.

(** The short-circuit as the specification words it: the first candidate
    whose defining node is the node under the cursor is the target, wherever
    it stands in the list. *)
Definition exactMatchAlwaysWins (H : Host) (filePath : string) (r : ReferencesResult)
    : Prop :=
  forall seen decl rest,
    declarations r = seen ++ decl :: rest ->
    (forall d, In d seen -> sameNode (Declaration.node d) (nodeAtOffset r) = false) ->
    sameNode (Declaration.node decl) (nodeAtOffset r) = true ->
    option_map targetDecl (_getTargetDeclaration H filePath r) = Some decl.

(** The eligibility gate as the specification words it for every operation:
    a target that is neither a function, a class nor an alias makes the three
    operations return null. *)
Definition ineligibleKindYieldsNull (H : Host) (filePath : string)
    (position : Position.t) : Prop :=
  forall r target,
    _getDeclaration H filePath position = Some r ->
    _getTargetDeclaration H filePath r = Some target ->
    eligibleKind (targetDecl target) = false ->
    (exists s, onPrepare H filePath position neverCancelled initialState = Ret None s)
    /\ (exists s, getIncomingCalls H filePath position neverCancelled initialState = Ret None s)
    /\ (exists s, getOutgoingCalls H filePath position neverCancelled initialState = Ret None s).

(** A visit of the walk: the walker's [visitCall] on a call or its
    [visitMemberAccess] on a member access, with what the method reads of the
    node. *)
Inductive Visit :=
| CallVisit (leftExpression : ParseNode)
| MemberAccessVisit (leftExpression : ParseNode) (memberName : NameNode.t).

(** The visits a walk of [n] makes, in pre-order. *)
Fixpoint visitsOf (n : ParseNode) : list Visit :=
  match n with
  | NameN _ => []
  | MemberAccessN _ l m => MemberAccessVisit l m :: visitsOf l
  | CallN _ l args => CallVisit l :: visitsOf l ++ flat_map visitsOf args
  | OtherN _ _ cs => flat_map visitsOf cs
  end.

(** What the two visit methods of a walker do to its records once the token
    has been read. *)
Record Effects (S : Type) := mkEffects {
  onCall : ParseNode -> S -> S;
  onMemberAccess : ParseNode -> NameNode.t -> S -> S
}.

Definition applyVisit {S} (E : Effects S) (acc : S) (v : Visit) : S :=
  match v with
  | CallVisit l => onCall E l acc
  | MemberAccessVisit l m => onMemberAccess E l m acc
  end.

(** The visitor [V] is a read of the token followed by the effects [E]. *)
Definition checkedVisitor {S} (V : Visitor S) (E : Effects S) : Prop :=
  (forall l acc tok s,
     visitCall V l acc tok s
     = (throwIfCancellationRequested ;;; ret (onCall E l acc)) tok s)
  /\ (forall l m acc tok s,
        visitMemberAccess V l m acc tok s
        = (throwIfCancellationRequested ;;; ret (onMemberAccess E l m acc)) tok s).

(** [k] more reads of the token have been made. *)
Definition ticks (k : nat) (s : ProgState) : ProgState :=
  mkState (checks s + k) (walked s) (memoryChecks s).

(** Some read among the [count] reads from the [start]-th on sees the token
    triggered. *)
Definition cancelledWithin (tok : CancellationToken) (start count : nat) : bool :=
  existsb tok (seq start count).

(** [m], started in [s], reads the token [n] times and returns [a], unless
    one of these reads sees the token triggered. *)
Definition readsThenReturns {A} (m : M A) (n : nat) (a : A) : Prop :=
  forall tok s,
    m tok s = if cancelledWithin tok (checks s) n then Cancelled else Ret a (ticks n s).

Section WalkClosedFormDefinitions.

Context {S : Type} (V : Visitor S) (E : Effects S).

(** The walk of [n] reads the token once per visit and folds the effects of
    the visits into the records. *)
Definition walkOutcome (n : ParseNode) : Prop :=
  forall acc,
    readsThenReturns (walk V n acc) (List.length (visitsOf n))
      (fold_left (applyVisit E) (visitsOf n) acc).

End WalkClosedFormDefinitions.

(** The key of a call record: the file and the range of its item. *)
Definition Key : Type := string * Range.t.

Definition itemKey (i : CallHierarchyItem.t) : Key :=
  (CallHierarchyItem.uri i, CallHierarchyItem.range i).

Definition keyEqb (a b : Key) : bool :=
  String.eqb (fst a) (fst b) && rangesAreEqual (snd a) (snd b).

(** Find the record that satisfies [p], push [fresh] when there is none,
    then apply [f] to the first record that satisfies [p]. *)
Definition upsert {R} (p : R -> bool) (fresh : R) (f : R -> R) (l : list R) : list R :=
  mutateFirst p f
    match List.find p l with
    | Some _ => l
    | None => l ++ [fresh]
    end.

Section AggregationDefinitions.

Context {R Site : Type}.
Context (item : R -> CallHierarchyItem.t) (ranges : R -> list Range.t).
Context (siteKey : Site -> Key) (siteRange : Site -> Range.t).
Context (fresh : Site -> R) (touch : Site -> R -> R).

Definition keyOf (r : R) : Key := itemKey (item r).
Definition hasKey (k : Key) (r : R) : bool := keyEqb (keyOf r) k.

Definition recordSite (l : list R) (site : Site) : list R :=
  upsert (hasKey (siteKey site)) (fresh site) (touch site) l.

Definition aggregate (sites : list Site) (l : list R) : list R :=
  fold_left recordSite sites l.

(** The record list seen through its keys: the ranges stored under [k]. *)
Definition rangesAt (k : Key) (l : list R) : list Range.t :=
  match List.find (hasKey k) l with
  | Some r => ranges r
  | None => []
  end.

Definition rangesOfSites (k : Key) (sites : list Site) : list Range.t :=
  map siteRange (filter (fun site => keyEqb (siteKey site) k) sites).

(** The record of a key evolves through the sites of that key alone. *)
Definition touchFound (cur : option R) (site : Site) : option R :=
  Some (touch site match cur with Some r => r | None => fresh site end).

End AggregationDefinitions.

Section SitesDefinitions.

Context (H : Host).

(** Outgoing: a call site is a name node with the function or class
    declaration it resolves to. *)
Definition OutgoingSite : Type := NameNode.t * Declaration.t.

Definition outgoingSitesOfDeclaration (nameNode : NameNode.t)
    (declaration : Declaration.t) : list OutgoingSite :=
  match resolveAliasDeclaration H declaration true with
  | Some resolvedDecl =>
      if isFunctionOrClass resolvedDecl then [(nameNode, resolvedDecl)] else []
  | None => []
  end.

Definition outgoingSitesOfVisit (v : Visit) : list OutgoingSite :=
  match v with
  | CallVisit l =>
      match calleeNameNode l with
      | Some nameNode =>
          match getDeclarationsForNameNode H nameNode with
          | Some decls => flat_map (outgoingSitesOfDeclaration nameNode) decls
          | None => []
          end
      | None => []
      end
  | MemberAccessVisit l m =>
      match getType H l with
      | Some leftHandType =>
          flat_map
            (fun subtype =>
               flat_map (outgoingSitesOfDeclaration m) (outgoingPropertyDecls H m subtype))
            (subtypesOf leftHandType)
      | None => []
      end
  end.

(** The call sites under [root], in the order the walk discovers them. *)
Definition outgoingSites (root : ParseNode) : list OutgoingSite :=
  flat_map outgoingSitesOfVisit (visitsOf root).

Definition declarationKey (d : Declaration.t) : Key :=
  (Declaration.path d, Declaration.range d).

Definition outgoingSiteKey (site : OutgoingSite) : Key := declarationKey (snd site).

Definition outgoingKey (call : CallHierarchyOutgoingCall.t) : Key :=
  itemKey (CallHierarchyOutgoingCall.to call).

Definition freshOutgoing (site : OutgoingSite) : CallHierarchyOutgoingCall.t :=
  CallHierarchyOutgoingCall.mk (outgoingCallDest H (fst site) (snd site)) [].

Definition recordOutgoing (parseResults : ParseResults)
    (calls : list CallHierarchyOutgoingCall.t) (site : OutgoingSite)
    : list CallHierarchyOutgoingCall.t :=
  recordSite CallHierarchyOutgoingCall.to outgoingSiteKey freshOutgoing
    (fun site => touchOutgoing H parseResults (fst site) (snd site)) calls site.

Definition outgoingEffects (parseResults : ParseResults)
    : Effects (list CallHierarchyOutgoingCall.t) :=
  mkEffects
    (fun l calls =>
       match calleeNameNode l with
       | Some nameNode =>
           match getDeclarationsForNameNode H nameNode with
           | Some decls => addOutgoingCalls H parseResults nameNode decls calls
           | None => calls
           end
       | None => calls
       end)
    (fun l m calls =>
       match getType H l with
       | Some leftHandType =>
           fold_left
             (fun acc subtype =>
                addOutgoingCalls H parseResults m (outgoingPropertyDecls H m subtype) acc)
             (subtypesOf leftHandType) calls
       | None => calls
       end).

(** The records the outgoing walker holds after a walk of [root] that is not
    cancelled. *)
Definition outgoingRecords (parseResults : ParseResults) (root : ParseNode)
    : list CallHierarchyOutgoingCall.t :=
  fold_left (recordOutgoing parseResults) (outgoingSites root) [].

(** Incoming: a call site is a matching name node with the execution
    scope that encloses it. *)
Definition IncomingSite : Type := NameNode.t * ExecutionScopeNode.

Definition incomingSitesOfName (nameNode : NameNode.t) : list IncomingSite :=
  match getExecutionScopeNode H nameNode with
  | Some executionNode => [(nameNode, executionNode)]
  | None => []
  end.

(** The declaration a candidate is compared with: the target itself, or
    what the target resolves to when it is an alias. *)
Definition comparedDeclaration (_declaration : Declaration.t) : option Declaration.t :=
  if isAlias _declaration
  then resolveAliasDeclaration H _declaration true
  else Some _declaration.

(** The test of [visitCall]: the text of the name node is the symbol name
    and one of the declarations of the name node is the compared one. *)
Definition incomingCallMatches (_symbolName : JsString) (_declaration : Declaration.t)
    (nameNode : NameNode.t) : bool :=
  jsStringEqb (Some (NameNode.value nameNode)) _symbolName
  && match getDeclarationsForNode H nameNode, comparedDeclaration _declaration with
     | Some decls, Some compared =>
         existsb (fun decl => areDeclarationsSame decl compared) decls
     | _, _ => false
     end.

Definition incomingSitesOfVisit (_symbolName : JsString) (_declaration : Declaration.t)
    (v : Visit) : list IncomingSite :=
  match v with
  | CallVisit l =>
      match calleeNameNode l with
      | Some nameNode =>
          if incomingCallMatches _symbolName _declaration nameNode
          then incomingSitesOfName nameNode
          else []
      | None => []
      end
  | MemberAccessVisit l m =>
      if jsStringEqb (Some (NameNode.value m)) _symbolName then
        match getType H l with
        | Some leftHandType =>
            flat_map
              (fun subtype =>
                 if incomingSubtypeMatches H _declaration m subtype
                 then incomingSitesOfName m
                 else [])
              (subtypesOf leftHandType)
        | None => []
        end
      else []
  end.

Definition incomingSites (_symbolName : JsString) (_declaration : Declaration.t)
    (root : ParseNode) : list IncomingSite :=
  flat_map (incomingSitesOfVisit _symbolName _declaration) (visitsOf root).

Definition incomingSiteKey (filePath : string) (parseResults : ParseResults)
    (site : IncomingSite) : Key :=
  itemKey (incomingCallSource H filePath parseResults (snd site)).

Definition incomingKey (call : CallHierarchyIncomingCall.t) : Key :=
  itemKey (CallHierarchyIncomingCall.from call).

Definition freshIncoming (filePath : string) (parseResults : ParseResults)
    (site : IncomingSite) : CallHierarchyIncomingCall.t :=
  CallHierarchyIncomingCall.mk (incomingCallSource H filePath parseResults (snd site)) [].

Definition recordIncoming (filePath : string) (parseResults : ParseResults)
    (calls : list CallHierarchyIncomingCall.t) (site : IncomingSite)
    : list CallHierarchyIncomingCall.t :=
  recordSite CallHierarchyIncomingCall.from (incomingSiteKey filePath parseResults)
    (freshIncoming filePath parseResults)
    (fun site => pushIncomingRange (rangeOfNameNode H parseResults (fst site))) calls site.

Definition incomingEffects (filePath : string) (_symbolName : JsString)
    (_declaration : Declaration.t) (parseResults : ParseResults)
    : Effects (list CallHierarchyIncomingCall.t) :=
  mkEffects
    (fun l calls =>
       match calleeNameNode l with
       | Some nameNode =>
           if incomingCallMatches _symbolName _declaration nameNode
           then _addIncomingCallForDeclaration H filePath parseResults nameNode calls
           else calls
       | None => calls
       end)
    (fun l m calls =>
       if jsStringEqb (Some (NameNode.value m)) _symbolName then
         match getType H l with
         | Some leftHandType =>
             fold_left
               (fun acc subtype =>
                  if incomingSubtypeMatches H _declaration m subtype
                  then _addIncomingCallForDeclaration H filePath parseResults m acc
                  else acc)
               (subtypesOf leftHandType) calls
         | None => calls
         end
       else calls).

End SitesDefinitions.

Section IncomingSitesDefinitions.

Context (H : Host) (filePath : string) (_symbolName : JsString)
        (_declaration : Declaration.t) (parseResults : ParseResults).

(** The records the incoming walker holds after a walk of the file that is
    not cancelled. *)
Definition incomingRecords : list CallHierarchyIncomingCall.t :=
  fold_left (recordIncoming H filePath parseResults)
    (incomingSites H _symbolName _declaration (parseTree parseResults)) [].

End IncomingSitesDefinitions.

(** The test of the specification: the literal text of the callee name node
    is the symbol name, and one of the declarations resolved for the name
    node is structurally equal to the target, or to what the target resolves
    to when the target is an alias. *)
Definition calleeMatchesTarget (H : Host) (_symbolName : JsString)
    (_declaration : Declaration.t) (nameNode : NameNode.t) : Prop :=
  Some (NameNode.value nameNode) = _symbolName
  /\ exists decls compared candidate,
       getDeclarationsForNode H nameNode = Some decls
       /\ (if isAlias _declaration
           then resolveAliasDeclaration H _declaration true
           else Some _declaration) = Some compared
       /\ In candidate decls
       /\ areDeclarationsSame candidate compared = true.

(** [m] walks the files [files], in this order, and calls the memory hook
    [k] times, whenever it returns. *)
Definition traces {A} (m : M A) (files : list string) (k : nat) : Prop :=
  forall tok s a s',
    m tok s = Ret a s' ->
    walked s' = walked s ++ files /\ memoryChecks s' = memoryChecks s + k.

Section ScannedFilesDefinitions.

Context (H : Host) (filePath : string).

Definition isScanned (info : SourceFileInfo) : bool :=
  isUserCode H info || isOpenByClient info.

(** The candidate file set of the specification: the querying file alone
    for an alias, every file of the program otherwise, and of these the
    files that are user code or open in the client. *)
Definition candidateFiles (targetDecl : Declaration.t) : list SourceFileInfo :=
  filter isScanned
    (if isAlias targetDecl
     then match getSourceFileInfo H filePath with
          | Some info => [info]
          | None => []
          end
     else getSourceFileInfoList H).

Definition presentFiles (xs : list (option SourceFileInfo)) : list SourceFileInfo :=
  flat_map (fun x => match x with Some info => [info] | None => [] end) xs.

End ScannedFilesDefinitions.

(** [m] is faithful to the token: left alone it either returns after some
    reads of the token or dies of a [TypeError]; under any token, the run
    that would return raises the cancellation condition as soon as one of
    those reads sees the token triggered and returns the very same result
    otherwise. *)
Definition cancellationFaithful {A} (m : M A) : Prop :=
  forall s,
    match m neverCancelled s with
    | Ret a s' =>
        checks s <= checks s'
        /\ forall tok,
             m tok s = if cancelledWithin tok (checks s) (checks s' - checks s)
                       then Cancelled else Ret a s'
    | TypeError => forall tok, m tok s = TypeError \/ m tok s = Cancelled
    | Cancelled => False
    end.

(** The stored name of a record after one more call site spelled
    [spelling]: a differing spelling replaces it with the declaration's own
    name. *)
Definition renamed (realName : string) (cur : JsString) (spelling : string) : JsString :=
  if negb (jsStringEqb cur (Some spelling)) then Some realName else cur.

Section AliasPrecedenceDefinitions.

Context (H : Host) (parseResults : ParseResults).

Definition nameOfCall (call : CallHierarchyOutgoingCall.t) : JsString :=
  CallHierarchyItem.name (CallHierarchyOutgoingCall.to call).

Definition outgoingStep :=
  touchFound (freshOutgoing H)
    (fun site : OutgoingSite => touchOutgoing H parseResults (fst site) (snd site)).

End AliasPrecedenceDefinitions.

(** ** Further notions: the order of the records, the number of their
    ranges, what one file contributes to an incoming query, and what a
    visit hands to the recorder *)

(** The keys of a list in the order of their first occurrence. *)
Definition addKey (seen : list Key) (k : Key) : list Key :=
  if existsb (keyEqb k) seen then seen else seen ++ [k].

Definition firstOccurrences (keys : list Key) : list Key :=
  fold_left addKey keys [].

(** The number of ranges all the records of a list hold. *)
Definition rangeCount {R} (ranges : R -> list Range.t) (l : list R) : nat :=
  list_sum (map (fun r => List.length (ranges r)) l).



Definition outgoingAnswer (H : Host) (items : list CallHierarchyOutgoingCall.t)
    : option (list CallHierarchyOutgoingCall.t) :=
  match items with
  | [] => None
  | _ :: _ =>
      Some (map (outgoingToUri H)
              (filter (fun item =>
                         canNavigateToFile H
                           (CallHierarchyItem.uri (CallHierarchyOutgoingCall.to item)))
                 items))
  end.

(** The workspace of the examples when the program holds parse results for
    [/src/app.py] only: the two third-party files are tracked but not parsed. *)
Definition unparsedWorkspaceHost : Host :=
  Examples.host
    (fun p => if String.eqb p "/src/app.py" then Some Examples.appResults else None)
    Examples.workspaceFiles Examples.everywhere (Examples.appResolve "/src/app.py")
    (Examples.appDeclsFor "/src/app.py") (fun _ => None) (fun _ => None)
    (Examples.appCursor "/src/app.py") Examples.appScope
    Examples.declaredTypeByKind Examples.appName.


(** A host that differs from [H] in the type it finds for class members. *)
Definition withMemberType (H : Host) (memberType : ClassMember -> option PyType) : Host :=
  mkHost (getParseResults H) (getSourceFileInfo H) (getSourceFileInfoList H)
    (isUserCode H) (canNavigateToFile H) (convertPathToUri H) (getFileName H)
    (convertOffsetsToRange H) (resolveAliasDeclaration H)
    (getDeclarationsForNameNode H) (getType H) (makeTopLevelTypeVarsConcrete H)
    memberType (getTypeForDeclaration H) (getSymbolKind H)
    (getDeclarationForPosition H) (getDeclarationsForNode H)
    (getExecutionScopeNode H) (hasTypeForDeclaration H) (getNameFromDeclaration H).

(** [/src/zoo.py]: the module-level expression [cat.purr()], where [cat] is
    an instance of [class Cat] and [purr] a member of [Cat] declared by a
    [def]; the member is a plain method in [zooHost] and a property in
    [propertyZooHost]. *)
Definition catName : NameNode.t := Examples.nameNode 82 200 "cat".
Definition purrName : NameNode.t := Examples.nameNode 83 204 "purr".
Definition purrDecl : Declaration.t :=
  Declaration.mk DeclarationType.Function
    (Examples.functionNode 90 (Examples.nameNode 91 10 "purr") [])
    "/src/zoo.py" (Examples.span 0 10 14).
Definition catType : ClassTypeInfo :=
  mkClassType
    (mkClassDetails "Cat" false false [("purr", mkSymbol false [purrDecl])])
    [] false true.
Definition propertyType : PyType :=
  ClassT (mkClassType (mkClassDetails "property" false true []) [] false true).
Definition zooCall : ParseNode := CallN 80 (MemberAccessN 81 (NameN catName) purrName) [].
Definition zooResults : ParseResults := mkParseResults zooCall [0].
Definition zooHost : Host :=
  Examples.host (fun _ => Some zooResults) [mkSourceFileInfo "/src/zoo.py" true]
    Examples.everywhere Some
    (fun n => if String.eqb (NameNode.value n) "purr" then Some [purrDecl] else None)
    (fun _ => Some (ClassT catType)) (fun _ => None) (fun _ _ => None)
    (fun _ => Some ModuleScope) Examples.declaredTypeByKind (fun _ => Some "purr").
Definition propertyZooHost : Host := withMemberType zooHost (fun _ => Some propertyType).

(** A body that calls [real] through its alias [nick] only. *)
Definition nickOnlyNode : ParseNode :=
  Examples.functionNode 20 Examples.mainName [Examples.callTo 24 Examples.callsNick].

(** What a visit of the outgoing walker hands to
    [_addOutgoingCallForDeclaration]: the callee name node of a call with
    one of the declarations the evaluator finds for it, or the member name
    of a member access with one of the declarations of the member when the
    member is a property on some subtype of the type of the left
    expression. *)
Definition recorderInput (H : Host) (v : Visit) (nameNode : NameNode.t)
    (declaration : Declaration.t) : Prop :=
  match v with
  | CallVisit leftExpression =>
      calleeNameNode leftExpression = Some nameNode
      /\ exists declarations,
           getDeclarationsForNameNode H nameNode = Some declarations
           /\ In declaration declarations
  | MemberAccessVisit leftExpression memberName =>
      memberName = nameNode
      /\ exists leftHandType subtype,
           getType H leftExpression = Some leftHandType
           /\ In subtype (subtypesOf leftHandType)
           /\ In declaration (outgoingPropertyDecls H memberName subtype)
  end.

(** [/src/app.py] when the name [nick] has two import declarations, both
    aliases of [real]. *)
Definition nickAgainDecl : Declaration.t :=
  Declaration.mk DeclarationType.Alias (NameN Examples.callsNick) "/src/app.py"
    (Examples.span 0 44 48).
Definition twiceDeclaredHost : Host :=
  Examples.host
    (fun p => if String.eqb p "/src/app.py" then Some Examples.appResults else None)
    Examples.appFiles Examples.everywhere (Examples.appResolve "/src/app.py")
    (fun n => if String.eqb (NameNode.value n) "nick"
              then Some [Examples.nickDecl; nickAgainDecl]
              else Examples.appDeclsFor "/src/app.py" n)
    (fun _ => None) (fun _ => None) (Examples.appCursor "/src/app.py")
    Examples.appScope Examples.declaredTypeByKind Examples.appName.

(** * Properties *)

(** ** Equality tests decide equality *)

Lemma Position_eqb_eq (a b : Position.t) : Position.eqb a b = true <-> a = b.
Proof.
  destruct a as [l c], b as [l' c']; unfold Position.eqb; simpl.
  rewrite andb_true_iff, !Nat.eqb_eq. split.
  - intros [-> ->]; reflexivity.
  - intros E; inversion E; auto.
Qed.

Lemma rangesAreEqual_eq (a b : Range.t) : rangesAreEqual a b = true <-> a = b.
Proof.
  destruct a as [s e], b as [s' e']; unfold rangesAreEqual; simpl.
  rewrite andb_true_iff, !Position_eqb_eq. split.
  - intros [-> ->]; reflexivity.
  - intros E; inversion E; auto.
Qed.

Lemma rangesAreEqual_refl (a : Range.t) : rangesAreEqual a a = true.
Proof. apply rangesAreEqual_eq; reflexivity. Qed.

Lemma jsStringEqb_eq (a b : JsString) : jsStringEqb a b = true <-> a = b.
Proof.
  destruct a, b; simpl; try rewrite String.eqb_eq; split; congruence.
Qed.

(** ** Anchor selection (C1) *)

Section Anchor.

Context (H : Host) (node : ParseNode).

Lemma pickTarget_cons targetDecl decl rest :
  pickTarget H node targetDecl (decl :: rest) =
  if replaces H targetDecl decl then
    if sameNode (Declaration.node decl) node then decl
    else pickTarget H node decl rest
  else pickTarget H node targetDecl rest.
Proof.
  unfold replaces; simpl.
  destruct (hasTypeForDeclaration H decl || negb (hasTypeForDeclaration H targetDecl));
    destruct (isFunctionOrClass decl); reflexivity.
Qed.

Lemma pickTarget_runs_through decls : forall first,
  (forall seen decl rest, decls = seen ++ decl :: rest -> ~ stopsAfter H node first seen decl) ->
  pickTarget H node first decls = fold_left (advance H) decls first.
Proof.
  induction decls as [|d ds IH]; intros first Hno; [reflexivity|].
  rewrite pickTarget_cons. simpl fold_left. unfold advance at 2.
  destruct (replaces H first d) eqn:Hr.
  - destruct (sameNode (Declaration.node d) node) eqn:Hs.
    + exfalso. apply (Hno [] d ds eq_refl). split; assumption.
    + apply IH. intros seen decl rest -> Hstop.
      apply (Hno (d :: seen) decl rest eq_refl).
      unfold stopsAfter in *. simpl. unfold advance at 2. rewrite Hr. exact Hstop.
  - apply IH. intros seen decl rest -> Hstop.
    apply (Hno (d :: seen) decl rest eq_refl).
    unfold stopsAfter in *. simpl. unfold advance at 2. rewrite Hr. exact Hstop.
Qed.

Lemma pickTarget_stops seen : forall first decl rest,
  (forall seen' d rest', seen = seen' ++ d :: rest' -> ~ stopsAfter H node first seen' d) ->
  stopsAfter H node first seen decl ->
  pickTarget H node first (seen ++ decl :: rest) = decl.
Proof.
  induction seen as [|d ds IH]; intros first decl rest Hno [Hr Hs].
  - cbn [fold_left] in Hr. cbn [app]. rewrite pickTarget_cons, Hr, Hs. reflexivity.
  - cbn [app]. rewrite pickTarget_cons.
    assert (Hd : ~ stopsAfter H node first [] d) by (apply (Hno [] d ds eq_refl)).
    cbn [fold_left] in Hr. unfold advance at 2 in Hr.
    destruct (replaces H first d) eqn:Hrd.
    + destruct (sameNode (Declaration.node d) node) eqn:Hsd.
      * exfalso. apply Hd. split; assumption.
      * apply IH; [|split; assumption].
        intros seen' x rest' -> Hstop.
        apply (Hno (d :: seen') x rest' eq_refl).
        unfold stopsAfter in *. simpl. unfold advance at 2. rewrite Hrd. exact Hstop.
    + apply IH; [|split; assumption].
      intros seen' x rest' -> Hstop.
      apply (Hno (d :: seen') x rest' eq_refl).
      unfold stopsAfter in *. simpl. unfold advance at 2. rewrite Hrd. exact Hstop.
Qed.

End Anchor.

(** C1 (as amended).  Over a non-empty candidate list the anchor is found by
    one left-to-right pass that starts from the first candidate; a candidate
    [d] replaces the current target exactly when ([d] has a declared type or
    the target has none) and [d] is a function or a class.  The pass ends
    early only at a candidate that has just replaced the target and whose
    defining node is the node under the cursor: that candidate is the answer
    whatever follows it.  When no candidate ends the pass, the answer is the
    last replacement. *)
Theorem anchor_selection_scan (H : Host) (filePath : string) (r : ReferencesResult)
    (first : Declaration.t) (others : list Declaration.t) :
  declarations r = first :: others ->
  exists target,
    _getTargetDeclaration H filePath r = Some target
    /\ ((forall seen decl rest,
           declarations r = seen ++ decl :: rest ->
           ~ stopsAfter H (nodeAtOffset r) first seen decl) ->
        targetDecl target = fold_left (advance H) (declarations r) first)
    /\ (forall seen decl rest,
          declarations r = seen ++ decl :: rest ->
          (forall seen' d rest',
             seen = seen' ++ d :: rest' ->
             ~ stopsAfter H (nodeAtOffset r) first seen' d) ->
          stopsAfter H (nodeAtOffset r) first seen decl ->
          targetDecl target = decl).
Proof.
  intros Hd. unfold _getTargetDeclaration. rewrite Hd.
  set (picked := pickTarget H (nodeAtOffset r) first (first :: others)).
  exists (if isAlias picked
          then mkTarget picked filePath (valueOfNode (nodeAtOffset r))
          else mkTarget picked (Declaration.path picked)
                 (jsOr (getNameFromDeclaration H picked) (hd_error (symbolNames r)))).
  split; [destruct (isAlias picked); reflexivity|].
  assert (Ht : targetDecl
                 (if isAlias picked
                  then mkTarget picked filePath (valueOfNode (nodeAtOffset r))
                  else mkTarget picked (Declaration.path picked)
                         (jsOr (getNameFromDeclaration H picked)
                               (hd_error (symbolNames r)))) = picked)
    by (destruct (isAlias picked); reflexivity).
  rewrite Ht. subst picked. split.
  - intros Hno. apply pickTarget_runs_through. exact Hno.
  - intros seen decl rest E Hno Hstop. rewrite E.
    apply pickTarget_stops; assumption.
Qed.

Lemma anchor_selection_scan_witness :
  declarations Examples.redefinedRefs
    = Examples.gDecl 10 0 :: [Examples.gDecl 20 3; Examples.gDecl 30 6]
  /\ option_map targetDecl
       (_getTargetDeclaration Examples.anchorHost "/src/g.py" Examples.redefinedRefs)
     = Some (Examples.gDecl 20 3).
Proof.
  split; [reflexivity|].
  destruct (@anchor_selection_scan Examples.anchorHost "/src/g.py"
              Examples.redefinedRefs _ _ eq_refl) as (target & Ht & _ & Hstop).
  rewrite Ht. simpl. f_equal.
  apply (Hstop [Examples.gDecl 10 0] (Examples.gDecl 20 3) [Examples.gDecl 30 6] eq_refl).
  - intros seen' d rest' E [_ Hs].
    destruct seen' as [|x [|y seen']]; simpl in E; inversion E; subst.
    discriminate Hs.
  - split; reflexivity.
Defined.

(** C1 (as stated) fails: with [def f] then [f = 3] and the cursor on the
    rebound name, the variable declaration's node is the node under the
    cursor, yet the scan keeps the function declaration. *)
Lemma exact_match_does_not_always_win :
  sameNode (Declaration.node Examples.fVariableDecl)
           (nodeAtOffset Examples.reboundRefs) = true
  /\ option_map targetDecl
       (_getTargetDeclaration Examples.anchorHost "/src/a.py" Examples.reboundRefs)
     = Some Examples.fFunctionDecl
  /\ ~ exactMatchAlwaysWins Examples.anchorHost "/src/a.py" Examples.reboundRefs.
Proof.
  split; [reflexivity|]. split; [reflexivity|].
  intros Hclaim.
  specialize (Hclaim [Examples.fFunctionDecl] Examples.fVariableDecl [] eq_refl).
  assert (E : option_map targetDecl
                (_getTargetDeclaration Examples.anchorHost "/src/a.py" Examples.reboundRefs)
              = Some Examples.fVariableDecl).
  { apply Hclaim; [|reflexivity].
    intros d [<-|[]]. reflexivity. }
  discriminate E.
Qed.

(** ** The shared prologue of the three operations *)

Section Prologue.

Context (H : Host) (filePath : string) (position : Position.t).

Lemma getTargetDeclaration_some (r : ReferencesResult) :
  declarations r <> [] ->
  exists target, _getTargetDeclaration H filePath r = Some target.
Proof.
  unfold _getTargetDeclaration. destruct (declarations r) as [|d ds]; [congruence|].
  intros _. destruct (isAlias _); eexists; reflexivity.
Qed.

Lemma length_zero_iff {A} (l : list A) : Nat.eqb (List.length l) 0 = true <-> l = [].
Proof. destruct l; simpl; split; congruence. Qed.

(** Every way [withTarget] can end. *)
Lemma withTarget_cases {A} (k : ParseResults -> TargetDeclaration -> M (option A))
    (tok : CancellationToken) (s : ProgState) :
  (tok (checks s) = true /\ withTarget H filePath position k tok s = Cancelled)
  \/ (tok (checks s) = false
      /\ (_parseResults H filePath = None
          \/ _getDeclaration H filePath position = None
          \/ exists r, _getDeclaration H filePath position = Some r /\ declarations r = [])
      /\ withTarget H filePath position k tok s = Ret None (tick s))
  \/ (tok (checks s) = false
      /\ exists parseResults r target,
           _parseResults H filePath = Some parseResults
           /\ _getDeclaration H filePath position = Some r
           /\ declarations r <> []
           /\ _getTargetDeclaration H filePath r = Some target
           /\ withTarget H filePath position k tok s = k parseResults target tok (tick s)).
Proof.
  unfold withTarget, bind, throwIfCancellationRequested.
  destruct (tok (checks s)) eqn:Htok; [left; auto|right].
  destruct (_parseResults H filePath) as [pr|] eqn:Hpr; [|left; auto].
  destruct (_getDeclaration H filePath position) as [r|] eqn:Hr; [|left; auto].
  destruct (Nat.eqb (List.length (declarations r)) 0) eqn:Hlen.
  - left. apply length_zero_iff in Hlen. repeat split; eauto.
  - right. split; [reflexivity|].
    assert (Hne : declarations r <> []).
    { intros E. apply length_zero_iff in E. congruence. }
    destruct (getTargetDeclaration_some r Hne) as [target Ht].
    exists pr, r, target. rewrite Ht. auto.
Qed.

End Prologue.

(** ** What [onPrepare] answers (C10) *)

(** C10.  Whenever [onPrepare] returns a non-null result, the result is a
    list of exactly one call-hierarchy item, the item of the anchored target:
    its name is the symbol name, its range the target declaration's range and
    its locator the converted origin path. *)
Theorem onPrepare_returns_one_item (H : Host) (filePath : string) (position : Position.t)
    (tok : CancellationToken) (s s' : ProgState) (items : list CallHierarchyItem.t) :
  onPrepare H filePath position tok s = Ret (Some items) s' ->
  exists r target,
    _getDeclaration H filePath position = Some r
    /\ _getTargetDeclaration H filePath r = Some target
    /\ items = [CallHierarchyItem.mk (symbolName target)
                  (symbolKindOr H (targetDecl target) (symbolName target))
                  (convertPathToUri H (callItemUri target))
                  (Declaration.range (targetDecl target))
                  (Declaration.range (targetDecl target))].
Proof.
  unfold onPrepare. intros Hrun.
  match type of Hrun with
  | withTarget _ _ _ ?k _ _ = _ =>
      destruct (withTarget_cases H filePath position k tok s)
        as [[_ E]|[(_ & _ & E)|(_ & pr & r & target & _ & Hr & _ & Ht & E)]]
  end; rewrite E in Hrun; try discriminate.
  exists r, target. split; [exact Hr|]. split; [exact Ht|].
  cbv zeta in Hrun. unfold ret in Hrun.
  destruct (negb (eligibleKind (targetDecl target))); [discriminate|].
  destruct (negb _); [discriminate|].
  destruct (negb _); [discriminate|].
  inversion Hrun. reflexivity.
Qed.

Lemma onPrepare_returns_one_item_witness :
  onPrepare (Examples.appHost "/src/app.py" Examples.everywhere) "/src/app.py"
    (Examples.pos 0 60) neverCancelled initialState
  = Ret (Some [CallHierarchyItem.mk (Some "main") SymbolKind.Function
                 "file:///src/app.py" (Examples.span 0 60 64) (Examples.span 0 60 64)])
        (tick initialState)
  /\ exists r target,
       _getDeclaration (Examples.appHost "/src/app.py" Examples.everywhere)
         "/src/app.py" (Examples.pos 0 60) = Some r
       /\ targetDecl target = Examples.mainDecl.
Proof.
  assert (E : onPrepare (Examples.appHost "/src/app.py" Examples.everywhere) "/src/app.py"
                (Examples.pos 0 60) neverCancelled initialState
              = Ret (Some [CallHierarchyItem.mk (Some "main") SymbolKind.Function
                             "file:///src/app.py" (Examples.span 0 60 64)
                             (Examples.span 0 60 64)])
                    (tick initialState)) by reflexivity.
  split; [exact E|].
  destruct (onPrepare_returns_one_item _ _ _ _ _ E) as (r & target & Hr & Ht & _).
  exists r, target. split; [exact Hr|].
  vm_compute in Hr. inversion Hr; subst r. vm_compute in Ht. inversion Ht. reflexivity.
Defined.

(** ** No-result conditions (C7) *)

Section NoResult.

Context (H : Host) (filePath : string) (position : Position.t).

Lemma withTarget_run {A} (k : ParseResults -> TargetDeclaration -> M (option A))
    (tok : CancellationToken) (s : ProgState) parseResults r target :
  tok (checks s) = false ->
  _parseResults H filePath = Some parseResults ->
  _getDeclaration H filePath position = Some r ->
  _getTargetDeclaration H filePath r = Some target ->
  withTarget H filePath position k tok s = k parseResults target tok (tick s).
Proof.
  intros Htok Hpr Hr Ht.
  unfold withTarget, bind, throwIfCancellationRequested.
  rewrite Htok, Hpr, Hr, Ht.
  destruct (declarations r) eqn:Hd; [|reflexivity].
  unfold _getTargetDeclaration in Ht. rewrite Hd in Ht. discriminate.
Qed.

Lemma withTarget_no_parse_results {A}
    (k : ParseResults -> TargetDeclaration -> M (option A)) tok s :
  tok (checks s) = false ->
  _parseResults H filePath = None ->
  withTarget H filePath position k tok s = Ret None (tick s).
Proof.
  intros Htok Hpr. unfold withTarget, bind, throwIfCancellationRequested.
  rewrite Htok, Hpr. reflexivity.
Qed.

Lemma withTarget_no_declaration {A}
    (k : ParseResults -> TargetDeclaration -> M (option A)) tok s :
  tok (checks s) = false ->
  (_getDeclaration H filePath position = None
   \/ exists r, _getDeclaration H filePath position = Some r /\ declarations r = []) ->
  withTarget H filePath position k tok s = Ret None (tick s).
Proof.
  intros Htok Hno. unfold withTarget, bind, throwIfCancellationRequested.
  rewrite Htok. destruct (_parseResults H filePath); [|reflexivity].
  destruct Hno as [->|(r & -> & ->)]; reflexivity.
Qed.

End NoResult.

(** C7 (as amended).  Once the entry check has passed, each no-result
    condition makes the operation that tests it return null, and nothing is
    raised: a missing parse tree of the querying file and no declaration at
    the cursor, for the three operations; a target that is not a function, a
    class or an alias, an alias that does not resolve to a function or a
    class, and a target file that is not navigable, for [onPrepare]; a target
    whose resolution fails or is neither a function nor a class, and an empty
    set of call records, for [getOutgoingCalls]; an empty set of call records
    for [getIncomingCalls], which applies no eligibility gate of its own. *)
Theorem no_result_conditions (H : Host) (filePath : string) (position : Position.t)
    (tok : CancellationToken) (s : ProgState) :
  tok (checks s) = false ->
  ((_parseResults H filePath = None
    \/ _getDeclaration H filePath position = None
    \/ (exists r, _getDeclaration H filePath position = Some r /\ declarations r = [])) ->
   onPrepare H filePath position tok s = Ret None (tick s)
   /\ getIncomingCalls H filePath position tok s = Ret None (tick s)
   /\ getOutgoingCalls H filePath position tok s = Ret None (tick s))
  /\ (forall parseResults r target,
        _parseResults H filePath = Some parseResults ->
        _getDeclaration H filePath position = Some r ->
        _getTargetDeclaration H filePath r = Some target ->
        (eligibleKind (targetDecl target) = false ->
         onPrepare H filePath position tok s = Ret None (tick s))
        /\ (isAlias (targetDecl target) = true ->
            resolveAliasDeclaration H (targetDecl target) true = None ->
            onPrepare H filePath position tok s = Ret None (tick s))
        /\ (forall resolvedDecl,
              isAlias (targetDecl target) = true ->
              resolveAliasDeclaration H (targetDecl target) true = Some resolvedDecl ->
              isFunctionOrClass resolvedDecl = false ->
              onPrepare H filePath position tok s = Ret None (tick s))
        /\ (canNavigateToFile H (callItemUri target) = false ->
            onPrepare H filePath position tok s = Ret None (tick s))
        /\ (resolveAliasDeclaration H (targetDecl target) true = None ->
            getOutgoingCalls H filePath position tok s = Ret None (tick s))
        /\ (forall resolvedDecl,
              resolveAliasDeclaration H (targetDecl target) true = Some resolvedDecl ->
              isFunctionOrClass resolvedDecl = false ->
              getOutgoingCalls H filePath position tok s = Ret None (tick s))
        /\ (forall resolvedDecl parseRoot s',
              resolveAliasDeclaration H (targetDecl target) true = Some resolvedDecl ->
              outgoingParseRoot H resolvedDecl = Some parseRoot ->
              findOutgoingCalls H parseRoot parseResults tok (tick s) = Ret [] s' ->
              getOutgoingCalls H filePath position tok s = Ret None s')
        /\ (forall s',
              forEachM (scanSourceFile H (symbolName target) (targetDecl target))
                (incomingSourceFiles H filePath (targetDecl target)) [] tok (tick s)
              = Ret [] s' ->
              getIncomingCalls H filePath position tok s = Ret None s')).
Proof.
  intros Htok. split.
  - intros Hcond. unfold onPrepare, getIncomingCalls, getOutgoingCalls.
    destruct Hcond as [Hpr|Hno].
    + rewrite !withTarget_no_parse_results by assumption. auto.
    + rewrite !withTarget_no_declaration by assumption. auto.
  - intros pr r target Hpr Hr Ht.
    unfold onPrepare, getIncomingCalls, getOutgoingCalls.
    rewrite !(withTarget_run H filePath position _ tok s Htok Hpr Hr Ht).
    cbv zeta. unfold bind, ret.
    repeat split.
    + intros ->. reflexivity.
    + intros Ha Hres. rewrite Ha, Hres.
      destruct (negb (eligibleKind (targetDecl target))); reflexivity.
    + intros rd Ha Hres Hk. rewrite Ha, Hres, Hk.
      destruct (negb (eligibleKind (targetDecl target))); reflexivity.
    + intros Hnav. simpl. rewrite Hnav.
      destruct (negb (eligibleKind (targetDecl target))); [reflexivity|].
      destruct (negb _); reflexivity.
    + intros ->. reflexivity.
    + intros rd -> Hk. unfold outgoingParseRoot.
      unfold isFunctionOrClass in Hk.
      destruct (Declaration.type rd); try discriminate; reflexivity.
    + intros rd root s' -> -> ->. reflexivity.
    + intros s' ->. reflexivity.
Qed.

Lemma no_result_conditions_witness :
  onPrepare (Examples.appHost "/src/app.py" Examples.everywhere) "/src/app.py"
    (Examples.pos 0 50) neverCancelled initialState = Ret None (tick initialState)
  /\ onPrepare (Examples.appHost "/src/app.py" Examples.everywhere) "/elsewhere.py"
       (Examples.pos 0 50) neverCancelled initialState = Ret None (tick initialState).
Proof.
  pose proof (@no_result_conditions (Examples.appHost "/src/app.py" Examples.everywhere)
                "/src/app.py" (Examples.pos 0 50) neverCancelled initialState eq_refl)
    as [_ Hgate].
  pose proof (@no_result_conditions (Examples.appHost "/src/app.py" Examples.everywhere)
                "/elsewhere.py" (Examples.pos 0 50) neverCancelled initialState eq_refl)
    as [Hmissing _].
  split.
  - destruct (Hgate Examples.appResults
                (mkReferencesResult (NameN Examples.cbName) ["cb"] [Examples.cbDecl])
                (mkTarget Examples.cbDecl "/src/app.py" (Some "cb"))
                eq_refl eq_refl eq_refl) as [Hkind _].
    apply Hkind. reflexivity.
  - apply Hmissing. left. reflexivity.
Defined.

(** C7 (as stated) fails: with the cursor on the variable [cb], whose kind is
    not eligible, [onPrepare] answers null but [getIncomingCalls] scans all
    the same and answers the caller [main]. *)
Lemma incoming_calls_ignore_the_eligibility_gate :
  eligibleKind Examples.cbDecl = false
  /\ getIncomingCalls (Examples.appHost "/src/app.py" Examples.everywhere) "/src/app.py"
       (Examples.pos 0 50) neverCancelled initialState
     = Ret (Some [CallHierarchyIncomingCall.mk
                    (CallHierarchyItem.mk (Some "main") SymbolKind.Function
                       "file:///src/app.py" (Examples.span 0 60 64) (Examples.span 0 60 64))
                    [Examples.span 0 90 92]])
           (mkState 5 ["/src/app.py"] 1)
  /\ ~ ineligibleKindYieldsNull (Examples.appHost "/src/app.py" Examples.everywhere)
         "/src/app.py" (Examples.pos 0 50).
Proof.
  split; [reflexivity|]. split; [reflexivity|].
  intros Hclaim.
  destruct (Hclaim (mkReferencesResult (NameN Examples.cbName) ["cb"] [Examples.cbDecl])
              (mkTarget Examples.cbDecl "/src/app.py" (Some "cb"))
              eq_refl eq_refl eq_refl) as (_ & [s' E] & _).
  discriminate E.
Qed.

(** ** Results after the navigability filter (C8) *)

(** C8 fails on the code.  [main] calls [real], which is declared in a file
    the client cannot navigate to: the walker returns one record, the
    emptiness test passes, the filter then drops the record, and
    [getOutgoingCalls] returns the empty list instead of null.  The same
    happens to [getIncomingCalls] when the only caller's file is not
    navigable. *)
Lemma filtered_results_are_empty_lists :
  getOutgoingCalls (Examples.appHost "/zip/site.zip/real.py" Examples.outsideArchives)
    "/src/app.py" (Examples.pos 0 60) neverCancelled initialState
  = Ret (Some []) (mkState 4 [] 0)
  /\ getIncomingCalls (Examples.appHost "/src/app.py" (fun _ => false))
       "/src/app.py" (Examples.pos 0 4) neverCancelled initialState
     = Ret (Some []) (mkState 5 ["/src/app.py"] 1).
Proof. split; reflexivity. Qed.

(** ** The walk root of a class target (C2) *)

Lemma lookUpClassMember_own_only (c : ClassTypeInfo) (name : string) :
  lookupField name (fields (details c)) = None ->
  lookUpClassMember c name initLookupFlags = None.
Proof.
  intros Hown. unfold lookUpClassMember, initLookupFlags, memberOfClass. simpl.
  rewrite Hown. destruct (isBuiltInObject (details c)); reflexivity.
Qed.

Lemma lookUpClassMember_own_symbol (c : ClassTypeInfo) (name : string) (m : ClassMember) :
  lookUpClassMember c name initLookupFlags = Some m ->
  lookupField name (fields (details c)) = Some (symbol m).
Proof.
  unfold lookUpClassMember, initLookupFlags, memberOfClass. simpl.
  destruct (isBuiltInObject (details c)); [discriminate|].
  destruct (lookupField name (fields (details c))) as [sym|]; [|discriminate].
  destruct (isInstanceMember sym && true); [discriminate|].
  intros E; inversion E; reflexivity.
Qed.

Lemma initMethodRoot_own (H : Host) (resolvedDecl : Declaration.t)
    (classType : ClassTypeInfo) (root : ParseNode) :
  getTypeForDeclaration H resolvedDecl = Some (ClassT classType) ->
  initMethodRoot H resolvedDecl = Some root ->
  exists sym primaryInitDecl others,
    lookupField "__init__" (fields (details classType)) = Some sym
    /\ getDeclarations sym = primaryInitDecl :: others
    /\ Declaration.type primaryInitDecl = DeclarationType.Function
    /\ root = Declaration.node primaryInitDecl.
Proof.
  intros Hty. unfold initMethodRoot. rewrite Hty.
  destruct (instantiable classType); [|discriminate].
  destruct (lookUpClassMember classType "__init__" initLookupFlags) as [m|] eqn:Hm;
    [|discriminate].
  apply lookUpClassMember_own_symbol in Hm.
  destruct (getTypeOfMember H m) as [t|]; [|discriminate].
  destruct (isFunction t); [|discriminate].
  destruct (getDeclarations (symbol m)) as [|d ds] eqn:Hd; [discriminate|].
  destruct (Declaration.type d) eqn:Hk; try discriminate.
  intros E; inversion E; subst.
  exists (symbol m), d, ds. auto.
Qed.

Lemma lookUpClassMember_own_found (c : ClassTypeInfo) (name : string) (sym : Symbol) :
  isBuiltInObject (details c) = false ->
  isInstanceMember sym = false ->
  lookupField name (fields (details c)) = Some sym ->
  lookUpClassMember c name initLookupFlags
  = Some (mkClassMember sym (className (details c))).
Proof.
  intros Hobject Hinstance Hown.
  unfold lookUpClassMember, initLookupFlags, memberOfClass. simpl.
  rewrite Hobject, Hown, Hinstance. reflexivity.
Qed.

Lemma initMethodRoot_of_own_init (H : Host) (resolvedDecl : Declaration.t)
    (classType : ClassTypeInfo) (sym : Symbol) (initMethodType : PyType)
    (primaryInitDecl : Declaration.t) (others : list Declaration.t) :
  getTypeForDeclaration H resolvedDecl = Some (ClassT classType) ->
  instantiable classType = true ->
  isBuiltInObject (details classType) = false ->
  lookupField "__init__" (fields (details classType)) = Some sym ->
  isInstanceMember sym = false ->
  getTypeOfMember H (mkClassMember sym (className (details classType)))
  = Some initMethodType ->
  isFunction initMethodType = true ->
  getDeclarations sym = primaryInitDecl :: others ->
  Declaration.type primaryInitDecl = DeclarationType.Function ->
  initMethodRoot H resolvedDecl = Some (Declaration.node primaryInitDecl).
Proof.
  intros Hty Hinst Hobject Hown Hinstance Hmember Hfun Hdecls Hkind.
  unfold initMethodRoot. rewrite Hty, Hinst.
  rewrite (lookUpClassMember_own_found classType "__init__" Hobject Hinstance Hown).
  rewrite Hmember, Hfun. simpl. rewrite Hdecls, Hkind. reflexivity.
Qed.

(** C2.  When the resolved target of the query is a class, [getOutgoingCalls]
    walks the body of the [__init__] the class declares itself, and nothing
    else: if the class's own symbol table has no [__init__], the answer is
    null whatever the base classes of its method resolution order declare;
    every non-null answer comes from walking the first declaration of the
    class's own [__init__]; and when the class, instantiable and not the
    built-in [object], has an [__init__] of its own that is a method (not
    an instance variable) of function type whose first declaration is a
    function, the query is the walk of the node of that declaration: it is
    cancelled when the walk is, and answers what the walk found. *)
Theorem class_target_walks_own_init (H : Host) (filePath : string) (position : Position.t)
    (tok : CancellationToken) (s : ProgState)
    (parseResults : ParseResults) (r : ReferencesResult) (target : TargetDeclaration)
    (resolvedDecl : Declaration.t) (classType : ClassTypeInfo) :
  tok (checks s) = false ->
  _parseResults H filePath = Some parseResults ->
  _getDeclaration H filePath position = Some r ->
  _getTargetDeclaration H filePath r = Some target ->
  resolveAliasDeclaration H (targetDecl target) true = Some resolvedDecl ->
  Declaration.type resolvedDecl = DeclarationType.Class ->
  getTypeForDeclaration H resolvedDecl = Some (ClassT classType) ->
  (lookupField "__init__" (fields (details classType)) = None ->
   getOutgoingCalls H filePath position tok s = Ret None (tick s))
  /\ (forall items s',
        getOutgoingCalls H filePath position tok s = Ret (Some items) s' ->
        exists sym primaryInitDecl others calls,
          lookupField "__init__" (fields (details classType)) = Some sym
          /\ getDeclarations sym = primaryInitDecl :: others
          /\ findOutgoingCalls H (Declaration.node primaryInitDecl) parseResults
               tok (tick s) = Ret calls s'
          /\ items = map (outgoingToUri H)
                       (filter (fun item =>
                                  canNavigateToFile H
                                    (CallHierarchyItem.uri (CallHierarchyOutgoingCall.to item)))
                          calls))
  /\ (forall sym initMethodType primaryInitDecl others,
        instantiable classType = true ->
        isBuiltInObject (details classType) = false ->
        lookupField "__init__" (fields (details classType)) = Some sym ->
        isInstanceMember sym = false ->
        getTypeOfMember H (mkClassMember sym (className (details classType)))
        = Some initMethodType ->
        isFunction initMethodType = true ->
        getDeclarations sym = primaryInitDecl :: others ->
        Declaration.type primaryInitDecl = DeclarationType.Function ->
        getOutgoingCalls H filePath position tok s
        = (calls <- findOutgoingCalls H (Declaration.node primaryInitDecl) parseResults ;;
           ret (outgoingAnswer H calls)) tok (tick s)).
Proof.
  intros Htok Hpr Hr Ht Hres Hk Hty.
  unfold getOutgoingCalls.
  rewrite (withTarget_run H filePath position _ tok s Htok Hpr Hr Ht).
  rewrite Hres. unfold outgoingParseRoot. rewrite Hk. split; [|split].
  - intros Hown. unfold initMethodRoot. rewrite Hty.
    rewrite (lookUpClassMember_own_only classType "__init__" Hown).
    destruct (instantiable classType); reflexivity.
  - intros items s'.
    destruct (initMethodRoot H resolvedDecl) as [root|] eqn:Hroot;
      [|unfold ret; discriminate].
    destruct (initMethodRoot_own H resolvedDecl Hty Hroot)
      as (sym & d & ds & Hsym & Hd & _ & ->).
    unfold bind.
    destruct (findOutgoingCalls H (Declaration.node d) parseResults tok (tick s))
      as [calls s1| |] eqn:Hwalk; try discriminate.
    destruct (Nat.eqb (List.length calls) 0); unfold ret; [discriminate|].
    intros E; inversion E; subst.
    exists sym, d, ds, calls. auto.
  - intros sym initMethodType primaryInitDecl others
      Hinst Hobject Hown Hinstance Hmember Hfun Hdecls Hkind.
    rewrite (initMethodRoot_of_own_init H resolvedDecl Hty Hinst Hobject Hown
               Hinstance Hmember Hfun Hdecls Hkind).
    unfold bind.
    destruct (findOutgoingCalls H (Declaration.node primaryInitDecl) parseResults
                tok (tick s)) as [calls s1| |]; try reflexivity.
    destruct calls; reflexivity.
Qed.

Lemma class_target_walks_own_init_witness :
  (lookUpClassMember (Examples.derivedType false) "__init__" DefaultLookup
     = Some (mkClassMember (mkSymbol false [Examples.baseInitDecl]) "Base")
   /\ getOutgoingCalls (Examples.shapesHost false) "/src/shapes.py" (Examples.pos 0 106)
        neverCancelled initialState = Ret None (tick initialState))
  /\ getOutgoingCalls (Examples.shapesHost true) "/src/shapes.py" (Examples.pos 0 106)
       neverCancelled initialState
     = (calls <- findOutgoingCalls (Examples.shapesHost true) Examples.ownInitNode
                   (mkParseResults (Examples.moduleNode 2 [Examples.derivedNode true]) [0]) ;;
        ret (outgoingAnswer (Examples.shapesHost true) calls))
         neverCancelled (tick initialState).
Proof.
  split; [split; [reflexivity|]|].
  - apply (@class_target_walks_own_init (Examples.shapesHost false) "/src/shapes.py"
             (Examples.pos 0 106) neverCancelled initialState
             (mkParseResults (Examples.moduleNode 2 [Examples.derivedNode false]) [0])
             (mkReferencesResult (NameN Examples.derivedName) ["Derived"]
                [Examples.derivedDecl false])
             (mkTarget (Examples.derivedDecl false) "/src/shapes.py" (Some "Derived"))
             (Examples.derivedDecl false) (Examples.derivedType false));
      reflexivity.
  - destruct (@class_target_walks_own_init (Examples.shapesHost true) "/src/shapes.py"
                (Examples.pos 0 106) neverCancelled initialState
                (mkParseResults (Examples.moduleNode 2 [Examples.derivedNode true]) [0])
                (mkReferencesResult (NameN Examples.derivedName) ["Derived"]
                   [Examples.derivedDecl true])
                (mkTarget (Examples.derivedDecl true) "/src/shapes.py" (Some "Derived"))
                (Examples.derivedDecl true) (Examples.derivedType true)
                eq_refl eq_refl eq_refl eq_refl eq_refl eq_refl eq_refl)
      as (_ & _ & Hown).
    exact (Hown (mkSymbol false [Examples.ownInitDecl]) FunctionT Examples.ownInitDecl []
             eq_refl eq_refl eq_refl eq_refl eq_refl eq_refl eq_refl eq_refl).
Defined.

(** With an [__init__] of its own the same class is walked through that
    method, and the inherited one stays out of the answer. *)
Example own_init_is_walked :
  getOutgoingCalls (Examples.shapesHost true) "/src/shapes.py" (Examples.pos 0 106)
    neverCancelled initialState
  = Ret (Some [CallHierarchyOutgoingCall.mk
                 (CallHierarchyItem.mk (Some "real") SymbolKind.Function
                    "file:///src/app.py" (Examples.span 0 4 8) (Examples.span 0 4 8))
                 [Examples.span 0 130 134]])
        (mkState 2 [] 0).
Proof. reflexivity. Qed.

(** ** The walk, visit by visit

    Both walkers visit in the same way: a read of the token, then a change of
    the record list that reads nothing of the state.  The walk of a tree is
    therefore the fold of those changes over the visits of the tree in
    pre-order, unless a read of the token sees it triggered. *)

(** Induction over parse nodes, with the hypothesis for every child. *)
Lemma ParseNode_induction (P : ParseNode -> Prop) :
  (forall n, P (NameN n)) ->
  (forall id l m, P l -> P (MemberAccessN id l m)) ->
  (forall id l args, P l -> Forall P args -> P (CallN id l args)) ->
  (forall id t cs, Forall P cs -> P (OtherN id t cs)) ->
  forall n, P n.
Proof.
  intros HName HMember HCall HOther.
  fix IH 1. intros [nn|id l m|id l args|id t cs].
  - apply HName.
  - apply HMember. apply IH.
  - apply HCall; [apply IH|].
    revert args. fix IHargs 1. intros [|c rest]; constructor; [apply IH|apply IHargs].
  - apply HOther.
    revert cs. fix IHcs 1. intros [|c rest]; constructor; [apply IH|apply IHcs].
Qed.

Lemma ticks_zero s : ticks 0 s = s.
Proof. destruct s; unfold ticks; simpl. rewrite Nat.add_0_r. reflexivity. Qed.

Lemma ticks_ticks a b s : ticks b (ticks a s) = ticks (a + b) s.
Proof. unfold ticks; simpl. rewrite Nat.add_assoc. reflexivity. Qed.

Lemma tick_ticks s : tick s = ticks 1 s.
Proof. unfold tick, ticks. rewrite Nat.add_1_r. reflexivity. Qed.

Lemma cancelledWithin_app tok start n m :
  cancelledWithin tok start (n + m)
  = cancelledWithin tok start n || cancelledWithin tok (start + n) m.
Proof. unfold cancelledWithin. rewrite seq_app, existsb_app. reflexivity. Qed.

Lemma cancelledWithin_one tok start : cancelledWithin tok start 1 = tok start.
Proof. unfold cancelledWithin; simpl. apply orb_false_r. Qed.

Lemma cancelledWithin_never start n : cancelledWithin neverCancelled start n = false.
Proof.
  unfold cancelledWithin. revert start.
  induction n as [|n IH]; intros start; simpl; auto.
Qed.

Lemma cancelledWithin_true tok start n :
  cancelledWithin tok start n = true <-> exists k, start <= k < start + n /\ tok k = true.
Proof.
  unfold cancelledWithin. rewrite existsb_exists. split.
  - intros (k & Hin & Hk). apply in_seq in Hin. eauto.
  - intros (k & Hin & Hk). exists k. split; [apply in_seq|]; assumption.
Qed.

Lemma readsThenReturns_ret {A} (a : A) : readsThenReturns (ret a) 0 a.
Proof. intros tok s. unfold ret. simpl. rewrite ticks_zero. reflexivity. Qed.

Lemma readsThenReturns_check : readsThenReturns throwIfCancellationRequested 1 tt.
Proof.
  intros tok s. unfold throwIfCancellationRequested.
  rewrite cancelledWithin_one, tick_ticks. reflexivity.
Qed.

Lemma readsThenReturns_bind {A B} (m : M A) (f : A -> M B) n1 n2 a b :
  readsThenReturns m n1 a ->
  readsThenReturns (f a) n2 b ->
  readsThenReturns (bind m f) (n1 + n2) b.
Proof.
  intros Hm Hf tok s. unfold bind. rewrite Hm, cancelledWithin_app.
  destruct (cancelledWithin tok (checks s) n1); [reflexivity|].
  rewrite Hf. simpl. rewrite ticks_ticks. reflexivity.
Qed.

Section WalkClosedForm.

Context {S : Type} (V : Visitor S) (E : Effects S) (HV : checkedVisitor V E).

Lemma forEach_walk_closed_form (ns : list ParseNode) :
  Forall (walkOutcome V E) ns ->
  forall acc,
    readsThenReturns (forEachM (walk V) ns acc)
      (List.length (flat_map visitsOf ns))
      (fold_left (applyVisit E) (flat_map visitsOf ns) acc).
Proof.
  induction 1 as [|c rest Hc _ IH]; intros acc.
  - apply readsThenReturns_ret.
  - simpl. rewrite length_app, fold_left_app.
    eapply readsThenReturns_bind; [apply Hc|apply IH].
Qed.

Lemma visitCall_closed_form l acc :
  readsThenReturns (visitCall V l acc) 1 (onCall E l acc).
Proof.
  intros tok s. destruct HV as [HCallV _]. rewrite HCallV.
  apply readsThenReturns_bind with (n1 := 1) (n2 := 0) (a := tt);
    [apply readsThenReturns_check|apply readsThenReturns_ret].
Qed.

Lemma visitMemberAccess_closed_form l m acc :
  readsThenReturns (visitMemberAccess V l m acc) 1 (onMemberAccess E l m acc).
Proof.
  intros tok s. destruct HV as [_ HMemberV]. rewrite HMemberV.
  apply readsThenReturns_bind with (n1 := 1) (n2 := 0) (a := tt);
    [apply readsThenReturns_check|apply readsThenReturns_ret].
Qed.

Lemma walk_closed_form (n : ParseNode) : walkOutcome V E n.
Proof.
  induction n as [nn|id l m IHl|id l args IHl IHargs|id t cs IHcs]
    using ParseNode_induction; intros acc.
  - apply readsThenReturns_ret.
  - simpl walk.
    apply readsThenReturns_bind
      with (n1 := 1) (n2 := List.length (visitsOf l)) (a := onMemberAccess E l m acc);
      [apply visitMemberAccess_closed_form|apply IHl].
  - simpl walk. simpl visitsOf. simpl fold_left. rewrite fold_left_app.
    apply readsThenReturns_bind
      with (n1 := 1) (n2 := List.length (visitsOf l ++ flat_map visitsOf args))
           (a := onCall E l acc);
      [apply visitCall_closed_form|].
    rewrite length_app.
    eapply readsThenReturns_bind; [apply IHl|].
    apply forEach_walk_closed_form. exact IHargs.
  - simpl walk. apply forEach_walk_closed_form. exact IHcs.
Qed.

End WalkClosedForm.

(** ** Call-record aggregation

    Both walkers keep their records in an array and fold every call site
    into it in the same way: look the site's key up, push a fresh record
    when there is none, then change the record of that key in place. *)

Lemma keyEqb_eq (a b : Key) : keyEqb a b = true <-> a = b.
Proof.
  destruct a as [u r], b as [u' r']; unfold keyEqb; simpl.
  rewrite andb_true_iff, String.eqb_eq, rangesAreEqual_eq. split.
  - intros [-> ->]; reflexivity.
  - intros E; inversion E; auto.
Qed.

Lemma keyEqb_refl (a : Key) : keyEqb a a = true.
Proof. apply keyEqb_eq; reflexivity. Qed.

Lemma keyEqb_neq (a b : Key) : a <> b -> keyEqb a b = false.
Proof.
  intros Hne. destruct (keyEqb a b) eqn:E; [|reflexivity].
  apply keyEqb_eq in E. contradiction.
Qed.

Section Aggregation.

Context {R Site : Type}.
Context (item : R -> CallHierarchyItem.t) (ranges : R -> list Range.t).
Context (siteKey : Site -> Key) (siteRange : Site -> Range.t).
Context (fresh : Site -> R) (touch : Site -> R -> R).

Hypothesis fresh_key : forall site, keyOf item (fresh site) = siteKey site.
Hypothesis touch_key : forall site r, keyOf item (touch site r) = keyOf item r.
Hypothesis fresh_ranges : forall site, ranges (fresh site) = [].
Hypothesis touch_ranges :
  forall site r, ranges (touch site r) = ranges r ++ [siteRange site].

Lemma mutateFirst_keys (p : R -> bool) site (l : list R) :
  map (keyOf item) (mutateFirst p (touch site) l) = map (keyOf item) l.
Proof.
  induction l as [|x rest IH]; [reflexivity|]. simpl.
  destruct (p x); simpl; [rewrite touch_key|rewrite IH]; reflexivity.
Qed.

Lemma find_hasKey_none k (l : list R) :
  List.find (hasKey item k) l = None <-> ~ In k (map (keyOf item) l).
Proof.
  induction l as [|x rest IH]; simpl; [tauto|].
  unfold hasKey at 1. destruct (keyEqb (keyOf item x) k) eqn:E.
  - apply keyEqb_eq in E. split; [discriminate|]. intros Hn. exfalso. auto.
  - rewrite IH. split.
    + intros Hn [Hx|Hin]; [|auto]. subst k. rewrite keyEqb_refl in E. discriminate.
    + tauto.
Qed.

Lemma recordSite_keys (l : list R) site :
  map (keyOf item) (recordSite item siteKey fresh touch l site)
  = match List.find (hasKey item (siteKey site)) l with
    | Some _ => map (keyOf item) l
    | None => map (keyOf item) l ++ [siteKey site]
    end.
Proof.
  unfold recordSite, upsert. rewrite mutateFirst_keys.
  destruct (List.find (hasKey item (siteKey site)) l); [reflexivity|].
  rewrite map_app. simpl. rewrite fresh_key. reflexivity.
Qed.

Lemma recordSite_NoDup (l : list R) site :
  NoDup (map (keyOf item) l) ->
  NoDup (map (keyOf item) (recordSite item siteKey fresh touch l site)).
Proof.
  intros Hnd. rewrite recordSite_keys.
  destruct (List.find (hasKey item (siteKey site)) l) eqn:Hfind; [exact Hnd|].
  apply find_hasKey_none in Hfind.
  apply NoDup_app; [exact Hnd|repeat constructor; simpl; tauto|].
  intros x Hx [<-|[]]. contradiction.
Qed.

Lemma aggregate_NoDup (sites : list Site) : forall l,
  NoDup (map (keyOf item) l) ->
  NoDup (map (keyOf item) (aggregate item siteKey fresh touch sites l)).
Proof.
  induction sites as [|site rest IH]; intros l Hnd; [exact Hnd|].
  simpl. apply IH. apply recordSite_NoDup. exact Hnd.
Qed.

Lemma find_mutateFirst_same k site (l : list R) :
  List.find (hasKey item k) (mutateFirst (hasKey item k) (touch site) l)
  = option_map (touch site) (List.find (hasKey item k) l).
Proof.
  induction l as [|x rest IH]; [reflexivity|]. simpl.
  destruct (hasKey item k x) eqn:E; simpl.
  - unfold hasKey in *. rewrite touch_key, E. reflexivity.
  - rewrite E. exact IH.
Qed.

Lemma find_mutateFirst_other k k' site (l : list R) :
  k' <> k ->
  List.find (hasKey item k') (mutateFirst (hasKey item k) (touch site) l)
  = List.find (hasKey item k') l.
Proof.
  intros Hne. induction l as [|x rest IH]; [reflexivity|]. simpl.
  destruct (hasKey item k x) eqn:E; simpl.
  - unfold hasKey in *. rewrite touch_key.
    apply keyEqb_eq in E. rewrite E.
    rewrite (keyEqb_neq (not_eq_sym Hne)). reflexivity.
  - rewrite IH. reflexivity.
Qed.

Lemma find_app_fresh (p : R -> bool) (l : list R) (x : R) :
  List.find p (l ++ [x])
  = match List.find p l with
    | Some r => Some r
    | None => if p x then Some x else None
    end.
Proof.
  induction l as [|y rest IH]; simpl; [reflexivity|].
  destruct (p y); [reflexivity|exact IH].
Qed.

(** The record of the site's key after the site is folded in: the touched
    record, found or fresh. *)
Lemma recordSite_find_same (l : list R) site :
  List.find (hasKey item (siteKey site)) (recordSite item siteKey fresh touch l site)
  = Some (touch site match List.find (hasKey item (siteKey site)) l with
                     | Some r => r
                     | None => fresh site
                     end).
Proof.
  unfold recordSite, upsert. rewrite find_mutateFirst_same.
  destruct (List.find (hasKey item (siteKey site)) l) as [r|] eqn:Hfind.
  - rewrite Hfind. reflexivity.
  - rewrite find_app_fresh, Hfind.
    unfold hasKey at 1. rewrite fresh_key, keyEqb_refl. reflexivity.
Qed.

Lemma recordSite_find_other (l : list R) site k :
  k <> siteKey site ->
  List.find (hasKey item k) (recordSite item siteKey fresh touch l site)
  = List.find (hasKey item k) l.
Proof.
  intros Hne. unfold recordSite, upsert.
  rewrite find_mutateFirst_other by exact Hne.
  destruct (List.find (hasKey item (siteKey site)) l); [reflexivity|].
  rewrite find_app_fresh.
  destruct (List.find (hasKey item k) l); [reflexivity|].
  unfold hasKey. rewrite fresh_key, (keyEqb_neq (not_eq_sym Hne)). reflexivity.
Qed.

Lemma recordSite_ranges (l : list R) site k :
  rangesAt item ranges k (recordSite item siteKey fresh touch l site)
  = rangesAt item ranges k l ++ (if keyEqb (siteKey site) k then [siteRange site] else []).
Proof.
  unfold rangesAt. destruct (keyEqb (siteKey site) k) eqn:E.
  - apply keyEqb_eq in E. subst k. rewrite recordSite_find_same, touch_ranges.
    destruct (List.find (hasKey item (siteKey site)) l); [reflexivity|].
    rewrite fresh_ranges. reflexivity.
  - rewrite recordSite_find_other.
    + rewrite app_nil_r. reflexivity.
    + intros ->. rewrite keyEqb_refl in E. discriminate.
Qed.

Lemma aggregate_ranges (sites : list Site) : forall l k,
  rangesAt item ranges k (aggregate item siteKey fresh touch sites l)
  = rangesAt item ranges k l ++ rangesOfSites siteKey siteRange k sites.
Proof.
  unfold rangesOfSites.
  induction sites as [|site rest IH]; intros l k; simpl.
  - rewrite app_nil_r. reflexivity.
  - rewrite IH, recordSite_ranges, <- app_assoc.
    destruct (keyEqb (siteKey site) k); reflexivity.
Qed.

Lemma aggregate_keys_grow (sites : list Site) : forall l k,
  In k (map (keyOf item) l) -> In k (map (keyOf item) (aggregate item siteKey fresh touch sites l)).
Proof.
  induction sites as [|site rest IH]; intros l k Hin; [exact Hin|].
  simpl. apply IH. rewrite recordSite_keys.
  destruct (List.find (hasKey item (siteKey site)) l); [exact Hin|].
  apply in_or_app. left. exact Hin.
Qed.

Lemma find_hasKey_some k (l : list R) (r : R) :
  List.find (hasKey item k) l = Some r -> In r l /\ keyOf item r = k.
Proof.
  intros Hfind. apply find_some in Hfind. destruct Hfind as [Hin Hk].
  split; [exact Hin|]. apply keyEqb_eq. exact Hk.
Qed.

Lemma aggregate_covers (sites : list Site) : forall l site,
  In site sites ->
  In (siteKey site) (map (keyOf item) (aggregate item siteKey fresh touch sites l)).
Proof.
  induction sites as [|x rest IH]; intros l site Hin; [destruct Hin|].
  destruct Hin as [->|Hin]; simpl; [|apply IH; exact Hin].
  apply aggregate_keys_grow. rewrite recordSite_keys.
  destruct (List.find (hasKey item (siteKey site)) l) as [r|] eqn:Hfind.
  - apply find_hasKey_some in Hfind. destruct Hfind as [Hr <-].
    apply in_map. exact Hr.
  - apply in_or_app. right. left. reflexivity.
Qed.

(** With distinct keys, a record is the one its key finds. *)
Lemma find_hasKey_of_member (l : list R) (r : R) :
  NoDup (map (keyOf item) l) -> In r l -> List.find (hasKey item (keyOf item r)) l = Some r.
Proof.
  induction l as [|x rest IH]; intros Hnd Hin; [destruct Hin|].
  simpl in Hnd. inversion Hnd as [|? ? Hx Hrest]; subst.
  simpl. destruct Hin as [->|Hin].
  - unfold hasKey. rewrite keyEqb_refl. reflexivity.
  - unfold hasKey at 1. rewrite keyEqb_neq; [apply IH; assumption|].
    intros E. apply Hx. rewrite E. apply in_map. exact Hin.
Qed.

Lemma aggregate_find (sites : list Site) : forall l k,
  List.find (hasKey item k) (aggregate item siteKey fresh touch sites l)
  = fold_left (touchFound fresh touch) (filter (fun site => keyEqb (siteKey site) k) sites)
      (List.find (hasKey item k) l).
Proof.
  induction sites as [|site rest IH]; intros l k; [reflexivity|].
  simpl. rewrite IH. destruct (keyEqb (siteKey site) k) eqn:E.
  - apply keyEqb_eq in E. subst k. rewrite recordSite_find_same. reflexivity.
  - rewrite recordSite_find_other; [reflexivity|].
    intros ->. rewrite keyEqb_refl in E. discriminate.
Qed.

Lemma filter_hasKey_of_member (l : list R) (r : R) :
  NoDup (map (keyOf item) l) -> In r l -> filter (hasKey item (keyOf item r)) l = [r].
Proof.
  induction l as [|x rest IH]; intros Hnd Hin; [destruct Hin|].
  simpl in Hnd. inversion Hnd as [|? ? Hx Hrest]; subst.
  simpl. destruct Hin as [->|Hin].
  - unfold hasKey at 1. rewrite keyEqb_refl. f_equal.
    assert (Hnone : forall y, In y rest -> hasKey item (keyOf item r) y = false).
    { intros y Hy. apply keyEqb_neq. intros E. apply Hx. rewrite <- E.
      apply in_map. exact Hy. }
    clear -Hnone. induction rest as [|y ys IHys]; [reflexivity|].
    simpl. rewrite Hnone by (left; reflexivity).
    apply IHys. intros z Hz. apply Hnone. right. exact Hz.
  - unfold hasKey at 1. rewrite keyEqb_neq; [apply IH; assumption|].
    intros E. apply Hx. rewrite E. apply in_map. exact Hin.
Qed.

End Aggregation.

(** ** The call sites a walk discovers *)

Section Sites.

Context (H : Host).

(** *** The outgoing walker folds its call sites *)

Lemma outgoing_walker_is_checked (parseResults : ParseResults) :
  checkedVisitor (FindOutgoingCallTreeWalker H parseResults) (outgoingEffects H parseResults).
Proof. split; reflexivity. Qed.

Lemma addOutgoingCall_as_sites parseResults nameNode declaration calls :
  _addOutgoingCallForDeclaration H parseResults nameNode declaration calls
  = fold_left (recordOutgoing H parseResults)
      (outgoingSitesOfDeclaration H nameNode declaration) calls.
Proof.
  unfold _addOutgoingCallForDeclaration, outgoingSitesOfDeclaration.
  destruct (resolveAliasDeclaration H declaration true) as [rd|]; [|reflexivity].
  destruct (isFunctionOrClass rd); reflexivity.
Qed.

Lemma addOutgoingCalls_as_sites parseResults nameNode decls : forall calls,
  addOutgoingCalls H parseResults nameNode decls calls
  = fold_left (recordOutgoing H parseResults)
      (flat_map (outgoingSitesOfDeclaration H nameNode) decls) calls.
Proof.
  unfold addOutgoingCalls.
  induction decls as [|d ds IH]; intros calls; [reflexivity|].
  simpl. rewrite fold_left_app, IH, addOutgoingCall_as_sites. reflexivity.
Qed.

Lemma outgoing_visit_as_sites parseResults v calls :
  applyVisit (outgoingEffects H parseResults) calls v
  = fold_left (recordOutgoing H parseResults) (outgoingSitesOfVisit H v) calls.
Proof.
  destruct v as [l|l m]; simpl.
  - destruct (calleeNameNode l) as [nn|]; [|reflexivity].
    destruct (getDeclarationsForNameNode H nn) as [ds|]; [|reflexivity].
    apply addOutgoingCalls_as_sites.
  - destruct (getType H l) as [t|]; [|reflexivity].
    generalize (subtypesOf t) as subs. intros subs. revert calls.
    induction subs as [|sub rest IH]; intros calls; [reflexivity|].
    simpl. rewrite fold_left_app, IH, addOutgoingCalls_as_sites. reflexivity.
Qed.

Lemma outgoing_visits_as_sites parseResults visits : forall calls,
  fold_left (applyVisit (outgoingEffects H parseResults)) visits calls
  = fold_left (recordOutgoing H parseResults) (flat_map (outgoingSitesOfVisit H) visits) calls.
Proof.
  induction visits as [|v rest IH]; intros calls; [reflexivity|].
  simpl. rewrite fold_left_app, IH, outgoing_visit_as_sites. reflexivity.
Qed.

Lemma findOutgoingCalls_closed_form (parseResults : ParseResults) (root : ParseNode) :
  readsThenReturns (findOutgoingCalls H root parseResults)
    (List.length (visitsOf root)) (outgoingRecords H parseResults root).
Proof.
  unfold findOutgoingCalls, outgoingRecords, outgoingSites.
  rewrite <- outgoing_visits_as_sites.
  apply (walk_closed_form (outgoing_walker_is_checked parseResults)).
Qed.

Lemma outgoing_fresh_key site : outgoingKey (freshOutgoing H site) = outgoingSiteKey site.
Proof. reflexivity. Qed.

Lemma outgoing_touch_key parseResults (site : OutgoingSite) call :
  outgoingKey (touchOutgoing H parseResults (fst site) (snd site) call) = outgoingKey call.
Proof.
  unfold touchOutgoing, outgoingKey. simpl.
  destruct (negb _); reflexivity.
Qed.

Lemma outgoing_touch_ranges parseResults (site : OutgoingSite) call :
  CallHierarchyOutgoingCall.fromRanges
    (touchOutgoing H parseResults (fst site) (snd site) call)
  = CallHierarchyOutgoingCall.fromRanges call ++ [rangeOfNameNode H parseResults (fst site)].
Proof. reflexivity. Qed.

End Sites.

Section IncomingSites.

Context (H : Host) (filePath : string) (_symbolName : JsString)
        (_declaration : Declaration.t) (parseResults : ParseResults).

Lemma incomingVisitCall_effect l calls tok s :
  incomingVisitCall H filePath _symbolName _declaration parseResults l calls tok s
  = (throwIfCancellationRequested ;;;
     ret (onCall (incomingEffects H filePath _symbolName _declaration parseResults)
            l calls)) tok s.
Proof.
  unfold incomingVisitCall, bind, throwIfCancellationRequested, ret.
  destruct (tok (checks s)); [reflexivity|]. f_equal.
  cbv [onCall incomingEffects].
  destruct (calleeNameNode l) as [nn|]; [|reflexivity].
  unfold incomingCallMatches, comparedDeclaration.
  destruct (jsStringEqb (Some (NameNode.value nn)) _symbolName); [|reflexivity].
  destruct (getDeclarationsForNode H nn) as [ds|]; [|reflexivity].
  destruct (isAlias _declaration); cbn [andb].
  - destruct (resolveAliasDeclaration H _declaration true) as [rd|]; [|reflexivity].
    destruct (existsb _ ds); reflexivity.
  - destruct (existsb _ ds); reflexivity.
Qed.

Lemma incoming_walker_is_checked :
  checkedVisitor
    (FindIncomingCallTreeWalker H filePath _symbolName _declaration parseResults)
    (incomingEffects H filePath _symbolName _declaration parseResults).
Proof.
  split.
  - intros l acc tok s. apply incomingVisitCall_effect.
  - reflexivity.
Qed.

Lemma addIncomingCall_as_sites nameNode calls :
  _addIncomingCallForDeclaration H filePath parseResults nameNode calls
  = fold_left (recordIncoming H filePath parseResults) (incomingSitesOfName H nameNode) calls.
Proof.
  unfold _addIncomingCallForDeclaration, incomingSitesOfName.
  destruct (getExecutionScopeNode H nameNode); reflexivity.
Qed.

Lemma incoming_visit_as_sites v calls :
  applyVisit (incomingEffects H filePath _symbolName _declaration parseResults) calls v
  = fold_left (recordIncoming H filePath parseResults)
      (incomingSitesOfVisit H _symbolName _declaration v) calls.
Proof.
  destruct v as [l|l m];
    cbv [applyVisit onCall onMemberAccess incomingEffects incomingSitesOfVisit].
  - destruct (calleeNameNode l) as [nn|]; [|reflexivity].
    destruct (incomingCallMatches H _symbolName _declaration nn); [|reflexivity].
    apply addIncomingCall_as_sites.
  - destruct (jsStringEqb (Some (NameNode.value m)) _symbolName); [|reflexivity].
    destruct (getType H l) as [t|]; [|reflexivity].
    generalize (subtypesOf t) as subs. intros subs. revert calls.
    induction subs as [|sub rest IH]; intros calls; [reflexivity|].
    simpl. rewrite fold_left_app, IH.
    destruct (incomingSubtypeMatches H _declaration m sub); [|reflexivity].
    rewrite addIncomingCall_as_sites. reflexivity.
Qed.

Lemma incoming_visits_as_sites visits : forall calls,
  fold_left (applyVisit (incomingEffects H filePath _symbolName _declaration parseResults))
    visits calls
  = fold_left (recordIncoming H filePath parseResults)
      (flat_map (incomingSitesOfVisit H _symbolName _declaration) visits) calls.
Proof.
  induction visits as [|v rest IH]; intros calls; [reflexivity|].
  simpl. rewrite fold_left_app, IH, incoming_visit_as_sites. reflexivity.
Qed.

Lemma findIncomingCalls_closed_form :
  readsThenReturns
    (findIncomingCalls H filePath _symbolName _declaration parseResults)
    (List.length (visitsOf (parseTree parseResults)))
    (incomingRecords H filePath _symbolName _declaration parseResults).
Proof.
  unfold findIncomingCalls, incomingRecords, incomingSites.
  rewrite <- incoming_visits_as_sites.
  apply (walk_closed_form incoming_walker_is_checked).
Qed.

End IncomingSites.

(** ** The records of a walk, seen through their keys *)

Section RecordsOfAWalk.

Context (H : Host) (parseResults : ParseResults).

Lemma recordOutgoing_NoDup sites : forall calls,
  NoDup (map outgoingKey calls) ->
  NoDup (map outgoingKey (fold_left (recordOutgoing H parseResults) sites calls)).
Proof.
  exact (@aggregate_NoDup _ _ CallHierarchyOutgoingCall.to outgoingSiteKey
           (freshOutgoing H)
           (fun site => touchOutgoing H parseResults (fst site) (snd site))
           (outgoing_fresh_key H)
           (fun site r => outgoing_touch_key H parseResults site r) sites).
Qed.

Lemma recordOutgoing_ranges sites calls k :
  rangesAt CallHierarchyOutgoingCall.to CallHierarchyOutgoingCall.fromRanges k
    (fold_left (recordOutgoing H parseResults) sites calls)
  = rangesAt CallHierarchyOutgoingCall.to CallHierarchyOutgoingCall.fromRanges k calls
    ++ map (fun site => rangeOfNameNode H parseResults (fst site))
         (filter (fun site => keyEqb (outgoingSiteKey site) k) sites).
Proof.
  exact (@aggregate_ranges _ _ CallHierarchyOutgoingCall.to
           CallHierarchyOutgoingCall.fromRanges outgoingSiteKey
           (fun site => rangeOfNameNode H parseResults (fst site))
           (freshOutgoing H)
           (fun site => touchOutgoing H parseResults (fst site) (snd site))
           (outgoing_fresh_key H)
           (fun site r => outgoing_touch_key H parseResults site r)
           (fun _ => eq_refl)
           (fun site r => outgoing_touch_ranges H parseResults site r)
           sites calls k).
Qed.

Lemma recordOutgoing_covers sites calls site :
  In site sites ->
  exists call,
    In call (fold_left (recordOutgoing H parseResults) sites calls)
    /\ outgoingKey call = outgoingSiteKey site.
Proof.
  intros Hin.
  pose proof (@aggregate_covers _ _ CallHierarchyOutgoingCall.to outgoingSiteKey
                (freshOutgoing H)
                (fun site => touchOutgoing H parseResults (fst site) (snd site))
                (outgoing_fresh_key H)
                (fun site r => outgoing_touch_key H parseResults site r)
                sites calls site Hin) as Hc.
  apply in_map_iff in Hc. destruct Hc as (call & Hk & Hc).
  exists call. split; assumption.
Qed.

Lemma outgoing_record_of_member calls call :
  NoDup (map outgoingKey calls) -> In call calls ->
  List.find (hasKey CallHierarchyOutgoingCall.to (outgoingKey call)) calls = Some call.
Proof. apply (find_hasKey_of_member CallHierarchyOutgoingCall.to). Qed.

Context (filePath : string).

Lemma recordIncoming_NoDup sites : forall calls,
  NoDup (map incomingKey calls) ->
  NoDup (map incomingKey (fold_left (recordIncoming H filePath parseResults) sites calls)).
Proof.
  exact (@aggregate_NoDup _ _ CallHierarchyIncomingCall.from
           (incomingSiteKey H filePath parseResults)
           (freshIncoming H filePath parseResults)
           (fun site => pushIncomingRange (rangeOfNameNode H parseResults (fst site)))
           (fun _ => eq_refl) (fun _ _ => eq_refl) sites).
Qed.

Lemma recordIncoming_ranges sites calls k :
  rangesAt CallHierarchyIncomingCall.from CallHierarchyIncomingCall.fromRanges k
    (fold_left (recordIncoming H filePath parseResults) sites calls)
  = rangesAt CallHierarchyIncomingCall.from CallHierarchyIncomingCall.fromRanges k calls
    ++ map (fun site => rangeOfNameNode H parseResults (fst site))
         (filter (fun site => keyEqb (incomingSiteKey H filePath parseResults site) k)
            sites).
Proof.
  exact (@aggregate_ranges _ _ CallHierarchyIncomingCall.from
           CallHierarchyIncomingCall.fromRanges
           (incomingSiteKey H filePath parseResults)
           (fun site => rangeOfNameNode H parseResults (fst site))
           (freshIncoming H filePath parseResults)
           (fun site => pushIncomingRange (rangeOfNameNode H parseResults (fst site)))
           (fun _ => eq_refl) (fun _ _ => eq_refl)
           (fun _ => eq_refl) (fun _ _ => eq_refl)
           sites calls k).
Qed.

Lemma recordIncoming_covers sites calls site :
  In site sites ->
  exists call,
    In call (fold_left (recordIncoming H filePath parseResults) sites calls)
    /\ incomingKey call = incomingSiteKey H filePath parseResults site.
Proof.
  intros Hin.
  pose proof (@aggregate_covers _ _ CallHierarchyIncomingCall.from
                (incomingSiteKey H filePath parseResults)
                (freshIncoming H filePath parseResults)
                (fun site => pushIncomingRange (rangeOfNameNode H parseResults (fst site)))
                (fun _ => eq_refl) (fun _ _ => eq_refl)
                sites calls site Hin) as Hc.
  apply in_map_iff in Hc. destruct Hc as (call & Hk & Hc).
  exists call. split; assumption.
Qed.

Lemma incoming_record_of_member calls call :
  NoDup (map incomingKey calls) -> In call calls ->
  List.find (hasKey CallHierarchyIncomingCall.from (incomingKey call)) calls = Some call.
Proof. apply (find_hasKey_of_member CallHierarchyIncomingCall.from). Qed.

End RecordsOfAWalk.

(** ** One record per key, ranges in discovery order (C3) *)

(** C3.  Under any token a walk either is cancelled or returns one and the
    same record list.  In that list no two records share their (file, range)
    key, the location of the resolved callee for the outgoing walker and of
    the caller's scope for the incoming walker; the range list of a record is
    made of the occurrence ranges of exactly the call sites of its key, in
    the order the walk discovers them; and every call site has its record. *)
Theorem call_records_are_keyed_and_ordered (H : Host) (parseResults : ParseResults) :
  (forall root,
     exists calls,
       (forall tok s,
          findOutgoingCalls H root parseResults tok s
          = if cancelledWithin tok (checks s) (List.length (visitsOf root))
            then Cancelled
            else Ret calls (ticks (List.length (visitsOf root)) s))
       /\ NoDup (map outgoingKey calls)
       /\ (forall call,
             In call calls ->
             CallHierarchyOutgoingCall.fromRanges call
             = map (fun site => rangeOfNameNode H parseResults (fst site))
                 (filter (fun site => keyEqb (outgoingSiteKey site) (outgoingKey call))
                    (outgoingSites H root)))
       /\ (forall site,
             In site (outgoingSites H root) ->
             exists call, In call calls /\ outgoingKey call = outgoingSiteKey site))
  /\ (forall filePath symbolName declaration,
        exists calls,
          (forall tok s,
             findIncomingCalls H filePath symbolName declaration parseResults tok s
             = if cancelledWithin tok (checks s)
                    (List.length (visitsOf (parseTree parseResults)))
               then Cancelled
               else Ret calls (ticks (List.length (visitsOf (parseTree parseResults))) s))
          /\ NoDup (map incomingKey calls)
          /\ (forall call,
                In call calls ->
                CallHierarchyIncomingCall.fromRanges call
                = map (fun site => rangeOfNameNode H parseResults (fst site))
                    (filter
                       (fun site =>
                          keyEqb (incomingSiteKey H filePath parseResults site)
                                 (incomingKey call))
                       (incomingSites H symbolName declaration (parseTree parseResults))))
          /\ (forall site,
                In site (incomingSites H symbolName declaration (parseTree parseResults)) ->
                exists call,
                  In call calls
                  /\ incomingKey call = incomingSiteKey H filePath parseResults site)).
Proof.
  split.
  - intros root. exists (outgoingRecords H parseResults root).
    assert (Hnd : NoDup (map outgoingKey (outgoingRecords H parseResults root)))
      by (apply recordOutgoing_NoDup; constructor).
    split; [apply findOutgoingCalls_closed_form|]. split; [exact Hnd|]. split.
    + intros call Hin.
      pose proof (recordOutgoing_ranges H parseResults (outgoingSites H root) []
                    (outgoingKey call)) as Hr.
      unfold rangesAt in Hr.
      fold (outgoingRecords H parseResults root) in Hr.
      rewrite (outgoing_record_of_member _ call Hnd Hin) in Hr.
      exact Hr.
    + intros site Hin. apply recordOutgoing_covers. exact Hin.
  - intros filePath symbolName declaration.
    exists (incomingRecords H filePath symbolName declaration parseResults).
    assert (Hnd : NoDup (map incomingKey
                           (incomingRecords H filePath symbolName declaration parseResults)))
      by (apply recordIncoming_NoDup; constructor).
    split; [apply findIncomingCalls_closed_form|]. split; [exact Hnd|]. split.
    + intros call Hin.
      pose proof (recordIncoming_ranges H parseResults filePath
                    (incomingSites H symbolName declaration (parseTree parseResults)) []
                    (incomingKey call)) as Hr.
      unfold rangesAt in Hr.
      fold (incomingRecords H filePath symbolName declaration parseResults) in Hr.
      rewrite (incoming_record_of_member _ call Hnd Hin) in Hr.
      exact Hr.
    + intros site Hin. apply recordIncoming_covers. exact Hin.
Qed.

(** ** Which calls the incoming walker records (C4) *)

Lemma incomingCallMatches_iff (H : Host) _symbolName _declaration nameNode :
  incomingCallMatches H _symbolName _declaration nameNode = true
  <-> calleeMatchesTarget H _symbolName _declaration nameNode.
Proof.
  unfold incomingCallMatches, calleeMatchesTarget, comparedDeclaration.
  rewrite andb_true_iff, jsStringEqb_eq. split.
  - intros [Hname Hsome]. split; [exact Hname|].
    destruct (getDeclarationsForNode H nameNode) as [ds|]; [|discriminate].
    destruct (if isAlias _declaration
              then resolveAliasDeclaration H _declaration true
              else Some _declaration) as [compared|]; [|discriminate].
    apply existsb_exists in Hsome. destruct Hsome as (d & Hin & Hsame).
    exists ds, compared, d. auto.
  - intros [Hname (ds & compared & d & -> & -> & Hin & Hsame)].
    split; [exact Hname|]. apply existsb_exists. exists d. auto.
Qed.

Lemma rangesAt_differs {R} (item : R -> CallHierarchyItem.t) (ranges : R -> list Range.t)
    (k : Key) (l l' : list R) (x : Range.t) :
  rangesAt item ranges k l' = rangesAt item ranges k l ++ [x] -> l' <> l.
Proof.
  intros E ->. apply (f_equal (@List.length _)) in E.
  rewrite length_app in E. simpl in E. lia.
Qed.

(** C4.  A visit of a call expression by the incoming walker that is not
    cancelled records the call if and only if the literal text of the callee
    name node is the symbol name and one of the declarations resolved for the
    name node is structurally equal to the target declaration, or to the
    alias's resolved declaration when the target is an alias.  Recording
    appends the occurrence range of the name node to the record of the
    enclosing execution scope, which the host finds for every name node of a
    parse tree. *)
Theorem incoming_call_recorded_iff_matches (H : Host) (filePath : string)
    (_symbolName : JsString) (_declaration : Declaration.t)
    (parseResults : ParseResults) (leftExpression : ParseNode)
    (calls : list CallHierarchyIncomingCall.t)
    (tok : CancellationToken) (s : ProgState) :
  tok (checks s) = false ->
  (forall nameNode,
     calleeNameNode leftExpression = Some nameNode ->
     getExecutionScopeNode H nameNode <> None) ->
  exists calls',
    incomingVisitCall H filePath _symbolName _declaration parseResults
      leftExpression calls tok s = Ret calls' (tick s)
    /\ (calls' <> calls
        <-> exists nameNode,
              calleeNameNode leftExpression = Some nameNode
              /\ calleeMatchesTarget H _symbolName _declaration nameNode)
    /\ (forall nameNode executionNode,
          calleeNameNode leftExpression = Some nameNode ->
          calleeMatchesTarget H _symbolName _declaration nameNode ->
          getExecutionScopeNode H nameNode = Some executionNode ->
          calls' = _addIncomingCallForDeclaration H filePath parseResults nameNode calls
          /\ rangesAt CallHierarchyIncomingCall.from CallHierarchyIncomingCall.fromRanges
               (itemKey (incomingCallSource H filePath parseResults executionNode)) calls'
             = rangesAt CallHierarchyIncomingCall.from CallHierarchyIncomingCall.fromRanges
                 (itemKey (incomingCallSource H filePath parseResults executionNode)) calls
               ++ [rangeOfNameNode H parseResults nameNode]).
Proof.
  intros Htok Hscope.
  rewrite incomingVisitCall_effect.
  unfold bind, throwIfCancellationRequested, ret. rewrite Htok.
  eexists. split; [reflexivity|].
  cbv [onCall incomingEffects].
  assert (Hadd : forall nameNode executionNode,
             getExecutionScopeNode H nameNode = Some executionNode ->
             rangesAt CallHierarchyIncomingCall.from CallHierarchyIncomingCall.fromRanges
               (itemKey (incomingCallSource H filePath parseResults executionNode))
               (_addIncomingCallForDeclaration H filePath parseResults nameNode calls)
             = rangesAt CallHierarchyIncomingCall.from CallHierarchyIncomingCall.fromRanges
                 (itemKey (incomingCallSource H filePath parseResults executionNode)) calls
               ++ [rangeOfNameNode H parseResults nameNode]).
  { intros nn en Hen.
    rewrite addIncomingCall_as_sites. unfold incomingSitesOfName. rewrite Hen.
    rewrite recordIncoming_ranges. simpl.
    unfold incomingSiteKey. simpl. rewrite keyEqb_refl. reflexivity. }
  destruct (calleeNameNode leftExpression) as [nn|] eqn:Hcallee.
  - destruct (incomingCallMatches H _symbolName _declaration nn) eqn:Hm.
    + apply incomingCallMatches_iff in Hm. split.
      * split.
        -- intros _. exists nn. auto.
        -- intros _.
           destruct (getExecutionScopeNode H nn) as [en|] eqn:Hen;
             [|exfalso; apply (Hscope nn eq_refl Hen)].
           eapply rangesAt_differs. apply (Hadd nn en Hen).
      * intros nn' en E Hm' Hen. inversion E; subst nn'.
        split; [reflexivity|]. apply Hadd. exact Hen.
    + split.
      * split; [intros Hne; exfalso; apply Hne; reflexivity|].
        intros (nn' & E & Hm'). inversion E; subst nn'.
        apply incomingCallMatches_iff in Hm'. congruence.
      * intros nn' en E Hm' _. inversion E; subst nn'.
        apply incomingCallMatches_iff in Hm'. congruence.
  - split.
    + split; [intros Hne; exfalso; apply Hne; reflexivity|].
      intros (nn' & E & _). discriminate.
    + intros nn' en E. discriminate.
Qed.

Lemma incoming_call_recorded_iff_matches_witness :
  incomingVisitCall (Examples.appHost "/src/app.py" Examples.everywhere)
    "/src/app.py" (Some "real") (Examples.realDecl "/src/app.py") Examples.appResults
    (NameN Examples.callsReal) [] neverCancelled initialState
  = Ret [CallHierarchyIncomingCall.mk
           (CallHierarchyItem.mk (Some "main") SymbolKind.Function "/src/app.py"
              (Examples.span 0 60 64) (Examples.span 0 60 64))
           [Examples.span 0 70 74]]
        (tick initialState)
  /\ calleeMatchesTarget (Examples.appHost "/src/app.py" Examples.everywhere)
       (Some "real") (Examples.realDecl "/src/app.py") Examples.callsReal.
Proof.
  destruct (@incoming_call_recorded_iff_matches
              (Examples.appHost "/src/app.py" Examples.everywhere)
              "/src/app.py" (Some "real") (Examples.realDecl "/src/app.py")
              Examples.appResults (NameN Examples.callsReal) []
              neverCancelled initialState eq_refl)
    as (calls' & Hrun & Hiff & _).
  - intros nn E. inversion E; subst nn. discriminate.
  - split; [reflexivity|].
    destruct Hiff as [Hrec _].
    destruct Hrec as (nn & E & Hm).
    + vm_compute in Hrun. inversion Hrun. discriminate.
    + inversion E; subst nn. exact Hm.
Defined.

(** ** The files an incoming query scans (C6) *)

Lemma traces_ret {A} (a : A) : traces (ret a) [] 0.
Proof.
  intros tok s a' s' E. inversion E; subst.
  rewrite app_nil_r, Nat.add_0_r. auto.
Qed.

Lemma traces_throw {A} files k : traces (@throwTypeError A) files k.
Proof. intros tok s a s' E. discriminate. Qed.

Lemma traces_check : traces throwIfCancellationRequested [] 0.
Proof.
  intros tok s a s' E. unfold throwIfCancellationRequested in E.
  destruct (tok (checks s)); inversion E; subst. simpl.
  rewrite app_nil_r, Nat.add_0_r. auto.
Qed.

Lemma traces_noteWalk path : traces (noteWalk path) [path] 0.
Proof.
  intros tok s a s' E. inversion E; subst. simpl. rewrite Nat.add_0_r. auto.
Qed.

Lemma traces_memory : traces handleMemoryHighUsage [] 1.
Proof.
  intros tok s a s' E. inversion E; subst. simpl.
  rewrite app_nil_r, Nat.add_1_r. auto.
Qed.

Lemma traces_bind {A B} (m : M A) (f : A -> M B) files1 k1 files2 k2 :
  traces m files1 k1 ->
  (forall a, traces (f a) files2 k2) ->
  traces (bind m f) (files1 ++ files2) (k1 + k2).
Proof.
  intros Hm Hf tok s b s' E. unfold bind in E.
  destruct (m tok s) as [a s1| |] eqn:Em; try discriminate.
  destruct (Hm _ _ _ _ Em) as [Hw1 Hk1].
  destruct (Hf a _ _ _ _ E) as [Hw2 Hk2].
  rewrite Hw2, Hw1, Hk2, Hk1, app_assoc, Nat.add_assoc. auto.
Qed.

Lemma traces_reads {A} (m : M A) n a : readsThenReturns m n a -> traces m [] 0.
Proof.
  intros Hm tok s a' s' E. rewrite Hm in E.
  destruct (cancelledWithin tok (checks s) n); inversion E; subst. simpl.
  rewrite app_nil_r, Nat.add_0_r. auto.
Qed.

Section ScannedFiles.

Context (H : Host) (filePath : string) (position : Position.t).

Lemma traces_getIncomingCallsForDeclaration parseResults path symbolName declaration :
  traces (_getIncomingCallsForDeclaration H parseResults path symbolName declaration)
    [path] 0.
Proof.
  unfold _getIncomingCallsForDeclaration.
  apply traces_bind with (files1 := []) (k1 := 0) (files2 := [path]) (k2 := 0);
    [apply traces_check|intros _].
  apply traces_bind with (files1 := [path]) (k1 := 0) (files2 := []) (k2 := 0);
    [apply traces_noteWalk|intros _].
  destruct parseResults as [pr|]; [|apply traces_throw].
  apply traces_bind with (files1 := []) (k1 := 0) (files2 := []) (k2 := 0);
    [|intros calls; apply traces_ret].
  eapply traces_reads. apply findIncomingCalls_closed_form.
Qed.

Lemma traces_scanSourceFile symbolName targetDecl info items :
  traces (scanSourceFile H symbolName targetDecl (Some info) items)
    (map getFilePath (filter (isScanned H) [info]))
    (List.length (filter (isScanned H) [info])).
Proof.
  unfold scanSourceFile. simpl. unfold isScanned at 1 2.
  destruct (isUserCode H info || isOpenByClient info); [|apply traces_ret].
  apply traces_bind with (files1 := [getFilePath info]) (k1 := 0) (files2 := []) (k2 := 1);
    [apply traces_getIncomingCallsForDeclaration|intros more].
  apply traces_bind with (files1 := []) (k1 := 1) (files2 := []) (k2 := 0);
    [apply traces_memory|intros _; apply traces_ret].
Qed.

Lemma traces_scan symbolName targetDecl (xs : list (option SourceFileInfo)) :
  forall items,
    traces (forEachM (scanSourceFile H symbolName targetDecl) xs items)
      (map getFilePath (filter (isScanned H) (presentFiles xs)))
      (List.length (filter (isScanned H) (presentFiles xs))).
Proof.
  induction xs as [|x rest IH]; intros items; [apply traces_ret|].
  simpl forEachM. destruct x as [info|].
  - change (presentFiles (Some info :: rest)) with ([info] ++ presentFiles rest).
    rewrite filter_app, map_app, length_app.
    apply traces_bind; [apply traces_scanSourceFile|intros acc; apply IH].
  - intros tok s a s' E. unfold bind, scanSourceFile, throwTypeError in E. discriminate.
Qed.

Lemma presentFiles_incomingSourceFiles targetDecl :
  filter (isScanned H) (presentFiles (incomingSourceFiles H filePath targetDecl))
  = candidateFiles H filePath targetDecl.
Proof.
  unfold candidateFiles, incomingSourceFiles.
  destruct (isAlias targetDecl).
  - simpl. destruct (getSourceFileInfo H filePath); reflexivity.
  - f_equal. induction (getSourceFileInfoList H) as [|i rest IH]; [reflexivity|].
    simpl. rewrite IH. reflexivity.
Qed.

Lemma getIncomingCallsForDeclaration_returns parseResults path symbolName declaration s :
  exists found s',
    _getIncomingCallsForDeclaration H (Some parseResults) path symbolName declaration
      neverCancelled s = Ret found s'.
Proof.
  unfold _getIncomingCallsForDeclaration, bind, throwIfCancellationRequested, noteWalk.
  simpl. rewrite (findIncomingCalls_closed_form H path symbolName declaration parseResults).
  rewrite cancelledWithin_never. unfold ret. eauto.
Qed.

Lemma scanSourceFile_returns symbolName targetDecl info items s :
  (isScanned H info = true -> getParseResults H (getFilePath info) <> None) ->
  exists items' s',
    scanSourceFile H symbolName targetDecl (Some info) items neverCancelled s
    = Ret items' s'.
Proof.
  intros Hparse. unfold scanSourceFile. fold (isScanned H info).
  destruct (isScanned H info); [|unfold ret; eauto].
  destruct (getParseResults H (getFilePath info)) as [pr|];
    [|exfalso; apply Hparse; reflexivity].
  unfold bind.
  destruct (getIncomingCallsForDeclaration_returns pr (getFilePath info)
              symbolName targetDecl s) as (found & s1 & ->).
  unfold handleMemoryHighUsage, ret. eauto.
Qed.

Lemma scan_returns symbolName targetDecl (xs : list (option SourceFileInfo)) :
  (forall x, In x xs ->
     exists info,
       x = Some info
       /\ (isScanned H info = true -> getParseResults H (getFilePath info) <> None)) ->
  forall items s,
    exists items' s',
      forEachM (scanSourceFile H symbolName targetDecl) xs items neverCancelled s
      = Ret items' s'.
Proof.
  induction xs as [|x rest IH]; intros Hxs items s; [simpl; unfold ret; eauto|].
  destruct (Hxs x (or_introl eq_refl)) as (info & -> & Hparse).
  cbn [forEachM]. unfold bind.
  destruct (scanSourceFile_returns symbolName targetDecl info items s Hparse)
    as (items1 & s1 & ->).
  apply IH. intros y Hy. apply Hxs. right. exact Hy.
Qed.

Lemma incomingSourceFiles_present targetDecl :
  (isAlias targetDecl = true -> getSourceFileInfo H filePath <> None) ->
  (forall info,
     In info (candidateFiles H filePath targetDecl) ->
     getParseResults H (getFilePath info) <> None) ->
  forall x, In x (incomingSourceFiles H filePath targetDecl) ->
    exists info,
      x = Some info
      /\ (isScanned H info = true -> getParseResults H (getFilePath info) <> None).
Proof.
  unfold incomingSourceFiles, candidateFiles. intros Hinfo Hparse x Hx.
  destruct (isAlias targetDecl).
  - destruct (getSourceFileInfo H filePath) as [info|];
      [|exfalso; apply Hinfo; reflexivity].
    destruct Hx as [<-|[]]. exists info. split; [reflexivity|].
    intros Hs. apply Hparse. apply filter_In. split; [left; reflexivity|exact Hs].
  - apply in_map_iff in Hx. destruct Hx as (info & <- & Hin).
    exists info. split; [reflexivity|].
    intros Hs. apply Hparse. apply filter_In. split; assumption.
Qed.

End ScannedFiles.

(** C6.  A run of [getIncomingCalls] that reaches the scan and returns has
    run the incoming walker on exactly the candidate files, in their order,
    and has called the memory hook once for each: the querying file alone
    when the target is an alias, every file of the program otherwise, in both
    cases only the files that are user code or open in the client.  An alias
    target therefore never has the program's file list scanned.  The run
    does return when it is not cancelled and the host holds the parse results
    of the candidate files. *)
Theorem incoming_scan_file_set (H : Host) (filePath : string) (position : Position.t)
    (s : ProgState) (parseResults : ParseResults) (r : ReferencesResult)
    (target : TargetDeclaration) :
  _parseResults H filePath = Some parseResults ->
  _getDeclaration H filePath position = Some r ->
  _getTargetDeclaration H filePath r = Some target ->
  (forall tok result s',
     getIncomingCalls H filePath position tok s = Ret result s' ->
     walked s' = walked s ++ map getFilePath (candidateFiles H filePath (targetDecl target))
     /\ memoryChecks s'
        = memoryChecks s + List.length (candidateFiles H filePath (targetDecl target)))
  /\ ((isAlias (targetDecl target) = true -> getSourceFileInfo H filePath <> None) ->
      (forall info,
         In info (candidateFiles H filePath (targetDecl target)) ->
         getParseResults H (getFilePath info) <> None) ->
      exists result s',
        getIncomingCalls H filePath position neverCancelled s = Ret result s')
  /\ candidateFiles H filePath (targetDecl target)
     = filter (fun info => isUserCode H info || isOpenByClient info)
         (if isAlias (targetDecl target)
          then match getSourceFileInfo H filePath with
               | Some info => [info]
               | None => []
               end
          else getSourceFileInfoList H).
Proof.
  intros Hpr Hr Ht. split; [|split; [|reflexivity]].
  - intros tok result s' Hrun. unfold getIncomingCalls in Hrun.
    destruct (tok (checks s)) eqn:Htok;
      [unfold withTarget, bind, throwIfCancellationRequested in Hrun;
       rewrite Htok in Hrun; discriminate|].
    rewrite (withTarget_run H filePath position _ tok s Htok Hpr Hr Ht) in Hrun.
    unfold bind in Hrun.
    destruct (forEachM (scanSourceFile H (symbolName target) (targetDecl target))
                (incomingSourceFiles H filePath (targetDecl target)) [] tok (tick s))
      as [items s1| |] eqn:Escan; try discriminate.
    assert (s' = s1)
      by (destruct (Nat.eqb (List.length items) 0); unfold ret in Hrun;
          inversion Hrun; reflexivity).
    subst s1.
    destruct (traces_scan H (symbolName target) (targetDecl target)
                (incomingSourceFiles H filePath (targetDecl target)) []
                tok (tick s) Escan) as [Hw Hk].
    rewrite presentFiles_incomingSourceFiles in Hw, Hk. split; assumption.
  - intros Hinfo Hparse. unfold getIncomingCalls.
    rewrite (withTarget_run H filePath position _ neverCancelled s eq_refl Hpr Hr Ht).
    unfold bind.
    destruct (scan_returns H (symbolName target) (targetDecl target)
                (incomingSourceFiles H filePath (targetDecl target))
                (incomingSourceFiles_present H filePath (targetDecl target) Hinfo Hparse)
                [] (tick s)) as (items & s1 & ->).
    destruct (Nat.eqb (List.length items) 0); unfold ret; eauto.
Qed.

Lemma incoming_scan_file_set_witness :
  (getIncomingCalls Examples.workspaceHost "/src/app.py" (Examples.pos 0 80)
     neverCancelled initialState
   = Ret (Some [CallHierarchyIncomingCall.mk
                  (CallHierarchyItem.mk (Some "main") SymbolKind.Function
                     "file:///src/app.py" (Examples.span 0 60 64) (Examples.span 0 60 64))
                  [Examples.span 0 80 84]])
         (mkState 5 ["/src/app.py"] 1))
  /\ walked (mkState 5 ["/src/app.py"] 1)
     = walked initialState
       ++ map getFilePath
            (candidateFiles Examples.workspaceHost "/src/app.py" Examples.nickDecl).
Proof.
  assert (E : getIncomingCalls Examples.workspaceHost "/src/app.py" (Examples.pos 0 80)
                neverCancelled initialState
              = Ret (Some [CallHierarchyIncomingCall.mk
                             (CallHierarchyItem.mk (Some "main") SymbolKind.Function
                                "file:///src/app.py" (Examples.span 0 60 64)
                                (Examples.span 0 60 64))
                             [Examples.span 0 80 84]])
                    (mkState 5 ["/src/app.py"] 1)) by reflexivity.
  split; [exact E|].
  destruct (@incoming_scan_file_set Examples.workspaceHost "/src/app.py" (Examples.pos 0 80)
              initialState Examples.appResults
              (mkReferencesResult (NameN Examples.callsNick) ["nick"] [Examples.nickDecl])
              (mkTarget Examples.nickDecl "/src/app.py" (Some "nick"))
              eq_refl eq_refl eq_refl) as (Htrace & _ & _).
  apply (Htrace neverCancelled _ _ E).
Defined.

(** On the same workspace a function target has the whole program scanned:
    the user file and the open third-party file, not the closed one. *)
Example function_target_scans_the_program :
  getIncomingCalls Examples.workspaceHost "/src/app.py" (Examples.pos 0 4)
    neverCancelled initialState
  = Ret (Some [CallHierarchyIncomingCall.mk
                 (CallHierarchyItem.mk (Some "main") SymbolKind.Function
                    "file:///src/app.py" (Examples.span 0 60 64) (Examples.span 0 60 64))
                 [Examples.span 0 70 74];
               CallHierarchyIncomingCall.mk
                 (CallHierarchyItem.mk (Some "(module) /lib/open.py") SymbolKind.Module_
                    "file:///lib/open.py" (Examples.span 0 0 0) (Examples.span 0 0 0))
                 [Examples.span 0 0 4]])
        (mkState 7 ["/src/app.py"; "/lib/open.py"] 2).
Proof. reflexivity. Qed.

(** ** Cancellation (C9) *)

Lemma faithful_ret {A} (a : A) : cancellationFaithful (ret a).
Proof.
  intros s. unfold ret. split; [lia|]. intros tok.
  rewrite Nat.sub_diag. reflexivity.
Qed.

Lemma faithful_throw {A} : cancellationFaithful (@throwTypeError A).
Proof. intros s tok. left. reflexivity. Qed.

Lemma faithful_reads {A} (m : M A) n a : readsThenReturns m n a -> cancellationFaithful m.
Proof.
  intros Hm s. rewrite Hm, cancelledWithin_never. simpl. split; [lia|].
  intros tok. rewrite Hm. replace (checks s + n - checks s) with n by lia. reflexivity.
Qed.

Lemma faithful_check : cancellationFaithful throwIfCancellationRequested.
Proof. apply (faithful_reads readsThenReturns_check). Qed.

Lemma faithful_noteWalk path : cancellationFaithful (noteWalk path).
Proof.
  intros s. unfold noteWalk. simpl. split; [lia|]. intros tok.
  rewrite Nat.sub_diag. reflexivity.
Qed.

Lemma faithful_memory : cancellationFaithful handleMemoryHighUsage.
Proof.
  intros s. unfold handleMemoryHighUsage. simpl. split; [lia|]. intros tok.
  rewrite Nat.sub_diag. reflexivity.
Qed.

Lemma faithful_bind {A B} (m : M A) (f : A -> M B) :
  cancellationFaithful m ->
  (forall a, cancellationFaithful (f a)) ->
  cancellationFaithful (bind m f).
Proof.
  intros Hm Hf s. specialize (Hm s). unfold bind.
  destruct (m neverCancelled s) as [a s1| |] eqn:Em.
  - destruct Hm as [Hle Hm]. specialize (Hf a s1).
    destruct (f a neverCancelled s1) as [b s2| |] eqn:Ef.
    + destruct Hf as [Hle2 Hf]. split; [lia|]. intros tok.
      rewrite Hm.
      replace (checks s2 - checks s)
        with ((checks s1 - checks s) + (checks s2 - checks s1)) by lia.
      rewrite cancelledWithin_app.
      replace (checks s + (checks s1 - checks s)) with (checks s1) by lia.
      destruct (cancelledWithin tok (checks s) (checks s1 - checks s)); [reflexivity|].
      apply Hf.
    + exact Hf.
    + intros tok. rewrite Hm.
      destruct (cancelledWithin tok (checks s) (checks s1 - checks s)); [right; reflexivity|].
      apply Hf.
  - exact Hm.
  - intros tok. destruct (Hm tok) as [-> | ->]; auto.
Qed.

Lemma faithful_forEach {A S} (body : A -> S -> M S) (xs : list A) :
  (forall x acc, cancellationFaithful (body x acc)) ->
  forall acc, cancellationFaithful (forEachM body xs acc).
Proof.
  intros Hbody. induction xs as [|x rest IH]; intros acc; simpl.
  - apply faithful_ret.
  - apply faithful_bind; [apply Hbody|exact IH].
Qed.

Section FaithfulOperations.

Context (H : Host) (filePath : string) (position : Position.t).

Lemma faithful_withTarget {A} (k : ParseResults -> TargetDeclaration -> M (option A)) :
  (forall parseResults target, cancellationFaithful (k parseResults target)) ->
  cancellationFaithful (withTarget H filePath position k).
Proof.
  intros Hk. unfold withTarget.
  apply faithful_bind; [apply faithful_check|intros _].
  destruct (_parseResults H filePath); [|apply faithful_ret].
  destruct (_getDeclaration H filePath position) as [r|]; [|apply faithful_ret].
  destruct (Nat.eqb (List.length (declarations r)) 0); [apply faithful_ret|].
  destruct (_getTargetDeclaration H filePath r); [apply Hk|apply faithful_throw].
Qed.

Lemma faithful_onPrepare : cancellationFaithful (onPrepare H filePath position).
Proof.
  apply faithful_withTarget. intros _ target. cbv zeta.
  destruct (negb (eligibleKind (targetDecl target))); [apply faithful_ret|].
  destruct (negb _); [apply faithful_ret|].
  destruct (negb _); apply faithful_ret.
Qed.

Lemma faithful_getOutgoingCalls : cancellationFaithful (getOutgoingCalls H filePath position).
Proof.
  apply faithful_withTarget. intros parseResults target.
  destruct (resolveAliasDeclaration H (targetDecl target) true) as [rd|];
    [|apply faithful_ret].
  destruct (outgoingParseRoot H rd) as [root|]; [|apply faithful_ret].
  apply faithful_bind.
  - apply (faithful_reads (findOutgoingCalls_closed_form H parseResults root)).
  - intros calls. destruct (Nat.eqb (List.length calls) 0); apply faithful_ret.
Qed.

Lemma faithful_scanSourceFile symbolName targetDecl info items :
  cancellationFaithful (scanSourceFile H symbolName targetDecl info items).
Proof.
  unfold scanSourceFile. destruct info as [info|]; [|apply faithful_throw].
  destruct (isUserCode H info || isOpenByClient info); [|apply faithful_ret].
  apply faithful_bind.
  - unfold _getIncomingCallsForDeclaration.
    apply faithful_bind; [apply faithful_check|intros _].
    apply faithful_bind; [apply faithful_noteWalk|intros _].
    destruct (getParseResults H (getFilePath info)) as [pr|]; [|apply faithful_throw].
    apply faithful_bind; [|intros calls; apply faithful_ret].
    apply (faithful_reads
             (findIncomingCalls_closed_form H (getFilePath info) symbolName targetDecl pr)).
  - intros more. apply faithful_bind; [apply faithful_memory|intros _; apply faithful_ret].
Qed.

Lemma faithful_getIncomingCalls : cancellationFaithful (getIncomingCalls H filePath position).
Proof.
  apply faithful_withTarget. intros _ target.
  apply faithful_bind.
  - apply faithful_forEach. intros info items. apply faithful_scanSourceFile.
  - intros items. destruct (Nat.eqb (List.length items) 0); apply faithful_ret.
Qed.

Lemma withTarget_cancelled_at_entry {A}
    (k : ParseResults -> TargetDeclaration -> M (option A)) tok s :
  tok (checks s) = true -> withTarget H filePath position k tok s = Cancelled.
Proof.
  intros Htok. unfold withTarget, bind, throwIfCancellationRequested.
  rewrite Htok. reflexivity.
Qed.

End FaithfulOperations.

Lemma faithful_run {A} (m : M A) (s s' : ProgState) (a : A) (tok : CancellationToken) :
  cancellationFaithful m ->
  m neverCancelled s = Ret a s' ->
  m tok s = if cancelledWithin tok (checks s) (checks s' - checks s)
            then Cancelled else Ret a s'.
Proof.
  intros Hm E. specialize (Hm s). rewrite E in Hm. apply Hm.
Qed.

(** C9.  A token that is triggered when an operation starts, or when a
    walker visits a call expression, makes the operation, or the visit, raise
    the cancellation condition.  The condition reaches the caller as it is:
    when the operation, left alone, would return [result] after some reads of
    the token, then under any token it raises the cancellation condition if
    one of these reads sees the token triggered, with neither a partial list
    nor null in its place, and it returns [result] if none does. *)
Theorem cancellation_propagates (H : Host) (filePath : string) (position : Position.t) :
  (forall tok s,
     tok (checks s) = true ->
     onPrepare H filePath position tok s = Cancelled
     /\ getIncomingCalls H filePath position tok s = Cancelled
     /\ getOutgoingCalls H filePath position tok s = Cancelled)
  /\ (forall parseResults leftExpression calls tok s,
        tok (checks s) = true ->
        outgoingVisitCall H parseResults leftExpression calls tok s = Cancelled)
  /\ (forall path symbolName declaration parseResults leftExpression calls tok s,
        tok (checks s) = true ->
        incomingVisitCall H path symbolName declaration parseResults
          leftExpression calls tok s = Cancelled)
  /\ (forall tok s result s',
        onPrepare H filePath position neverCancelled s = Ret result s' ->
        onPrepare H filePath position tok s
        = if cancelledWithin tok (checks s) (checks s' - checks s)
          then Cancelled else Ret result s')
  /\ (forall tok s result s',
        getIncomingCalls H filePath position neverCancelled s = Ret result s' ->
        getIncomingCalls H filePath position tok s
        = if cancelledWithin tok (checks s) (checks s' - checks s)
          then Cancelled else Ret result s')
  /\ (forall tok s result s',
        getOutgoingCalls H filePath position neverCancelled s = Ret result s' ->
        getOutgoingCalls H filePath position tok s
        = if cancelledWithin tok (checks s) (checks s' - checks s)
          then Cancelled else Ret result s').
Proof.
  split.
  { intros tok s Htok. unfold onPrepare, getIncomingCalls, getOutgoingCalls.
    rewrite !withTarget_cancelled_at_entry by exact Htok. auto. }
  split.
  { intros pr l calls tok s Htok.
    unfold outgoingVisitCall, bind, throwIfCancellationRequested.
    rewrite Htok. reflexivity. }
  split.
  { intros path sym d pr l calls tok s Htok.
    unfold incomingVisitCall, bind, throwIfCancellationRequested.
    rewrite Htok. reflexivity. }
  split; [|split].
  - intros tok s result s'. apply faithful_run, faithful_onPrepare.
  - intros tok s result s'. apply faithful_run, faithful_getIncomingCalls.
  - intros tok s result s'. apply faithful_run, faithful_getOutgoingCalls.
Qed.

(** The token is triggered while [main] is walked, at the read made by the
    visit of its second call: the query raises the cancellation condition,
    and the record already built for the first call is not returned. *)
Lemma cancellation_propagates_witness :
  getOutgoingCalls (Examples.appHost "/src/app.py" Examples.everywhere) "/src/app.py"
    (Examples.pos 0 60) (fun k => Nat.eqb k 2) initialState
  = Cancelled.
Proof.
  destruct (cancellation_propagates (Examples.appHost "/src/app.py" Examples.everywhere)
              "/src/app.py" (Examples.pos 0 60)) as (_ & _ & _ & _ & _ & Hout).
  rewrite (Hout (fun k => Nat.eqb k 2) initialState
             (Some [CallHierarchyOutgoingCall.mk
                      (CallHierarchyItem.mk (Some "real") SymbolKind.Function
                         "file:///src/app.py" (Examples.span 0 4 8) (Examples.span 0 4 8))
                      [Examples.span 0 70 74; Examples.span 0 80 84]])
             (mkState 4 [] 0) eq_refl).
  reflexivity.
Defined.

(** ** A callee reached by its name and by an alias (C5) *)

Lemma renamed_fold_real realName spellings :
  fold_left (renamed realName) spellings (Some realName) = Some realName.
Proof.
  induction spellings as [|sp rest IH]; [reflexivity|].
  simpl. unfold renamed at 2. destruct (negb _); exact IH.
Qed.

Lemma renamed_fold_differs realName spellings : forall cur sp,
  In sp spellings -> Some sp <> cur ->
  fold_left (renamed realName) spellings cur = Some realName.
Proof.
  induction spellings as [|sp0 rest IH]; intros cur sp Hin Hne; [destruct Hin|].
  simpl. unfold renamed at 2.
  destruct (jsStringEqb cur (Some sp0)) eqn:E; simpl.
  - apply jsStringEqb_eq in E. destruct Hin as [->|Hin]; [congruence|].
    apply (IH cur sp Hin Hne).
  - apply renamed_fold_real.
Qed.

Section AliasPrecedence.

Context (H : Host) (parseResults : ParseResults).
Context (D : Declaration.t) (realName : string).
Hypothesis D_name : getNameFromDeclaration H D = Some realName.

Lemma touchOutgoing_name nameNode call :
  nameOfCall (touchOutgoing H parseResults nameNode D call)
  = renamed realName (nameOfCall call) (NameNode.value nameNode).
Proof.
  unfold touchOutgoing, nameOfCall, renamed. simpl. rewrite D_name.
  destruct (negb _); reflexivity.
Qed.

Lemma outgoingStep_names (sites : list OutgoingSite) : forall call,
  (forall site, In site sites -> snd site = D) ->
  option_map nameOfCall (fold_left (outgoingStep H parseResults) sites (Some call))
  = Some (fold_left (renamed realName)
            (map (fun site => NameNode.value (fst site)) sites) (nameOfCall call)).
Proof.
  induction sites as [|site rest IH]; intros call HD; [reflexivity|].
  simpl. unfold outgoingStep at 2, touchFound.
  rewrite IH by (intros x Hx; apply HD; right; exact Hx).
  rewrite (HD site (or_introl eq_refl)), touchOutgoing_name. reflexivity.
Qed.

(** Among call sites that all resolve to [D], one spelled with [D]'s own
    name is enough for the record to be named after [D]. *)
Lemma outgoingStep_real_name (sites : list OutgoingSite) (nameNode : NameNode.t) :
  (forall site, In site sites -> snd site = D) ->
  In (nameNode, D) sites ->
  NameNode.value nameNode = realName ->
  option_map nameOfCall (fold_left (outgoingStep H parseResults) sites None) = Some (Some realName).
Proof.
  intros HD Hin Hreal. destruct sites as [|first rest]; [destruct Hin|].
  simpl. unfold outgoingStep at 2, touchFound.
  rewrite outgoingStep_names by (intros x Hx; apply HD; right; exact Hx).
  rewrite (HD first (or_introl eq_refl)), touchOutgoing_name.
  unfold freshOutgoing, nameOfCall at 1. simpl.
  unfold renamed at 2. simpl. rewrite String.eqb_refl. simpl. f_equal.
  destruct (String.eqb (NameNode.value (fst first)) realName) eqn:E.
  - apply String.eqb_eq in E. rewrite E. apply renamed_fold_real.
  - apply String.eqb_neq in E.
    destruct Hin as [->|Hin]; [simpl in E; congruence|].
    apply renamed_fold_differs with (sp := realName).
    + apply in_map_iff. exists (nameNode, D). auto.
    + congruence.
Qed.

End AliasPrecedence.

(** C5.  Let the body walked by [getOutgoingCalls] hold a call site spelled
    with the own name of the declaration [D] and a call site spelled with
    another name, an alias, both resolving to [D], in either order; let [D]
    lie in a navigable file.  Then the walk holds exactly one record of [D]'s
    key, that record is returned, its displayed name is [D]'s own name, and
    its range list is made of the ranges of all the call sites of [D] in
    discovery order, the two sites among them. *)
Theorem alias_and_name_share_one_record (H : Host) (filePath : string)
    (position : Position.t) (tok : CancellationToken) (s : ProgState)
    (parseResults : ParseResults) (r : ReferencesResult) (target : TargetDeclaration)
    (resolvedDecl : Declaration.t) (parseRoot : ParseNode)
    (D : Declaration.t) (realName : string) (byName byAlias : NameNode.t) :
  cancelledWithin tok (checks s) (S (List.length (visitsOf parseRoot))) = false ->
  _parseResults H filePath = Some parseResults ->
  _getDeclaration H filePath position = Some r ->
  _getTargetDeclaration H filePath r = Some target ->
  resolveAliasDeclaration H (targetDecl target) true = Some resolvedDecl ->
  outgoingParseRoot H resolvedDecl = Some parseRoot ->
  In (byName, D) (outgoingSites H parseRoot) ->
  In (byAlias, D) (outgoingSites H parseRoot) ->
  getNameFromDeclaration H D = Some realName ->
  NameNode.value byName = realName ->
  NameNode.value byAlias <> realName ->
  (forall site,
     In site (outgoingSites H parseRoot) ->
     outgoingSiteKey site = declarationKey D -> snd site = D) ->
  canNavigateToFile H (Declaration.path D) = true ->
  exists calls call,
    getOutgoingCalls H filePath position tok s
    = Ret (Some (map (outgoingToUri H)
                   (filter (fun item =>
                              canNavigateToFile H
                                (CallHierarchyItem.uri (CallHierarchyOutgoingCall.to item)))
                      calls)))
          (ticks (List.length (visitsOf parseRoot)) (tick s))
    /\ filter (fun item => keyEqb (outgoingKey item) (declarationKey D)) calls = [call]
    /\ In (outgoingToUri H call)
          (map (outgoingToUri H)
             (filter (fun item =>
                        canNavigateToFile H
                          (CallHierarchyItem.uri (CallHierarchyOutgoingCall.to item)))
                calls))
    /\ CallHierarchyItem.name (CallHierarchyOutgoingCall.to call) = Some realName
    /\ CallHierarchyOutgoingCall.fromRanges call
       = map (fun site => rangeOfNameNode H parseResults (fst site))
           (filter (fun site => keyEqb (outgoingSiteKey site) (declarationKey D))
              (outgoingSites H parseRoot))
    /\ In (rangeOfNameNode H parseResults byName) (CallHierarchyOutgoingCall.fromRanges call)
    /\ In (rangeOfNameNode H parseResults byAlias) (CallHierarchyOutgoingCall.fromRanges call).
Proof.
  intros Htok Hpr Hr Ht Hres Hroot HinName HinAlias HnameD Hreal Halias Hsame Hnav.
  assert (Htok' : tok (checks s) = false
                  /\ cancelledWithin tok (checks (tick s))
                       (List.length (visitsOf parseRoot)) = false).
  { unfold cancelledWithin in *. simpl in Htok.
    apply orb_false_elim in Htok. exact Htok. }
  destruct Htok' as [Htok0 Htok1].
  set (calls := outgoingRecords H parseResults parseRoot).
  assert (Hnd : NoDup (map outgoingKey calls))
    by (apply recordOutgoing_NoDup; constructor).
  destruct (recordOutgoing_covers H parseResults (outgoingSites H parseRoot) []
              (byName, D) HinName) as (call & Hcall & Hkey).
  fold (outgoingRecords H parseResults parseRoot) in Hcall. fold calls in Hcall.
  change (outgoingSiteKey (byName, D)) with (declarationKey D) in Hkey.
  pose proof (outgoing_record_of_member calls call Hnd Hcall) as Hfind.
  rewrite Hkey in Hfind.
  assert (Hranges :
            CallHierarchyOutgoingCall.fromRanges call
            = map (fun site => rangeOfNameNode H parseResults (fst site))
                (filter (fun site => keyEqb (outgoingSiteKey site) (declarationKey D))
                   (outgoingSites H parseRoot))).
  { pose proof (recordOutgoing_ranges H parseResults (outgoingSites H parseRoot) []
                  (declarationKey D)) as Hr'.
    unfold rangesAt in Hr'. fold (outgoingRecords H parseResults parseRoot) in Hr'.
    fold calls in Hr'. rewrite Hfind in Hr'. exact Hr'. }
  assert (Hsite : forall n,
            In (n, D) (outgoingSites H parseRoot) ->
            In (n, D)
               (filter (fun site => keyEqb (outgoingSiteKey site) (declarationKey D))
                  (outgoingSites H parseRoot))).
  { intros n Hn. apply filter_In. split; [exact Hn|]. apply keyEqb_refl. }
  exists calls, call. split; [|split; [|split; [|split; [|split; [|split]]]]].
  - unfold getOutgoingCalls.
    rewrite (withTarget_run H filePath position _ tok s Htok0 Hpr Hr Ht).
    rewrite Hres, Hroot. unfold bind.
    rewrite (findOutgoingCalls_closed_form H parseResults parseRoot), Htok1.
    fold calls. destruct calls as [|c cs]; [destruct Hcall|]. reflexivity.
  - rewrite <- Hkey.
    apply (filter_hasKey_of_member CallHierarchyOutgoingCall.to calls call Hnd Hcall).
  - apply in_map. apply filter_In. split; [exact Hcall|].
    unfold outgoingKey, itemKey, declarationKey in Hkey. inversion Hkey as [[Huri Hrange]].
    rewrite Huri. exact Hnav.
  - pose proof (@aggregate_find _ _ CallHierarchyOutgoingCall.to outgoingSiteKey
                  (freshOutgoing H)
                  (fun site => touchOutgoing H parseResults (fst site) (snd site))
                  (outgoing_fresh_key H)
                  (fun site r => outgoing_touch_key H parseResults site r)
                  (outgoingSites H parseRoot) [] (declarationKey D)) as Hevolve.
    change (aggregate CallHierarchyOutgoingCall.to outgoingSiteKey (freshOutgoing H)
              (fun site => touchOutgoing H parseResults (fst site) (snd site))
              (outgoingSites H parseRoot) []) with calls in Hevolve.
    rewrite Hfind in Hevolve. simpl List.find in Hevolve.
    pose proof (@outgoingStep_real_name H parseResults D realName HnameD
                  (filter (fun site => keyEqb (outgoingSiteKey site) (declarationKey D))
                     (outgoingSites H parseRoot)) byName) as Hname.
    unfold outgoingStep in Hname. rewrite <- Hevolve in Hname.
    simpl in Hname. unfold nameOfCall in Hname.
    assert (E : Some (CallHierarchyItem.name (CallHierarchyOutgoingCall.to call))
                = Some (Some realName)).
    { apply Hname.
      - intros site Hin. apply filter_In in Hin. destruct Hin as [Hin Hk].
        apply Hsame; [exact Hin|]. apply keyEqb_eq. exact Hk.
      - apply Hsite. exact HinName.
      - exact Hreal. }
    inversion E. reflexivity.
  - exact Hranges.
  - rewrite Hranges.
    apply (in_map (fun site => rangeOfNameNode H parseResults (fst site)) _ (byName, D)).
    apply Hsite. exact HinName.
  - rewrite Hranges.
    apply (in_map (fun site => rangeOfNameNode H parseResults (fst site)) _ (byAlias, D)).
    apply Hsite. exact HinAlias.
Qed.

Lemma alias_and_name_share_one_record_witness :
  exists calls call,
    getOutgoingCalls Examples.swappedHost "/src/app.py" (Examples.pos 0 60)
      neverCancelled initialState
    = Ret (Some (map (outgoingToUri Examples.swappedHost)
                   (filter (fun item =>
                              canNavigateToFile Examples.swappedHost
                                (CallHierarchyItem.uri (CallHierarchyOutgoingCall.to item)))
                      calls)))
          (ticks 2 (tick initialState))
    /\ filter (fun item =>
                 keyEqb (outgoingKey item)
                   (declarationKey (Examples.realDecl "/src/app.py"))) calls = [call]
    /\ CallHierarchyItem.name (CallHierarchyOutgoingCall.to call) = Some "real"
    /\ CallHierarchyOutgoingCall.fromRanges call
       = [Examples.span 0 80 84; Examples.span 0 70 74].
Proof.
  destruct (@alias_and_name_share_one_record Examples.swappedHost "/src/app.py"
              (Examples.pos 0 60) neverCancelled initialState Examples.swappedResults
              (mkReferencesResult (NameN Examples.mainName) ["main"]
                 [Examples.swappedMainDecl])
              (mkTarget Examples.swappedMainDecl "/src/app.py" (Some "main"))
              Examples.swappedMainDecl Examples.swappedMainNode
              (Examples.realDecl "/src/app.py") "real"
              Examples.callsReal Examples.callsNick)
    as (calls & call & Hrun & Hone & _ & Hname & Hranges & _).
  - reflexivity.
  - reflexivity.
  - reflexivity.
  - reflexivity.
  - reflexivity.
  - reflexivity.
  - right. left. reflexivity.
  - left. reflexivity.
  - reflexivity.
  - reflexivity.
  - discriminate.
  - intros site [<-|[<-|[]]] _; reflexivity.
  - reflexivity.
  - exists calls, call. repeat split; assumption.
Defined.

(** Whichever spelling comes first, the record is named after the
    declaration: [real(); nick()] and [nick(); real()] side by side. *)
Example either_order_shows_the_real_name :
  getOutgoingCalls (Examples.appHost "/src/app.py" Examples.everywhere) "/src/app.py"
    (Examples.pos 0 60) neverCancelled initialState
  = Ret (Some [CallHierarchyOutgoingCall.mk
                 (CallHierarchyItem.mk (Some "real") SymbolKind.Function
                    "file:///src/app.py" (Examples.span 0 4 8) (Examples.span 0 4 8))
                 [Examples.span 0 70 74; Examples.span 0 80 84]])
        (mkState 4 [] 0)
  /\ getOutgoingCalls Examples.swappedHost "/src/app.py" (Examples.pos 0 60)
       neverCancelled initialState
     = Ret (Some [CallHierarchyOutgoingCall.mk
                    (CallHierarchyItem.mk (Some "real") SymbolKind.Function
                       "file:///src/app.py" (Examples.span 0 4 8) (Examples.span 0 4 8))
                    [Examples.span 0 80 84; Examples.span 0 70 74]])
           (mkState 3 [] 0).
Proof. split; reflexivity. Qed.

(** * Further properties of the provider *)

(** ** The anchor is one of the candidates *)

Lemma pickTarget_member (H : Host) (node : ParseNode) (decls : list Declaration.t) :
  forall targetDecl,
    pickTarget H node targetDecl decls = targetDecl
    \/ (In (pickTarget H node targetDecl decls) decls
        /\ isFunctionOrClass (pickTarget H node targetDecl decls) = true).
Proof.
  induction decls as [|d ds IH]; intros t; [left; reflexivity|].
  rewrite pickTarget_cons. unfold replaces.
  destruct ((hasTypeForDeclaration H d || negb (hasTypeForDeclaration H t))
            && isFunctionOrClass d) eqn:Hr.
  - apply andb_true_iff in Hr. destruct Hr as [_ Hfc].
    destruct (sameNode (Declaration.node d) node).
    + right. split; [left; reflexivity|exact Hfc].
    + destruct (IH d) as [->|[Hin Hk]].
      * right. split; [left; reflexivity|exact Hfc].
      * right. split; [right; exact Hin|exact Hk].
  - destruct (IH t) as [->|[Hin Hk]]; [left; reflexivity|].
    right. split; [right; exact Hin|exact Hk].
Qed.

(** X1.  The declaration [_getTargetDeclaration] answers is always one of
    the candidates it was given, and it is either the first candidate or a
    function or class declaration: no other kind of candidate ever displaces
    the first one. *)
Theorem anchor_is_a_candidate (H : Host) (filePath : string) (r : ReferencesResult)
    (target : TargetDeclaration) :
  _getTargetDeclaration H filePath r = Some target ->
  In (targetDecl target) (declarations r)
  /\ (hd_error (declarations r) = Some (targetDecl target)
      \/ isFunctionOrClass (targetDecl target) = true).
Proof.
  unfold _getTargetDeclaration.
  destruct (declarations r) as [|first rest] eqn:Hd; [discriminate|].
  intros E.
  assert (Ht : targetDecl target = pickTarget H (nodeAtOffset r) first (first :: rest))
    by (destruct (isAlias _); inversion E; reflexivity).
  rewrite Ht.
  destruct (pickTarget_member H (nodeAtOffset r) (first :: rest) first) as [->|[Hin Hk]].
  - split; [left; reflexivity|left; reflexivity].
  - split; [exact Hin|right; exact Hk].
Qed.

Lemma anchor_is_a_candidate_witness :
  In Examples.fFunctionDecl (declarations Examples.reboundRefs)
  /\ (hd_error (declarations Examples.reboundRefs) = Some Examples.fFunctionDecl
      \/ isFunctionOrClass Examples.fFunctionDecl = true).
Proof.
  apply (@anchor_is_a_candidate Examples.anchorHost "/src/a.py" Examples.reboundRefs
           (mkTarget Examples.fFunctionDecl "/src/a.py" (Some "f")) eq_refl).
Defined.

(** ** Typed and later declarations are preferred *)

Lemma advance_keeps_typed (H : Host) (rest : list Declaration.t) :
  forall targetDecl,
    hasTypeForDeclaration H targetDecl = true ->
    (forall x, In x rest ->
       hasTypeForDeclaration H x && isFunctionOrClass x = false) ->
    fold_left (advance H) rest targetDecl = targetDecl.
Proof.
  induction rest as [|x xs IH]; intros t Ht Hnone; [reflexivity|].
  simpl. unfold advance at 2, replaces. rewrite Ht. simpl.
  rewrite orb_false_r, (Hnone x (or_introl eq_refl)).
  apply IH; [exact Ht|]. intros y Hy. apply Hnone. right. exact Hy.
Qed.

(** X2.  When no candidate is defined by the node under the cursor, the
    anchor is the last candidate that is a function or a class with a
    declared type, if there is one: a declared type is always preferred, and
    among those the later declaration. *)
Theorem anchor_prefers_last_typed_declaration (H : Host) (filePath : string)
    (r : ReferencesResult) (seen rest : list Declaration.t) (decl : Declaration.t) :
  declarations r = seen ++ decl :: rest ->
  hasTypeForDeclaration H decl = true ->
  isFunctionOrClass decl = true ->
  (forall x, In x rest -> hasTypeForDeclaration H x && isFunctionOrClass x = false) ->
  (forall x, In x (declarations r) ->
     sameNode (Declaration.node x) (nodeAtOffset r) = false) ->
  option_map targetDecl (_getTargetDeclaration H filePath r) = Some decl.
Proof.
  intros Hd Htyped Hfc Hlast Hnode.
  unfold _getTargetDeclaration.
  destruct (declarations r) as [|first others] eqn:Hdecls;
    [destruct seen; discriminate|].
  assert (Hpick : pickTarget H (nodeAtOffset r) first (first :: others) = decl).
  { rewrite pickTarget_runs_through.
    - rewrite Hd, fold_left_app. simpl. unfold advance at 2, replaces.
      rewrite Htyped, Hfc. simpl. apply advance_keeps_typed; assumption.
    - intros pre x post E [_ Hs].
      rewrite (Hnode x) in Hs; [discriminate|].
      rewrite E. apply in_or_app. right. left. reflexivity. }
  rewrite Hpick. destruct (isAlias decl); reflexivity.
Qed.

Lemma anchor_prefers_last_typed_declaration_witness :
  option_map targetDecl
    (_getTargetDeclaration Examples.anchorHost "/src/g.py"
       (mkReferencesResult (NameN (Examples.nameNode 99 50 "g")) ["g"]
          [Examples.gDecl 10 0; Examples.gDecl 20 3; Examples.fVariableDecl]))
  = Some (Examples.gDecl 20 3).
Proof.
  apply (@anchor_prefers_last_typed_declaration Examples.anchorHost "/src/g.py"
           (mkReferencesResult (NameN (Examples.nameNode 99 50 "g")) ["g"]
              [Examples.gDecl 10 0; Examples.gDecl 20 3; Examples.fVariableDecl])
           [Examples.gDecl 10 0] [Examples.fVariableDecl] (Examples.gDecl 20 3)
           eq_refl eq_refl eq_refl).
  - intros x [<-|[]]. reflexivity.
  - intros x [<-|[<-|[<-|[]]]]; reflexivity.
Defined.

(** ** When [onPrepare] answers *)







(** ** The read of the first candidate is guarded *)

(** X4.  The part the three operations have in common before they go their
    own ways (the entry check, the parse results of the querying file, the
    declarations at the cursor, the test of an empty declaration list and
    the anchor selection) does not die of a [TypeError]: the read of
    [declarations[0]] in [_getTargetDeclaration] is behind the test of an
    empty list.  When an operation does die of a [TypeError], anchor
    selection has answered on a non-empty candidate list and the error comes
    from what the operation does with the target. *)
Theorem anchor_selection_is_guarded (H : Host) (filePath : string)
    (position : Position.t) {A}
    (k : ParseResults -> TargetDeclaration -> M (option A))
    (tok : CancellationToken) (s : ProgState) :
  withTarget H filePath position k tok s = TypeError ->
  exists parseResults r target,
    _parseResults H filePath = Some parseResults
    /\ _getDeclaration H filePath position = Some r
    /\ declarations r <> []
    /\ _getTargetDeclaration H filePath r = Some target
    /\ k parseResults target tok (tick s) = TypeError.
Proof.
  intros Hthrow.
  destruct (withTarget_cases H filePath position k tok s)
    as [[_ Hc]|[(_ & _ & Hc)|(_ & parseResults & r & target & Hpr & Hr & Hne & Ht & Hc)]];
    rewrite Hc in Hthrow; try discriminate.
  exists parseResults, r, target. auto.
Qed.

Lemma anchor_selection_is_guarded_witness :
  exists parseResults r target,
    _parseResults unparsedWorkspaceHost "/src/app.py" = Some parseResults
    /\ _getDeclaration unparsedWorkspaceHost "/src/app.py" (Examples.pos 0 4) = Some r
    /\ declarations r <> []
    /\ _getTargetDeclaration unparsedWorkspaceHost "/src/app.py" r = Some target
    /\ targetDecl target = Examples.realDecl "/src/app.py".
Proof.
  assert (Hthrow : getIncomingCalls unparsedWorkspaceHost "/src/app.py"
                     (Examples.pos 0 4) neverCancelled initialState = TypeError)
    by reflexivity.
  unfold getIncomingCalls in Hthrow.
  destruct (anchor_selection_is_guarded _ _ _ _ _ _ Hthrow)
    as (parseResults & r & target & Hpr & Hr & Hne & Ht & _).
  exists parseResults, r, target. repeat split; try assumption.
  unfold _getDeclaration in Hr. simpl in Hr. injection Hr as <-.
  simpl in Ht. injection Ht as <-. reflexivity.
Defined.

(** ** Where [getIncomingCalls] does die of a [TypeError] *)

Lemma scan_throws (H : Host) symbolName targetDecl (xs : list (option SourceFileInfo)) :
  (In None xs
   \/ exists info,
        In (Some info) xs
        /\ isScanned H info = true
        /\ getParseResults H (getFilePath info) = None) ->
  forall items s,
    forEachM (scanSourceFile H symbolName targetDecl) xs items neverCancelled s
    = TypeError.
Proof.
  induction xs as [|x rest IH]; intros Hbad items s.
  - destruct Hbad as [[]|(info & [] & _)].
  - cbn [forEachM]. unfold bind.
    destruct x as [info0|]; [|reflexivity].
    unfold scanSourceFile at 1. fold (isScanned H info0).
    destruct (isScanned H info0) eqn:Hs0.
    + destruct (getParseResults H (getFilePath info0)) as [pr|] eqn:Hp0;
        [|reflexivity].
      unfold bind at 1.
      destruct (getIncomingCallsForDeclaration_returns H pr (getFilePath info0)
                  symbolName targetDecl s) as (found & s1 & ->).
      unfold handleMemoryHighUsage, bind, ret. apply IH.
      destruct Hbad as [[E|Hin]|(info & [E|Hin] & Hs & Hp)].
      * discriminate.
      * left. exact Hin.
      * inversion E; subst. congruence.
      * right. exists info. auto.
    + unfold ret. apply IH.
      destruct Hbad as [[E|Hin]|(info & [E|Hin] & Hs & Hp)].
      * discriminate.
      * left. exact Hin.
      * inversion E; subst. congruence.
      * right. exists info. auto.
Qed.

(** X5.  The scan of [getIncomingCalls] trusts the host behind two non-null
    assertions.  A query that reaches the scan uncancelled dies of a
    [TypeError], instead of returning null, as soon as one candidate file has
    no parse results, or, for an alias target, when the program has no
    source-file entry for the querying file. *)
Theorem incoming_scan_throws_on_missing_host_data (H : Host) (filePath : string)
    (position : Position.t) (s : ProgState)
    (parseResults : ParseResults) (r : ReferencesResult) (target : TargetDeclaration) :
  _parseResults H filePath = Some parseResults ->
  _getDeclaration H filePath position = Some r ->
  _getTargetDeclaration H filePath r = Some target ->
  ((exists info,
      In info (candidateFiles H filePath (targetDecl target))
      /\ getParseResults H (getFilePath info) = None)
   \/ (isAlias (targetDecl target) = true /\ getSourceFileInfo H filePath = None)) ->
  getIncomingCalls H filePath position neverCancelled s = TypeError.
Proof.
  intros Hpr Hr Ht Hbad. unfold getIncomingCalls.
  rewrite (withTarget_run H filePath position _ neverCancelled s eq_refl Hpr Hr Ht).
  unfold bind. rewrite scan_throws; [reflexivity|].
  unfold candidateFiles, incomingSourceFiles in *.
  destruct Hbad as [(info & Hin & Hp)|[Ha Hinfo]].
  - right. exists info. apply filter_In in Hin. destruct Hin as [Hin Hs].
    split; [|split; assumption].
    destruct (isAlias (targetDecl target)).
    + destruct (getSourceFileInfo H filePath) as [i|]; [|destruct Hin].
      destruct Hin as [->|[]]. left. reflexivity.
    + apply in_map. exact Hin.
  - left. rewrite Ha, Hinfo. left. reflexivity.
Qed.

Lemma incoming_scan_throws_on_missing_host_data_witness :
  getIncomingCalls unparsedWorkspaceHost "/src/app.py" (Examples.pos 0 4)
    neverCancelled initialState
  = TypeError.
Proof.
  apply (@incoming_scan_throws_on_missing_host_data unparsedWorkspaceHost
           "/src/app.py" (Examples.pos 0 4)
           initialState Examples.appResults
           (mkReferencesResult (NameN Examples.realName) ["real"]
              [Examples.realDecl "/src/app.py"])
           (mkTarget (Examples.realDecl "/src/app.py") "/src/app.py" (Some "real"))
           eq_refl eq_refl eq_refl).
  left. exists (mkSourceFileInfo "/lib/open.py" true). split; [|reflexivity].
  vm_compute. right. left. reflexivity.
Defined.

(** ** The order of the records and the number of their ranges *)

Lemma keyEqb_sym (a b : Key) : keyEqb a b = keyEqb b a.
Proof.
  destruct (keyEqb b a) eqn:E.
  - apply keyEqb_eq in E. subst. apply keyEqb_refl.
  - apply keyEqb_neq. intros ->. rewrite keyEqb_refl in E. discriminate.
Qed.

Section AggregationOrder.

Context {R Site : Type}.
Context (item : R -> CallHierarchyItem.t) (ranges : R -> list Range.t).
Context (siteKey : Site -> Key) (siteRange : Site -> Range.t).
Context (fresh : Site -> R) (touch : Site -> R -> R).

Hypothesis fresh_key : forall site, keyOf item (fresh site) = siteKey site.
Hypothesis touch_key : forall site r, keyOf item (touch site r) = keyOf item r.
Hypothesis fresh_ranges : forall site, ranges (fresh site) = [].
Hypothesis touch_ranges :
  forall site r, ranges (touch site r) = ranges r ++ [siteRange site].

Lemma find_hasKey_existsb k (l : list R) :
  existsb (keyEqb k) (map (keyOf item) l)
  = match List.find (hasKey item k) l with Some _ => true | None => false end.
Proof.
  induction l as [|x rest IH]; [reflexivity|]. simpl.
  unfold hasKey at 1. rewrite (keyEqb_sym k).
  destruct (keyEqb (keyOf item x) k); [reflexivity|exact IH].
Qed.

Lemma aggregate_keys (sites : list Site) : forall l,
  map (keyOf item) (aggregate item siteKey fresh touch sites l)
  = fold_left addKey (map siteKey sites) (map (keyOf item) l).
Proof.
  induction sites as [|site rest IH]; intros l; [reflexivity|].
  simpl. rewrite IH. f_equal.
  rewrite (@recordSite_keys _ _ item siteKey fresh touch fresh_key touch_key).
  unfold addKey. rewrite find_hasKey_existsb.
  destruct (List.find (hasKey item (siteKey site)) l); reflexivity.
Qed.

Lemma rangeCount_app (l l' : list R) :
  rangeCount ranges (l ++ l') = rangeCount ranges l + rangeCount ranges l'.
Proof. unfold rangeCount. rewrite map_app, list_sum_app. reflexivity. Qed.

Lemma mutateFirst_count (p : R -> bool) site (l : list R) :
  existsb p l = true ->
  rangeCount ranges (mutateFirst p (touch site) l) = S (rangeCount ranges l).
Proof.
  induction l as [|x rest IH]; [discriminate|]. simpl. intros Hex.
  destruct (p x); unfold rangeCount in *; simpl.
  - rewrite touch_ranges, length_app. simpl. lia.
  - rewrite IH by exact Hex. lia.
Qed.

Lemma recordSite_count (l : list R) site :
  rangeCount ranges (recordSite item siteKey fresh touch l site)
  = S (rangeCount ranges l).
Proof.
  unfold recordSite, upsert.
  destruct (List.find (hasKey item (siteKey site)) l) as [r|] eqn:Hfind.
  - apply mutateFirst_count. apply existsb_exists. exists r.
    apply find_some in Hfind. exact Hfind.
  - rewrite mutateFirst_count.
    + rewrite rangeCount_app. unfold rangeCount at 2. simpl.
      rewrite fresh_ranges. simpl. lia.
    + rewrite existsb_app. apply orb_true_iff. right. simpl.
      unfold hasKey. rewrite fresh_key, keyEqb_refl. reflexivity.
Qed.

Lemma aggregate_count (sites : list Site) : forall l,
  rangeCount ranges (aggregate item siteKey fresh touch sites l)
  = rangeCount ranges l + List.length sites.
Proof.
  induction sites as [|site rest IH]; intros l; simpl; [lia|].
  rewrite IH, recordSite_count. lia.
Qed.

End AggregationOrder.

(** X6.  Whatever the token does, the records a returning run of the outgoing
    walker holds stand in the order in which the walk first records their
    callee (a record is pushed at the end and never moved), and the number
    of ranges they hold together is the number of recordings the walk made:
    one for each declaration, resolving to a function or a class, of the
    callee name of a visited call or of a visited property member.  No
    recording is dropped and none is merged with another: a call whose name
    has several such declarations is recorded once per declaration, so that
    its range can stand more than once under the same callee. *)
Theorem outgoing_records_in_first_call_order (H : Host) (parseResults : ParseResults)
    (root : ParseNode) (tok : CancellationToken) (s s' : ProgState)
    (calls : list CallHierarchyOutgoingCall.t) :
  findOutgoingCalls H root parseResults tok s = Ret calls s' ->
  map outgoingKey calls
  = firstOccurrences (map outgoingSiteKey (outgoingSites H root))
  /\ rangeCount CallHierarchyOutgoingCall.fromRanges calls
     = List.length (outgoingSites H root).
Proof.
  intros Hrun. rewrite (findOutgoingCalls_closed_form H parseResults root) in Hrun.
  destruct (cancelledWithin tok (checks s) _); [discriminate|].
  inversion Hrun; subst calls s'. unfold outgoingRecords. split.
  - exact (@aggregate_keys _ _ CallHierarchyOutgoingCall.to outgoingSiteKey
             (freshOutgoing H)
             (fun site => touchOutgoing H parseResults (fst site) (snd site))
             (outgoing_fresh_key H)
             (fun site r => outgoing_touch_key H parseResults site r)
             (outgoingSites H root) []).
  - exact (@aggregate_count _ _ CallHierarchyOutgoingCall.to
             CallHierarchyOutgoingCall.fromRanges outgoingSiteKey
             (fun site => rangeOfNameNode H parseResults (fst site))
             (freshOutgoing H)
             (fun site => touchOutgoing H parseResults (fst site) (snd site))
             (outgoing_fresh_key H)
             (fun _ => eq_refl)
             (fun site r => outgoing_touch_ranges H parseResults site r)
             (outgoingSites H root) []).
Qed.

Lemma outgoing_records_in_first_call_order_witness :
  map outgoingKey
    [CallHierarchyOutgoingCall.mk
       (CallHierarchyItem.mk (Some "nick") SymbolKind.Function "/src/app.py"
          (Examples.span 0 4 8) (Examples.span 0 4 8))
       [Examples.span 0 80 84; Examples.span 0 80 84]]
  = [("/src/app.py", Examples.span 0 4 8)]
  /\ rangeCount CallHierarchyOutgoingCall.fromRanges
       [CallHierarchyOutgoingCall.mk
          (CallHierarchyItem.mk (Some "nick") SymbolKind.Function "/src/app.py"
             (Examples.span 0 4 8) (Examples.span 0 4 8))
          [Examples.span 0 80 84; Examples.span 0 80 84]]
     = 2.
Proof.
  destruct (@outgoing_records_in_first_call_order twiceDeclaredHost
              Examples.appResults nickOnlyNode neverCancelled initialState
              (ticks 1 initialState)
              [CallHierarchyOutgoingCall.mk
                 (CallHierarchyItem.mk (Some "nick") SymbolKind.Function "/src/app.py"
                    (Examples.span 0 4 8) (Examples.span 0 4 8))
                 [Examples.span 0 80 84; Examples.span 0 80 84]]
              eq_refl)
    as [Hkeys Hcount].
  split; [exact Hkeys|exact Hcount].
Defined.

(** X7.  The same holds of the incoming walker on a file: its records stand
    in the order in which the walk first records their calling scope, and
    the number of ranges they hold together is the number of recordings the
    walk made: one for each visited call whose callee matches the target,
    and one for each subtype of the left-hand type of a visited member
    access on which the member is declared by the target, whenever the scope
    of the name is found.  A method call that matches in both visits has
    its range stored more than once. *)
Theorem incoming_records_in_first_call_order (H : Host) (filePath : string)
    (symbolName : JsString) (declaration : Declaration.t)
    (parseResults : ParseResults) (tok : CancellationToken) (s s' : ProgState)
    (calls : list CallHierarchyIncomingCall.t) :
  findIncomingCalls H filePath symbolName declaration parseResults tok s = Ret calls s' ->
  map incomingKey calls
  = firstOccurrences
      (map (incomingSiteKey H filePath parseResults)
         (incomingSites H symbolName declaration (parseTree parseResults)))
  /\ rangeCount CallHierarchyIncomingCall.fromRanges calls
     = List.length (incomingSites H symbolName declaration (parseTree parseResults)).
Proof.
  intros Hrun.
  rewrite (findIncomingCalls_closed_form H filePath symbolName declaration parseResults)
    in Hrun.
  destruct (cancelledWithin tok (checks s) _); [discriminate|].
  inversion Hrun; subst calls s'. unfold incomingRecords. split.
  - exact (@aggregate_keys _ _ CallHierarchyIncomingCall.from
             (incomingSiteKey H filePath parseResults)
             (freshIncoming H filePath parseResults)
             (fun site => pushIncomingRange (rangeOfNameNode H parseResults (fst site)))
             (fun _ => eq_refl) (fun _ _ => eq_refl)
             (incomingSites H symbolName declaration (parseTree parseResults)) []).
  - exact (@aggregate_count _ _ CallHierarchyIncomingCall.from
             CallHierarchyIncomingCall.fromRanges
             (incomingSiteKey H filePath parseResults)
             (fun site => rangeOfNameNode H parseResults (fst site))
             (freshIncoming H filePath parseResults)
             (fun site => pushIncomingRange (rangeOfNameNode H parseResults (fst site)))
             (fun _ => eq_refl) (fun _ => eq_refl) (fun _ _ => eq_refl)
             (incomingSites H symbolName declaration (parseTree parseResults)) []).
Qed.

Lemma incoming_records_in_first_call_order_witness :
  map incomingKey
    [CallHierarchyIncomingCall.mk
       (CallHierarchyItem.mk (Some "(module) /src/zoo.py") SymbolKind.Module_
          "/src/zoo.py" (Examples.span 0 0 0) (Examples.span 0 0 0))
       [Examples.span 0 204 208; Examples.span 0 204 208]]
  = [("/src/zoo.py", Examples.span 0 0 0)]
  /\ rangeCount CallHierarchyIncomingCall.fromRanges
       [CallHierarchyIncomingCall.mk
          (CallHierarchyItem.mk (Some "(module) /src/zoo.py") SymbolKind.Module_
             "/src/zoo.py" (Examples.span 0 0 0) (Examples.span 0 0 0))
          [Examples.span 0 204 208; Examples.span 0 204 208]]
     = 2.
Proof.
  destruct (@incoming_records_in_first_call_order zooHost "/src/zoo.py"
              (Some "purr") purrDecl zooResults neverCancelled initialState
              (ticks 2 initialState)
              [CallHierarchyIncomingCall.mk
                 (CallHierarchyItem.mk (Some "(module) /src/zoo.py") SymbolKind.Module_
                    "/src/zoo.py" (Examples.span 0 0 0) (Examples.span 0 0 0))
                 [Examples.span 0 204 208; Examples.span 0 204 208]]
              eq_refl)
    as [Hkeys Hcount].
  split; [exact Hkeys|exact Hcount].
Defined.

(** ** What the two walkers make of a member access *)

Lemma flat_map_guard {A B} (f : A -> bool) (x : B) (l : list A) :
  flat_map (fun a => if f a then [x] else []) l
  = repeat x (List.length (filter f l)).
Proof.
  induction l as [|a rest IH]; [reflexivity|]. simpl.
  destruct (f a); simpl; rewrite IH; reflexivity.
Qed.

Lemma recordIncoming_again (H : Host) filePath parseResults nameNode scope ranges :
  recordIncoming H filePath parseResults
    [CallHierarchyIncomingCall.mk (incomingCallSource H filePath parseResults scope) ranges]
    (nameNode, scope)
  = [CallHierarchyIncomingCall.mk (incomingCallSource H filePath parseResults scope)
       (ranges ++ [rangeOfNameNode H parseResults nameNode])].
Proof.
  unfold recordIncoming, recordSite, upsert. simpl.
  unfold hasKey, keyOf, incomingSiteKey. simpl. rewrite keyEqb_refl.
  simpl. rewrite keyEqb_refl. reflexivity.
Qed.

Lemma recordIncoming_first (H : Host) filePath parseResults nameNode scope :
  recordIncoming H filePath parseResults [] (nameNode, scope)
  = [CallHierarchyIncomingCall.mk (incomingCallSource H filePath parseResults scope)
       [rangeOfNameNode H parseResults nameNode]].
Proof.
  unfold recordIncoming, recordSite, upsert. simpl.
  unfold hasKey, keyOf, incomingSiteKey. simpl. rewrite keyEqb_refl. reflexivity.
Qed.

Lemma recordIncoming_same_scope (H : Host) filePath parseResults nameNode scope ranges n :
  fold_left (recordIncoming H filePath parseResults) (repeat (nameNode, scope) n)
    [CallHierarchyIncomingCall.mk (incomingCallSource H filePath parseResults scope) ranges]
  = [CallHierarchyIncomingCall.mk (incomingCallSource H filePath parseResults scope)
       (ranges ++ repeat (rangeOfNameNode H parseResults nameNode) n)].
Proof.
  revert ranges. induction n as [|n IH]; intros ranges; simpl.
  - rewrite app_nil_r. reflexivity.
  - rewrite recordIncoming_again, IH, <- app_assoc. reflexivity.
Qed.

(** X8.  The incoming walker counts a matching method call [obj.m()] once in
    [visitCall] and once more in [visitMemberAccess] for every subtype of the
    type of [obj] on which the member is declared by the target: unlike the
    outgoing walker, its [visitMemberAccess] does not ask whether the member
    is a property.  The record of the enclosing scope holds the range of [m]
    that many times. *)
Theorem incoming_method_call_is_counted_per_path (H : Host) (filePath : string)
    (symbolName : JsString) (declaration : Declaration.t)
    (parseResults : ParseResults) (callId accessId : nat)
    (obj m : NameNode.t) (scope : ExecutionScopeNode) (leftHandType : PyType)
    (s : ProgState) :
  parseTree parseResults = CallN callId (MemberAccessN accessId (NameN obj) m) [] ->
  getExecutionScopeNode H m = Some scope ->
  incomingCallMatches H symbolName declaration m = true ->
  getType H (NameN obj) = Some leftHandType ->
  findIncomingCalls H filePath symbolName declaration parseResults neverCancelled s
  = Ret [CallHierarchyIncomingCall.mk
           (incomingCallSource H filePath parseResults scope)
           (repeat (rangeOfNameNode H parseResults m)
              (1 + List.length
                     (filter (incomingSubtypeMatches H declaration m)
                        (subtypesOf leftHandType))))]
        (ticks 2 s).
Proof.
  intros Htree Hscope Hcall Htype.
  rewrite (findIncomingCalls_closed_form H filePath symbolName declaration parseResults).
  rewrite cancelledWithin_never. unfold incomingRecords, incomingSites.
  rewrite Htree. cbn [visitsOf flat_map app List.length].
  f_equal. cbn [incomingSitesOfVisit calleeNameNode]. rewrite Hcall.
  assert (Hname : jsStringEqb (Some (NameNode.value m)) symbolName = true).
  { unfold incomingCallMatches in Hcall. apply andb_true_iff in Hcall. tauto. }
  rewrite Hname, Htype. unfold incomingSitesOfName. rewrite Hscope.
  rewrite app_nil_r, flat_map_guard. cbn [app fold_left].
  rewrite recordIncoming_first, recordIncoming_same_scope. reflexivity.
Qed.

Lemma incoming_method_call_is_counted_per_path_witness :
  findIncomingCalls zooHost "/src/zoo.py" (Some "purr") purrDecl zooResults
    neverCancelled initialState
  = Ret [CallHierarchyIncomingCall.mk
           (CallHierarchyItem.mk (Some "(module) /src/zoo.py") SymbolKind.Module_
              "/src/zoo.py" (Examples.span 0 0 0) (Examples.span 0 0 0))
           [Examples.span 0 204 208; Examples.span 0 204 208]]
        (ticks 2 initialState).
Proof.
  exact (@incoming_method_call_is_counted_per_path zooHost "/src/zoo.py" (Some "purr")
           purrDecl zooResults 80 81 catName purrName ModuleScope (ClassT catType)
           initialState eq_refl eq_refl eq_refl eq_refl).
Defined.

Lemma outgoingSitesOfDeclaration_in (H : Host) nameNode declaration site :
  In site (outgoingSitesOfDeclaration H nameNode declaration)
  <-> exists resolvedDecl,
        resolveAliasDeclaration H declaration true = Some resolvedDecl
        /\ isFunctionOrClass resolvedDecl = true
        /\ site = (nameNode, resolvedDecl).
Proof.
  unfold outgoingSitesOfDeclaration.
  destruct (resolveAliasDeclaration H declaration true) as [rd|].
  - destruct (isFunctionOrClass rd) eqn:Hfc; simpl; split.
    + intros [<-|[]]. exists rd. auto.
    + intros (rd' & E & _ & ->). inversion E. auto.
    + intros [].
    + intros (rd' & E & Hfc' & _). inversion E; subst. congruence.
  - simpl. split; [intros []|]. intros (rd' & E & _). discriminate.
Qed.

Lemma outgoingPropertyDecls_in (H : Host) memberName subtype decl :
  In decl (outgoingPropertyDecls H memberName subtype)
  <-> isClassInstance (makeTopLevelTypeVarsConcrete H subtype) = true
      /\ exists memberInfo memberType,
           lookUpObjectMember (makeTopLevelTypeVarsConcrete H subtype)
             (NameNode.value memberName) = Some memberInfo
           /\ getTypeOfMember H memberInfo = Some memberType
           /\ isClassInstance memberType = true
           /\ isPropertyClassType memberType = true
           /\ In decl (getDeclarations (symbol memberInfo)).
Proof.
  unfold outgoingPropertyDecls. cbv zeta.
  destruct (isClassInstance (makeTopLevelTypeVarsConcrete H subtype)); simpl.
  2:{ split; [intros []|intros [E _]; discriminate]. }
  destruct (lookUpObjectMember _ _) as [memberInfo|].
  2:{ split; [intros []|]. intros (_ & mi & mt & E & _). discriminate. }
  destruct (getTypeOfMember H memberInfo) as [memberType|] eqn:Ht.
  2:{ split; [intros []|]. intros (_ & mi & mt & E & Ht' & _).
      inversion E; subst. congruence. }
  destruct (isClassInstance memberType && isPropertyClassType memberType) eqn:Hp.
  - apply andb_true_iff in Hp. split.
    + intros Hin. split; [reflexivity|]. exists memberInfo, memberType. tauto.
    + intros (_ & mi & mt & E & _ & _ & _ & Hin). inversion E; subst. exact Hin.
  - split; [intros []|]. intros (_ & mi & mt & E & Ht' & Hi & Hpc & _).
    inversion E; subst. rewrite Ht in Ht'. inversion Ht'; subst.
    rewrite Hi, Hpc in Hp. discriminate.
Qed.

Lemma recordOutgoing_count (H : Host) parseResults sites calls :
  rangeCount CallHierarchyOutgoingCall.fromRanges
    (fold_left (recordOutgoing H parseResults) sites calls)
  = rangeCount CallHierarchyOutgoingCall.fromRanges calls + List.length sites.
Proof.
  exact (@aggregate_count _ _ CallHierarchyOutgoingCall.to
           CallHierarchyOutgoingCall.fromRanges outgoingSiteKey
           (fun site => rangeOfNameNode H parseResults (fst site))
           (freshOutgoing H)
           (fun site => touchOutgoing H parseResults (fst site) (snd site))
           (outgoing_fresh_key H)
           (fun _ => eq_refl)
           (fun site r => outgoing_touch_ranges H parseResults site r)
           sites calls).
Qed.

(** X9.  The [visitMemberAccess] of the outgoing walker changes the records
    exactly when the member is a property: some subtype of the type of the
    left expression is, once made concrete, a class instance on which the
    member is found with the type of a property instance, and one of the
    member's declarations resolves to a function or a class.  A plain
    attribute or a method accessed through a member access is left to
    [visitCall]. *)
Theorem member_access_recorded_iff_property (H : Host) (parseResults : ParseResults)
    (leftExpression : ParseNode) (memberName : NameNode.t)
    (calls calls' : list CallHierarchyOutgoingCall.t)
    (tok : CancellationToken) (s s' : ProgState) :
  outgoingVisitMemberAccess H parseResults leftExpression memberName calls tok s
  = Ret calls' s' ->
  (calls' <> calls
   <-> exists leftHandType subtype memberInfo memberType decl resolvedDecl,
         getType H leftExpression = Some leftHandType
         /\ In subtype (subtypesOf leftHandType)
         /\ isClassInstance (makeTopLevelTypeVarsConcrete H subtype) = true
         /\ lookUpObjectMember (makeTopLevelTypeVarsConcrete H subtype)
              (NameNode.value memberName) = Some memberInfo
         /\ getTypeOfMember H memberInfo = Some memberType
         /\ isClassInstance memberType = true
         /\ isPropertyClassType memberType = true
         /\ In decl (getDeclarations (symbol memberInfo))
         /\ resolveAliasDeclaration H decl true = Some resolvedDecl
         /\ isFunctionOrClass resolvedDecl = true).
Proof.
  intros Hrun.
  set (sites := outgoingSitesOfVisit H (MemberAccessVisit leftExpression memberName)).
  assert (Hcalls : calls' = fold_left (recordOutgoing H parseResults) sites calls).
  { unfold outgoingVisitMemberAccess, bind, throwIfCancellationRequested, ret in Hrun.
    destruct (tok (checks s)); [discriminate|].
    injection Hrun as <- _.
    apply (outgoing_visit_as_sites H parseResults
             (MemberAccessVisit leftExpression memberName) calls). }
  assert (Hsites : calls' <> calls <-> exists site, In site sites).
  { rewrite Hcalls. split.
    - intros Hne. destruct sites as [|site rest]; [exfalso; apply Hne; reflexivity|].
      exists site. left. reflexivity.
    - intros [site Hin] E.
      pose proof (recordOutgoing_count H parseResults sites calls) as Hc.
      rewrite E in Hc. destruct sites; [destruct Hin|]. simpl in Hc. lia. }
  clear Hrun Hcalls. destruct Hsites as [Hchanged Hsite]. subst sites.
  cbn [outgoingSitesOfVisit] in *. split.
  - intros Hne. destruct (Hchanged Hne) as [site Hin]. clear Hchanged Hsite Hne.
    destruct (getType H leftExpression) as [leftHandType|]; [|destruct Hin].
    apply in_flat_map in Hin. destruct Hin as (subtype & Hsub & Hin).
    apply in_flat_map in Hin. destruct Hin as (decl & Hdecl & Hin).
    apply outgoingPropertyDecls_in in Hdecl.
    destruct Hdecl as (Hinst & memberInfo & memberType & Hl & Ht & Hi & Hp & Hd).
    apply outgoingSitesOfDeclaration_in in Hin. destruct Hin as (rd & Hr & Hfc & _).
    exists leftHandType, subtype, memberInfo, memberType, decl, rd. tauto.
  - intros (leftHandType & subtype & memberInfo & memberType & decl & rd
            & Htype & Hsub & Hinst & Hl & Ht & Hi & Hp & Hd & Hr & Hfc).
    apply Hsite. rewrite Htype.
    exists (memberName, rd). apply in_flat_map. exists subtype. split; [exact Hsub|].
    apply in_flat_map. exists decl. split.
    + apply outgoingPropertyDecls_in. split; [exact Hinst|].
      exists memberInfo, memberType. tauto.
    + apply outgoingSitesOfDeclaration_in. exists rd. tauto.
Qed.

Lemma member_access_recorded_iff_property_witness :
  (exists calls',
     outgoingVisitMemberAccess propertyZooHost zooResults (NameN catName) purrName []
       neverCancelled initialState = Ret calls' (tick initialState)
     /\ calls' <> [])
  /\ outgoingVisitMemberAccess zooHost zooResults (NameN catName) purrName []
       neverCancelled initialState = Ret [] (tick initialState).
Proof.
  split.
  - eexists. split; [reflexivity|].
    apply (proj2 (@member_access_recorded_iff_property propertyZooHost zooResults
                    (NameN catName) purrName [] _ neverCancelled initialState
                    (tick initialState) eq_refl)).
    exists (ClassT catType), (ClassT catType),
      (mkClassMember (mkSymbol false [purrDecl]) "Cat"), propertyType, purrDecl, purrDecl.
    repeat split; try reflexivity; left; reflexivity.
  - reflexivity.
Defined.

(** ** What the two queries compute *)







(** ** What a returned record stands for *)

Lemma addKey_fold_in (keys : list Key) : forall seen k,
  In k (fold_left addKey keys seen) -> In k seen \/ In k keys.
Proof.
  induction keys as [|x rest IH]; intros seen k Hin; [left; exact Hin|].
  simpl in Hin. apply IH in Hin. destruct Hin as [Hin|Hin]; [|right; right; exact Hin].
  unfold addKey in Hin. destruct (existsb (keyEqb x) seen); [left; exact Hin|].
  apply in_app_or in Hin. destruct Hin as [Hin|[<-|[]]]; [left; exact Hin|].
  right. left. reflexivity.
Qed.

Lemma outgoingSites_origin (H : Host) (root : ParseNode) (site : OutgoingSite) :
  In site (outgoingSites H root) ->
  exists v declaration,
    In v (visitsOf root)
    /\ recorderInput H v (fst site) declaration
    /\ resolveAliasDeclaration H declaration true = Some (snd site)
    /\ isFunctionOrClass (snd site) = true.
Proof.
  unfold outgoingSites. intros Hin. apply in_flat_map in Hin.
  destruct Hin as (v & Hv & Hin). exists v.
  destruct v as [l|l m]; cbn [outgoingSitesOfVisit] in Hin.
  - destruct (calleeNameNode l) as [nn|] eqn:Hcallee; [|destruct Hin].
    destruct (getDeclarationsForNameNode H nn) as [decls|] eqn:Hdecls; [|destruct Hin].
    apply in_flat_map in Hin. destruct Hin as (decl & Hdecl & Hin).
    apply outgoingSitesOfDeclaration_in in Hin. destruct Hin as (rd & Hres & Hfc & ->).
    exists decl. simpl. repeat split; try assumption.
    exists decls. split; assumption.
  - destruct (getType H l) as [t|] eqn:Htype; [|destruct Hin].
    apply in_flat_map in Hin. destruct Hin as (subtype & Hsub & Hin).
    apply in_flat_map in Hin. destruct Hin as (decl & Hdecl & Hin).
    apply outgoingSitesOfDeclaration_in in Hin. destruct Hin as (rd & Hres & Hfc & ->).
    exists decl. simpl. repeat split; try assumption.
    exists t, subtype. repeat split; assumption.
Qed.

Lemma outgoing_record_origin (H : Host) parseResults (root : ParseNode)
    (call : CallHierarchyOutgoingCall.t) :
  In call (outgoingRecords H parseResults root) ->
  exists site,
    In site (outgoingSites H root)
    /\ outgoingKey call = outgoingSiteKey site
    /\ In (rangeOfNameNode H parseResults (fst site))
          (CallHierarchyOutgoingCall.fromRanges call).
Proof.
  intros Hin.
  assert (Hkeys : map outgoingKey (outgoingRecords H parseResults root)
                  = firstOccurrences (map outgoingSiteKey (outgoingSites H root))).
  { exact (@aggregate_keys _ _ CallHierarchyOutgoingCall.to outgoingSiteKey
             (freshOutgoing H)
             (fun site => touchOutgoing H parseResults (fst site) (snd site))
             (outgoing_fresh_key H)
             (fun site r => outgoing_touch_key H parseResults site r)
             (outgoingSites H root) []). }
  assert (Hk : In (outgoingKey call) (map outgoingSiteKey (outgoingSites H root))).
  { pose proof (in_map outgoingKey _ _ Hin) as Hmem. rewrite Hkeys in Hmem.
    apply addKey_fold_in in Hmem. destruct Hmem as [[]|Hmem]. exact Hmem. }
  apply in_map_iff in Hk. destruct Hk as (site & Hkey & Hsite).
  exists site. split; [exact Hsite|]. split; [symmetry; exact Hkey|].
  assert (Hnd : NoDup (map outgoingKey (outgoingRecords H parseResults root)))
    by (apply recordOutgoing_NoDup; constructor).
  pose proof (outgoing_record_of_member _ call Hnd Hin) as Hfind.
  pose proof (recordOutgoing_ranges H parseResults (outgoingSites H root) []
                (outgoingKey call)) as Hranges.
  fold (outgoingRecords H parseResults root) in Hranges.
  unfold rangesAt in Hranges. rewrite Hfind in Hranges. simpl in Hranges.
  rewrite Hranges.
  apply (in_map (fun x : OutgoingSite => rangeOfNameNode H parseResults (fst x))).
  apply filter_In. split; [exact Hsite|]. rewrite Hkey. apply keyEqb_refl.
Qed.

(** X12.  Every record a query for outgoing calls returns stands for a call
    the walk met: the walked root has a visit that hands the recorder a
    name node and a declaration which the evaluator resolves to a function
    or a class in a navigable file; the record carries the locator of that
    file and the range of that declaration, and the range of the name node,
    converted with the line table of the querying file, is among its
    call-site ranges. *)
Theorem outgoing_items_are_navigable_callees (H : Host) (filePath : string)
    (position : Position.t) (tok : CancellationToken) (s s' : ProgState)
    (callItems : list CallHierarchyOutgoingCall.t) (item : CallHierarchyOutgoingCall.t) :
  getOutgoingCalls H filePath position tok s = Ret (Some callItems) s' ->
  In item callItems ->
  exists parseResults r target targetResolved parseRoot v nameNode declaration resolvedDecl,
    _parseResults H filePath = Some parseResults
    /\ _getDeclaration H filePath position = Some r
    /\ _getTargetDeclaration H filePath r = Some target
    /\ resolveAliasDeclaration H (targetDecl target) true = Some targetResolved
    /\ outgoingParseRoot H targetResolved = Some parseRoot
    /\ In v (visitsOf parseRoot)
    /\ recorderInput H v nameNode declaration
    /\ resolveAliasDeclaration H declaration true = Some resolvedDecl
    /\ isFunctionOrClass resolvedDecl = true
    /\ canNavigateToFile H (Declaration.path resolvedDecl) = true
    /\ CallHierarchyItem.uri (CallHierarchyOutgoingCall.to item)
       = convertPathToUri H (Declaration.path resolvedDecl)
    /\ CallHierarchyItem.range (CallHierarchyOutgoingCall.to item)
       = Declaration.range resolvedDecl
    /\ In (rangeOfNameNode H parseResults nameNode)
          (CallHierarchyOutgoingCall.fromRanges item).
Proof.
  intros Hrun Hitem. unfold getOutgoingCalls in Hrun.
  match type of Hrun with
  | withTarget _ _ _ ?k _ _ = _ =>
      destruct (withTarget_cases H filePath position k tok s)
        as [[_ Hc]|[(_ & _ & Hc)
                   |(_ & parseResults & r & target & Hpr & Hr & _ & Ht & Hc)]]
  end; rewrite Hc in Hrun; clear Hc; try discriminate.
  destruct (resolveAliasDeclaration H (targetDecl target) true) as [rd|] eqn:Hres;
    [|discriminate].
  destruct (outgoingParseRoot H rd) as [root|] eqn:Hroot; [|discriminate].
  unfold bind in Hrun.
  rewrite (findOutgoingCalls_closed_form H parseResults root) in Hrun.
  destruct (cancelledWithin tok _ _); [discriminate|].
  destruct (Nat.eqb _ 0); [discriminate|].
  unfold ret in Hrun. injection Hrun as <- _.
  apply in_map_iff in Hitem. destruct Hitem as (call & <- & Hcall).
  apply filter_In in Hcall. destruct Hcall as [Hcall Hnav].
  destruct (outgoing_record_origin H parseResults root call Hcall)
    as (site & Hsite & Hkey & Hrange).
  destruct (outgoingSites_origin H root site Hsite) as (v & decl & Hv & Hin & Hdecl & Hfc).
  unfold outgoingKey, itemKey, outgoingSiteKey, declarationKey in Hkey.
  injection Hkey as Huri Hrng.
  exists parseResults, r, target, rd, root, v, (fst site), decl, (snd site).
  simpl. rewrite <- Huri, <- Hrng. repeat split; assumption.
Qed.

Lemma outgoing_items_are_navigable_callees_witness :
  exists parseResults r target targetResolved parseRoot v nameNode declaration resolvedDecl,
    _parseResults (Examples.appHost "/src/app.py" Examples.everywhere) "/src/app.py"
    = Some parseResults
    /\ _getDeclaration (Examples.appHost "/src/app.py" Examples.everywhere)
         "/src/app.py" (Examples.pos 0 60) = Some r
    /\ _getTargetDeclaration (Examples.appHost "/src/app.py" Examples.everywhere)
         "/src/app.py" r = Some target
    /\ resolveAliasDeclaration (Examples.appHost "/src/app.py" Examples.everywhere)
         (targetDecl target) true = Some targetResolved
    /\ outgoingParseRoot (Examples.appHost "/src/app.py" Examples.everywhere)
         targetResolved = Some parseRoot
    /\ In v (visitsOf parseRoot)
    /\ recorderInput (Examples.appHost "/src/app.py" Examples.everywhere)
         v nameNode declaration
    /\ resolveAliasDeclaration (Examples.appHost "/src/app.py" Examples.everywhere)
         declaration true = Some resolvedDecl
    /\ isFunctionOrClass resolvedDecl = true
    /\ Examples.everywhere (Declaration.path resolvedDecl) = true
    /\ "file:///src/app.py" = ("file://" ++ Declaration.path resolvedDecl)%string
    /\ Examples.span 0 4 8 = Declaration.range resolvedDecl
    /\ In (rangeOfNameNode (Examples.appHost "/src/app.py" Examples.everywhere)
             parseResults nameNode)
          [Examples.span 0 70 74; Examples.span 0 80 84].
Proof.
  exact (@outgoing_items_are_navigable_callees
           (Examples.appHost "/src/app.py" Examples.everywhere) "/src/app.py"
           (Examples.pos 0 60) neverCancelled initialState
           (ticks 4 initialState)
           [CallHierarchyOutgoingCall.mk
              (CallHierarchyItem.mk (Some "real") SymbolKind.Function
                 "file:///src/app.py" (Examples.span 0 4 8) (Examples.span 0 4 8))
              [Examples.span 0 70 74; Examples.span 0 80 84]]
           (CallHierarchyOutgoingCall.mk
              (CallHierarchyItem.mk (Some "real") SymbolKind.Function
                 "file:///src/app.py" (Examples.span 0 4 8) (Examples.span 0 4 8))
              [Examples.span 0 70 74; Examples.span 0 80 84])
           eq_refl (or_introl eq_refl)).
Defined.

(** ** The name a record is shown under *)

Lemma jsStringEqb_refl (a : JsString) : jsStringEqb a a = true.
Proof. apply jsStringEqb_eq. reflexivity. Qed.

Lemma outgoingStep_one_spelling (H : Host) parseResults spelling
    (sites : list OutgoingSite) :
  (forall site, In site sites -> NameNode.value (fst site) = spelling) ->
  forall cur call,
    (forall c, cur = Some c -> nameOfCall c = Some spelling) ->
    fold_left (outgoingStep H parseResults) sites cur = Some call ->
    nameOfCall call = Some spelling.
Proof.
  induction sites as [|site rest IH]; intros Hsp cur call Hcur Hfold.
  - apply Hcur. exact Hfold.
  - simpl in Hfold. apply (IH (fun x Hx => Hsp x (or_intror Hx)) _ call) in Hfold;
      [exact Hfold|].
    intros c Hc. unfold outgoingStep, touchFound in Hc. injection Hc as <-.
    assert (Hname : nameOfCall match cur with Some r => r | None => freshOutgoing H site end
                    = Some spelling).
    { destruct cur as [r|]; [apply Hcur; reflexivity|].
      unfold nameOfCall, freshOutgoing, outgoingCallDest. simpl.
      rewrite (Hsp site (or_introl eq_refl)). reflexivity. }
    unfold nameOfCall, touchOutgoing in *. cbv zeta. simpl.
    rewrite Hname, (Hsp site (or_introl eq_refl)), jsStringEqb_refl. simpl. exact Hname.
Qed.

(** X13.  A record of the outgoing walker is created under the spelling of
    the call site that creates it and is renamed only by a call site spelled
    differently.  Hence a callee that the walked body reaches under one
    spelling only is shown under that spelling, an import alias included,
    whatever name its declaration has. *)
Theorem callee_reached_by_one_spelling_keeps_it (H : Host)
    (parseResults : ParseResults) (root : ParseNode) (tok : CancellationToken)
    (s s' : ProgState) (calls : list CallHierarchyOutgoingCall.t)
    (call : CallHierarchyOutgoingCall.t) (spelling : string) :
  findOutgoingCalls H root parseResults tok s = Ret calls s' ->
  In call calls ->
  (forall site,
     In site (outgoingSites H root) ->
     outgoingSiteKey site = outgoingKey call ->
     NameNode.value (fst site) = spelling) ->
  CallHierarchyItem.name (CallHierarchyOutgoingCall.to call) = Some spelling.
Proof.
  intros Hrun Hin Hsp.
  rewrite (findOutgoingCalls_closed_form H parseResults root) in Hrun.
  destruct (cancelledWithin tok (checks s) _); [discriminate|].
  injection Hrun as <- _.
  assert (Hnd : NoDup (map outgoingKey (outgoingRecords H parseResults root)))
    by (apply recordOutgoing_NoDup; constructor).
  pose proof (outgoing_record_of_member _ call Hnd Hin) as Hfind.
  unfold outgoingRecords in Hfind.
  pose proof (@aggregate_find _ _ CallHierarchyOutgoingCall.to outgoingSiteKey
                (freshOutgoing H)
                (fun site => touchOutgoing H parseResults (fst site) (snd site))
                (outgoing_fresh_key H)
                (fun site r => outgoing_touch_key H parseResults site r)
                (outgoingSites H root) [] (outgoingKey call)) as Hagg.
  assert (Hfold :
            fold_left (outgoingStep H parseResults)
              (filter (fun site => keyEqb (outgoingSiteKey site) (outgoingKey call))
                 (outgoingSites H root)) None
            = Some call)
    by (etransitivity; [symmetry; exact Hagg|exact Hfind]).
  clear Hagg Hfind.
  apply outgoingStep_one_spelling
    with (H := H) (parseResults := parseResults) (cur := None)
         (sites := filter (fun site => keyEqb (outgoingSiteKey site) (outgoingKey call))
                     (outgoingSites H root)).
  - intros site Hsite. apply filter_In in Hsite. destruct Hsite as [Hsite Hk].
    apply Hsp; [exact Hsite|]. apply keyEqb_eq. exact Hk.
  - intros c Hc. discriminate.
  - exact Hfold.
Qed.

Lemma callee_reached_by_one_spelling_keeps_it_witness :
  getNameFromDeclaration (Examples.appHost "/src/app.py" Examples.everywhere)
    (Examples.realDecl "/src/app.py") = Some "real"
  /\ CallHierarchyItem.name
       (CallHierarchyOutgoingCall.to
          (CallHierarchyOutgoingCall.mk
             (CallHierarchyItem.mk (Some "nick") SymbolKind.Function "/src/app.py"
                (Examples.span 0 4 8) (Examples.span 0 4 8))
             [Examples.span 0 80 84]))
     = Some "nick".
Proof.
  split; [reflexivity|].
  apply (@callee_reached_by_one_spelling_keeps_it
           (Examples.appHost "/src/app.py" Examples.everywhere)
           Examples.appResults nickOnlyNode neverCancelled initialState
           (ticks 1 initialState)
           [CallHierarchyOutgoingCall.mk
              (CallHierarchyItem.mk (Some "nick") SymbolKind.Function "/src/app.py"
                 (Examples.span 0 4 8) (Examples.span 0 4 8))
              [Examples.span 0 80 84]]).
  - reflexivity.
  - left. reflexivity.
  - intros site [<-|[]] _. reflexivity.
Defined.

(** ** Where the callers of an answer lie *)

Lemma incomingCallSource_uri (H : Host) filePath parseResults scope :
  CallHierarchyItem.uri (incomingCallSource H filePath parseResults scope) = filePath.
Proof. destruct scope; reflexivity. Qed.

Lemma incoming_record_origin (H : Host) filePath symbolName declaration parseResults
    (call : CallHierarchyIncomingCall.t) :
  In call (incomingRecords H filePath symbolName declaration parseResults) ->
  CallHierarchyItem.uri (CallHierarchyIncomingCall.from call) = filePath
  /\ CallHierarchyIncomingCall.fromRanges call <> [].
Proof.
  intros Hin.
  assert (Hkeys : map incomingKey (incomingRecords H filePath symbolName declaration
                                     parseResults)
                  = firstOccurrences (map (incomingSiteKey H filePath parseResults) (incomingSites H symbolName declaration (parseTree parseResults)))).
  { exact (@aggregate_keys _ _ CallHierarchyIncomingCall.from
             (incomingSiteKey H filePath parseResults)
             (freshIncoming H filePath parseResults)
             (fun site => pushIncomingRange (rangeOfNameNode H parseResults (fst site)))
             (fun _ => eq_refl) (fun _ _ => eq_refl) (incomingSites H symbolName declaration (parseTree parseResults)) []). }
  assert (Hk : In (incomingKey call) (map (incomingSiteKey H filePath parseResults) (incomingSites H symbolName declaration (parseTree parseResults)))).
  { pose proof (in_map incomingKey _ _ Hin) as Hmem. rewrite Hkeys in Hmem.
    apply addKey_fold_in in Hmem. destruct Hmem as [[]|Hmem]. exact Hmem. }
  apply in_map_iff in Hk. destruct Hk as (site & Hkey & Hsite). split.
  - unfold incomingKey, incomingSiteKey, itemKey in Hkey. injection Hkey as Huri _.
    rewrite <- Huri. apply incomingCallSource_uri.
  - assert (Hnd : NoDup (map incomingKey
                           (incomingRecords H filePath symbolName declaration parseResults)))
      by (apply recordIncoming_NoDup; constructor).
    pose proof (incoming_record_of_member _ call Hnd Hin) as Hfind.
    pose proof (recordIncoming_ranges H parseResults filePath (incomingSites H symbolName declaration (parseTree parseResults)) []
                  (incomingKey call)) as Hranges.
    fold (incomingRecords H filePath symbolName declaration parseResults) in Hranges.
    unfold rangesAt in Hranges. rewrite Hfind in Hranges. simpl in Hranges.
    rewrite Hranges. intros Hnil. apply map_eq_nil in Hnil.
    assert (Hmem : In site
                     (filter (fun x => keyEqb (incomingSiteKey H filePath parseResults x)
                                         (incomingKey call)) (incomingSites H symbolName declaration (parseTree parseResults)))).
    { apply filter_In. split; [exact Hsite|]. rewrite Hkey. apply keyEqb_refl. }
    rewrite Hnil in Hmem. destruct Hmem.
Qed.

Lemma scan_items_origin (H : Host) symbolName targetDecl
    (xs : list (option SourceFileInfo)) :
  forall items tok s items' s',
    forEachM (scanSourceFile H symbolName targetDecl) xs items tok s = Ret items' s' ->
    forall item,
      In item items' ->
      In item items
      \/ exists info,
           In (Some info) xs
           /\ isScanned H info = true
           /\ CallHierarchyItem.uri (CallHierarchyIncomingCall.from item) = getFilePath info
           /\ CallHierarchyIncomingCall.fromRanges item <> [].
Proof.
  induction xs as [|x rest IH]; intros items tok s items' s' Hrun item Hitem.
  - injection Hrun as <- _. left. exact Hitem.
  - cbn [forEachM] in Hrun. unfold bind at 1 in Hrun.
    destruct (scanSourceFile H symbolName targetDecl x items tok s)
      as [items1 s1| |] eqn:Hscan; try discriminate.
    destruct (IH items1 tok s1 items' s' Hrun item Hitem) as [Hin|(info & Hi & Hrest)].
    2:{ right. exists info. split; [right; exact Hi|exact Hrest]. }
    clear IH Hrun Hitem.
    destruct x as [info|]; [|discriminate].
    unfold scanSourceFile in Hscan. fold (isScanned H info) in Hscan.
    destruct (isScanned H info) eqn:Hscanned.
    2:{ injection Hscan as <- _. left. exact Hin. }
    unfold _getIncomingCallsForDeclaration, bind, throwIfCancellationRequested,
      noteWalk, handleMemoryHighUsage, ret in Hscan.
    destruct (tok (checks s)); [discriminate|].
    destruct (getParseResults H (getFilePath info)) as [parseResults|]; [|discriminate].
    rewrite (findIncomingCalls_closed_form H (getFilePath info) symbolName targetDecl
               parseResults) in Hscan.
    destruct (cancelledWithin tok _ _); [discriminate|].
    set (records := incomingRecords H (getFilePath info) symbolName targetDecl
                      parseResults) in *.
    assert (Hitems1 : In item (items ++ records)).
    { injection Hscan as Hitems1 _. rewrite <- Hitems1 in Hin.
      destruct (Nat.ltb 0 (List.length records));
        [exact Hin|apply in_or_app; left; exact Hin]. }
    apply in_app_or in Hitems1. destruct Hitems1 as [Hold|Hnew]; [left; exact Hold|].
    right. exists info. split; [left; reflexivity|]. split; [exact Hscanned|].
    apply (incoming_record_origin H (getFilePath info) symbolName targetDecl
             parseResults item Hnew).
Qed.

(** X14.  Every record a query for incoming calls returns stands for a scope
    of a file the scan walked: a file of the program's list, or the querying
    file itself, that is user code or open in the client.  The record
    carries the locator of that file, which is navigable, and at least one
    call-site range. *)
Theorem incoming_items_lie_in_scanned_files (H : Host) (filePath : string)
    (position : Position.t) (tok : CancellationToken) (s s' : ProgState)
    (callItems : list CallHierarchyIncomingCall.t) (item : CallHierarchyIncomingCall.t) :
  getIncomingCalls H filePath position tok s = Ret (Some callItems) s' ->
  In item callItems ->
  exists info,
    (In info (getSourceFileInfoList H) \/ getSourceFileInfo H filePath = Some info)
    /\ isScanned H info = true
    /\ canNavigateToFile H (getFilePath info) = true
    /\ CallHierarchyItem.uri (CallHierarchyIncomingCall.from item)
       = convertPathToUri H (getFilePath info)
    /\ CallHierarchyIncomingCall.fromRanges item <> [].
Proof.
  intros Hrun Hitem. unfold getIncomingCalls in Hrun.
  match type of Hrun with
  | withTarget _ _ _ ?k _ _ = _ =>
      destruct (withTarget_cases H filePath position k tok s)
        as [[_ Hc]|[(_ & _ & Hc)|(_ & parseResults & r & target & _ & _ & _ & _ & Hc)]]
  end; rewrite Hc in Hrun; clear Hc; try discriminate.
  unfold bind in Hrun.
  destruct (forEachM _ _ _ tok (tick s)) as [items s1| |] eqn:Hscan; try discriminate.
  destruct (Nat.eqb _ 0); [discriminate|].
  unfold ret in Hrun. injection Hrun as <- _.
  apply in_map_iff in Hitem. destruct Hitem as (call & <- & Hcall).
  apply filter_In in Hcall. destruct Hcall as [Hcall Hnav].
  destruct (scan_items_origin H _ _ _ _ _ _ Hscan call Hcall)
    as [[]|(info & Hinfo & Hscanned & Huri & Hranges)].
  exists info. rewrite Huri in Hnav. simpl. rewrite Huri.
  repeat split; try assumption.
  unfold incomingSourceFiles in Hinfo.
  destruct (isAlias (targetDecl target)).
  - destruct Hinfo as [E|[]]. right. exact E.
  - apply in_map_iff in Hinfo. destruct Hinfo as (i & E & Hi).
    injection E as ->. left. exact Hi.
Qed.

Lemma incoming_items_lie_in_scanned_files_witness :
  exists info,
    (In info Examples.workspaceFiles
     \/ getSourceFileInfo Examples.workspaceHost "/src/app.py" = Some info)
    /\ isScanned Examples.workspaceHost info = true
    /\ Examples.everywhere (getFilePath info) = true
    /\ "file:///lib/open.py" = ("file://" ++ getFilePath info)%string
    /\ [Examples.span 0 0 4] <> [].
Proof.
  exact (@incoming_items_lie_in_scanned_files Examples.workspaceHost "/src/app.py"
           (Examples.pos 0 4) neverCancelled initialState
           (mkState 7 ["/src/app.py"; "/lib/open.py"] 2)
           [CallHierarchyIncomingCall.mk
              (CallHierarchyItem.mk (Some "main") SymbolKind.Function
                 "file:///src/app.py" (Examples.span 0 60 64) (Examples.span 0 60 64))
              [Examples.span 0 70 74];
            CallHierarchyIncomingCall.mk
              (CallHierarchyItem.mk (Some "(module) /lib/open.py") SymbolKind.Module_
                 "file:///lib/open.py" (Examples.span 0 0 0) (Examples.span 0 0 0))
              [Examples.span 0 0 4]]
           (CallHierarchyIncomingCall.mk
              (CallHierarchyItem.mk (Some "(module) /lib/open.py") SymbolKind.Module_
                 "file:///lib/open.py" (Examples.span 0 0 0) (Examples.span 0 0 0))
              [Examples.span 0 0 4])
           eq_refl (or_intror (or_introl eq_refl))).
Defined.
